(** * GeminiGPT voice overlay: codec, playback scheduler and session lifecycle

    A shallow embedding of the realtime voice core of the
    [VoiceChatOverlay] component: the audio utilities [createBlob],
    [decode] and [decodeAudioData], the [onmessage] playback scheduler,
    the capture callback [onaudioprocess], and the session lifecycle
    functions [startSession] and [stopSession].

    Conventions.
    - A JavaScript number is a [float]: [NaN], an infinity, or a finite
      value carried as an exact rational.  Every arithmetic step the codec
      performs on a Float32 sample (scaling by [32768], dividing a 16-bit
      integer by [32768.0]) is exact in binary floating point, so the
      rational model agrees with the machine on every Float32 input.
      Times of the audio clock are rationals as well.
    - A [Uint8Array] is a [list byte], an [Int16Array] a [list Z] of values
      in [-32768, 32767], a binary string a [string] (8-bit characters).
    - React state read inside a callback is the value captured by the
      closure when the callback was created (a [Render] snapshot); refs
      are fields of the mutable [World].
    - Calls into the browser (Web Audio, MediaStream, the Live session) are
      recorded in the world's [trace]; every platform object has a number
      of its own.
    - The overlay runs on one thread: a callback runs to its end before the
      next one starts.  [startSession] is suspended once, at its [await]
      of [getUserMedia], and is therefore two callbacks; the [await] in
      [onmessage] is on a promise that is already settled, and the handler
      is taken as one step. *)

From Stdlib Require Import ZArith QArith Qround Qabs Qminmax Lqa Lia List String Ascii.
From Stdlib.Strings Require Import Byte.
From stdpp Require Import base gmap list.

Local Open Scope Z_scope.

(* ===================================================================== *)
(** ** JavaScript numbers and typed-array conversions                     *)
(* ===================================================================== *)

Inductive float : Type :=
| NaN
| Infinity (negative : bool)
| Finite (q : Q).

(** [x * 32768] for a sample [x]. *)
Definition float_scale (k : Q) (x : float) : float :=
  match x with
  | NaN => NaN
  | Infinity s => Infinity s
  | Finite q => Finite (q * k)
  end.

(** Truncation toward zero (the integer part kept by ECMAScript's
    [ToIntegerOrInfinity]). *)
Definition truncate (q : Q) : Z := Z.quot (Qnum q) (Zpos (Qden q)).

(** Reduction of an integer modulo [2^16] into the signed 16-bit range. *)
Definition wrap16 (n : Z) : Z :=
  let m := n mod 65536 in
  if 32768 <=? m then m - 65536 else m.

(** ECMAScript [ToInt16]: what a store into an [Int16Array] does to a
    number.  [NaN] and the infinities become [0]; a finite value is
    truncated toward zero and then wrapped. *)
Definition ToInt16 (x : float) : Z :=
  match x with
  | NaN | Infinity _ => 0
  | Finite q => wrap16 (truncate q)
  end.

Definition byte_to_Z (b : byte) : Z := Z.of_N (Byte.to_N b).

Definition byte_of_Z (z : Z) : byte :=
  match Byte.of_N (Z.to_N (z mod 256)) with
  | Some b => b
  | None => x00
  end.

(** The two bytes of a 16-bit integer as seen through
    [new Uint8Array(int16.buffer)].  Typed arrays use the byte order of the
    platform, which is little-endian wherever browsers run. *)
Definition int16_bytes (v : Z) : list byte :=
  let u := v mod 65536 in
  [byte_of_Z (u mod 256); byte_of_Z (u / 256)].

Definition Int16Array_buffer (a : list Z) : list byte :=
  flat_map int16_bytes a.

(** The signed 16-bit integer stored little-endian in two bytes. *)
Definition int16_of_bytes (lo hi : byte) : Z :=
  wrap16 (byte_to_Z lo + 256 * byte_to_Z hi).

Fixpoint int16_view (data : list byte) : list Z :=
  match data with
  | lo :: hi :: rest => int16_of_bytes lo hi :: int16_view rest
  | _ => []
  end.

(** Exceptions raised by the platform calls the overlay makes. *)
Inductive Exception : Type :=
| RangeError
| NotSupportedError
| InvalidCharacterError
| InvalidStateError
| TypeError
| Error (message : string).

Inductive result (A : Type) : Type :=
| Ok (a : A)
| Throw (e : Exception).
Arguments Ok {A} a.
Arguments Throw {A} e.

Definition result_bind {A B} (r : result A) (k : A -> result B) : result B :=
  match r with
  | Ok a => k a
  | Throw e => Throw e
  end.

Notation "'let!' x ':=' e 'in' k" := (result_bind e (fun x => k))
  (at level 10, x name, e at level 100, k at level 200).

(** [new Int16Array(buffer)]: a [RangeError] unless the buffer's byte
    length is a multiple of the element size. *)
Definition Int16Array_from (data : list byte) : result (list Z) :=
  if Nat.even (length data) then Ok (int16_view data) else Throw RangeError.

(* ===================================================================== *)
(** ** The platform's [btoa] and [atob]                                   *)
(* ===================================================================== *)

(** Base64 (RFC 4648) as the HTML standard defines it for [btoa] and for
    [atob] (forgiving-base64 decode).  Byte and sextet values are integers. *)

Definition base64_alphabet : list ascii :=
  list_ascii_of_string
    "ABCDEFGHIJKLMNOPQRSTUVWXYZabcdefghijklmnopqrstuvwxyz0123456789+/".

Definition base64_char (n : Z) : ascii :=
  nth (Z.to_nat n) base64_alphabet "A"%char.

Fixpoint index_of (c : ascii) (l : list ascii) : option Z :=
  match l with
  | [] => None
  | x :: r => if Ascii.eqb c x then Some 0 else option_map Z.succ (index_of c r)
  end.

Definition base64_value (c : ascii) : option Z := index_of c base64_alphabet.

Definition pad : ascii := "="%char.

Fixpoint base64_encode (l : list Z) : list ascii :=
  match l with
  | [] => []
  | [a] =>
      [base64_char (a / 4); base64_char ((a mod 4) * 16); pad; pad]
  | [a; b] =>
      [base64_char (a / 4); base64_char ((a mod 4) * 16 + b / 16);
       base64_char ((b mod 16) * 4); pad]
  | a :: b :: c :: r =>
      base64_char (a / 4) :: base64_char ((a mod 4) * 16 + b / 16)
      :: base64_char ((b mod 16) * 4 + c / 64) :: base64_char (c mod 64)
      :: base64_encode r
  end.

Definition char_code (c : ascii) : Z := Z.of_N (N_of_ascii c).
Definition fromCharCode (z : Z) : ascii := ascii_of_N (Z.to_N (z mod 256)).

(** [btoa]: every character of a [string] has a code below 256, so the
    [InvalidCharacterError] of the platform function cannot arise. *)
Definition btoa (s : string) : string :=
  string_of_list_ascii (base64_encode (map char_code (list_ascii_of_string s))).

Definition is_ascii_whitespace (c : ascii) : bool :=
  match N_of_ascii c with
  | 9%N | 10%N | 12%N | 13%N | 32%N => true
  | _ => false
  end.

Definition is_pad (c : ascii) : bool := Ascii.eqb c pad.

(** Removes one or two trailing padding characters. *)
Fixpoint strip_padding (l : list ascii) : list ascii :=
  match l with
  | [] => []
  | [x] => if is_pad x then [] else [x]
  | [x; y] => if is_pad y then (if is_pad x then [] else [x]) else [x; y]
  | x :: r => x :: strip_padding r
  end.

Fixpoint base64_values (l : list ascii) : option (list Z) :=
  match l with
  | [] => Some []
  | c :: r =>
      match base64_value c, base64_values r with
      | Some v, Some vs => Some (v :: vs)
      | _, _ => None
      end
  end.

(** Sextets to bytes; the bits left over in a final group of two or three
    sextets are discarded. *)
Fixpoint base64_decode (l : list Z) : list Z :=
  match l with
  | a :: b :: c :: d :: r =>
      (a * 4 + b / 16) :: ((b mod 16) * 16 + c / 4) :: ((c mod 4) * 64 + d)
      :: base64_decode r
  | [a; b; c] => [a * 4 + b / 16; (b mod 16) * 16 + c / 4]
  | [a; b] => [a * 4 + b / 16]
  | _ => []
  end.

Definition atob (s : string) : result string :=
  let data := List.filter (fun c => negb (is_ascii_whitespace c))
                          (list_ascii_of_string s) in
  let data := if (length data mod 4 =? 0)%nat then strip_padding data else data in
  if (length data mod 4 =? 1)%nat then Throw InvalidCharacterError
  else
    match base64_values data with
    | None => Throw InvalidCharacterError
    | Some sextets =>
        Ok (string_of_list_ascii (map fromCharCode (base64_decode sextets)))
    end.

(* ===================================================================== *)
(** ** Audio utilities                                                    *)
(* ===================================================================== *)

Record Blob : Type := { data : string; mimeType : string }.

(** [createBlob]: the store [int16[i] = data[i] * 32768] converts with
    [ToInt16]; the bytes of the array's buffer become the characters of a
    binary string, which is Base64-encoded.  (The argument, [data] in the
    source, is [samples] here: [data] is the field of the packet.) *)
Definition createBlob (samples : list float) : Blob :=
  let int16 := map (fun x => ToInt16 (float_scale 32768 x)) samples in
  let bytes := Int16Array_buffer int16 in
  let binary := string_of_list_ascii (map ascii_of_byte bytes) in
  let base64 := btoa binary in
  {| data := base64; mimeType := "audio/pcm;rate=16000" |}.

(** [decode]: [atob], then one byte per character code. *)
Definition decode (base64 : string) : result (list byte) :=
  let! binaryString := atob base64 in
  Ok (map byte_of_ascii (list_ascii_of_string binaryString)).

(** An [AudioBuffer]: [channels] holds one [Float32Array] per channel. *)
Record AudioBuffer : Type := {
  numberOfChannels : nat;
  ab_length : nat;
  sampleRate : Q;
  channels : list (list float)
}.

(** The [duration] attribute: length in sample frames over sample rate. *)
Definition duration (b : AudioBuffer) : Q :=
  inject_Z (Z.of_nat (ab_length b)) / sampleRate b.

(** [a / b] on two array lengths. *)
Definition js_div (a b : nat) : float :=
  match b with
  | O => match a with O => NaN | S _ => Infinity false end
  | S _ => Finite (Z.of_nat a # Pos.of_nat b)
  end.

(** Conversion of a number to a Web IDL [unsigned long]. *)
Definition ToUint32 (x : float) : Z :=
  match x with
  | NaN | Infinity _ => 0
  | Finite q => truncate q mod 4294967296
  end.

(** [ctx.createBuffer(numberOfChannels, length, sampleRate)]: the buffer is
    zero-filled; a [NotSupportedError] when an argument is zero or
    negative.  (Implementation-specific upper limits on the channel count
    and the rate are not modelled.) *)
Definition createBuffer (numChannels : nat) (frameCount : float) (rate : Q)
  : result AudioBuffer :=
  let len := Z.to_nat (ToUint32 frameCount) in
  if (numChannels =? 0)%nat || (len =? 0)%nat || Qle_bool rate 0
  then Throw NotSupportedError
  else Ok {| numberOfChannels := numChannels;
             ab_length := len;
             sampleRate := rate;
             channels := replicate numChannels (replicate len (Finite 0)) |}.

(** [for (let i = 0; i < n; i++) body] *)
Definition for_loop {S : Type} (n : nat) (body : nat -> S -> S) (s : S) : S :=
  fold_left (fun s i => body i s) (seq 0 n) s.

(** Number of iterations of [for (let i = 0; i < x; i++)] for a number [x].
    (With [x] infinite the loop would not end; [decodeAudioData] never gets
    there, [createBuffer] having thrown.) *)
Definition iterations (x : float) : nat :=
  match x with
  | Finite q => Z.to_nat (Qceiling q)
  | _ => O
  end.

(** [a[k] / 32768.0] on an [Int16Array]; an index out of range reads
    [undefined], and [undefined / 32768.0] is [NaN]. *)
Definition read_scaled (a : list Z) (k : nat) : float :=
  match a !! k with
  | Some v => Finite (inject_Z v / 32768)
  | None => NaN
  end.

Definition AudioContext : Type := nat.

(** [decodeAudioData].  A store into a typed array at an index beyond its
    length is ignored, which is what the list update [<[i:=x]>] does. *)
Definition decodeAudioData (data : list byte) (ctx : AudioContext)
    (rate : Q) (numChannels : nat) : result AudioBuffer :=
  let! dataInt16 := Int16Array_from data in
  let frameCount := js_div (length dataInt16) numChannels in
  let! buffer := createBuffer numChannels frameCount rate in
  Ok (for_loop numChannels (fun channel buffer =>
        let channelData := default [] (channels buffer !! channel) in
        let channelData :=
          for_loop (iterations frameCount) (fun i channelData =>
            <[i := read_scaled dataInt16 (i * numChannels + channel)]> channelData)
            channelData in
        {| numberOfChannels := numberOfChannels buffer;
           ab_length := ab_length buffer;
           sampleRate := sampleRate buffer;
           channels := <[channel := channelData]> (channels buffer) |})
      buffer).

(* ===================================================================== *)
(** ** The overlay's world: React state, refs and the platform            *)
(* ===================================================================== *)

Record VoicePersona : Type := {
  voiceName : string;
  systemInstruction : string
}.

(** What a closure created during a render sees of the React state. *)
Record Render : Type := {
  r_isConnecting : bool;
  r_isConnected : bool;
  r_isMuted : bool;
  r_selectedPersona : VoicePersona
}.

(** The variables captured by the callbacks handed to [ai.live.connect]. *)
Record SessionEnv : Type := {
  env_render : Render;
  env_stream : nat;
  env_inputCtx : option nat;
  env_sessionPromise : nat
}.

(** Calls into the platform. *)
Inductive Event : Type :=
| NewAudioContext (ctx : nat) (rate : Q)
| GetUserMedia
| LiveConnect (env : SessionEnv)
| CreateMediaStreamSource (node ctx stream : nat)
| CreateScriptProcessor (node ctx : nat)
| NodeConnect (node : nat)
| TrackStop (stream : nat)
| NodeDisconnect (node : nat)
| ContextClose (ctx : nat)
| SourceStart (node : nat) (buffer : AudioBuffer) (when : Q)
| SourceStop (node : nat)
| SendRealtimeInput (session : nat) (media : Blob)
| OverlayClose.

Record World : Type := {
  (* React state, as the next render will see it *)
  isConnecting : bool;
  isConnected : bool;
  isMuted : bool;
  selectedPersona : VoicePersona;
  (* refs *)
  inputAudioContextRef : option nat;
  outputAudioContextRef : option nat;
  streamRef : option nat;
  processorRef : option nat;
  sourceRef : option nat;
  nextStartTimeRef : Q;
  audioSourcesRef : gset nat;  (* a [Set]; its iteration order is not kept *)
  sessionRef : option nat;
  activeSessionRef : option nat;
  (* platform: handlers installed on script processors, object
     identities handed out so far, and the calls made *)
  onaudioprocess_handlers : gmap nat SessionEnv;
  fresh : nat;
  trace : list Event
}.

Definition render (w : World) : Render :=
  {| r_isConnecting := isConnecting w;
     r_isConnected := isConnected w;
     r_isMuted := isMuted w;
     r_selectedPersona := selectedPersona w |}.

(** Field updates. *)
Definition set_isConnecting (v : bool) (w : World) : World :=
  {| isConnecting := v; isConnected := isConnected w; isMuted := isMuted w;
     selectedPersona := selectedPersona w;
     inputAudioContextRef := inputAudioContextRef w;
     outputAudioContextRef := outputAudioContextRef w;
     streamRef := streamRef w; processorRef := processorRef w;
     sourceRef := sourceRef w; nextStartTimeRef := nextStartTimeRef w;
     audioSourcesRef := audioSourcesRef w; sessionRef := sessionRef w;
     activeSessionRef := activeSessionRef w;
     onaudioprocess_handlers := onaudioprocess_handlers w; fresh := fresh w;
     trace := trace w |}.
Definition set_isConnected (v : bool) (w : World) : World :=
  {| isConnecting := isConnecting w; isConnected := v; isMuted := isMuted w;
     selectedPersona := selectedPersona w;
     inputAudioContextRef := inputAudioContextRef w;
     outputAudioContextRef := outputAudioContextRef w;
     streamRef := streamRef w; processorRef := processorRef w;
     sourceRef := sourceRef w; nextStartTimeRef := nextStartTimeRef w;
     audioSourcesRef := audioSourcesRef w; sessionRef := sessionRef w;
     activeSessionRef := activeSessionRef w;
     onaudioprocess_handlers := onaudioprocess_handlers w; fresh := fresh w;
     trace := trace w |}.
Definition set_isMuted (v : bool) (w : World) : World :=
  {| isConnecting := isConnecting w; isConnected := isConnected w;
     isMuted := v; selectedPersona := selectedPersona w;
     inputAudioContextRef := inputAudioContextRef w;
     outputAudioContextRef := outputAudioContextRef w;
     streamRef := streamRef w; processorRef := processorRef w;
     sourceRef := sourceRef w; nextStartTimeRef := nextStartTimeRef w;
     audioSourcesRef := audioSourcesRef w; sessionRef := sessionRef w;
     activeSessionRef := activeSessionRef w;
     onaudioprocess_handlers := onaudioprocess_handlers w; fresh := fresh w;
     trace := trace w |}.
Definition set_inputAudioContextRef (v : option nat) (w : World) : World :=
  {| isConnecting := isConnecting w; isConnected := isConnected w;
     isMuted := isMuted w; selectedPersona := selectedPersona w;
     inputAudioContextRef := v;
     outputAudioContextRef := outputAudioContextRef w;
     streamRef := streamRef w; processorRef := processorRef w;
     sourceRef := sourceRef w; nextStartTimeRef := nextStartTimeRef w;
     audioSourcesRef := audioSourcesRef w; sessionRef := sessionRef w;
     activeSessionRef := activeSessionRef w;
     onaudioprocess_handlers := onaudioprocess_handlers w; fresh := fresh w;
     trace := trace w |}.
Definition set_outputAudioContextRef (v : option nat) (w : World) : World :=
  {| isConnecting := isConnecting w; isConnected := isConnected w;
     isMuted := isMuted w; selectedPersona := selectedPersona w;
     inputAudioContextRef := inputAudioContextRef w;
     outputAudioContextRef := v; streamRef := streamRef w;
     processorRef := processorRef w; sourceRef := sourceRef w;
     nextStartTimeRef := nextStartTimeRef w;
     audioSourcesRef := audioSourcesRef w; sessionRef := sessionRef w;
     activeSessionRef := activeSessionRef w;
     onaudioprocess_handlers := onaudioprocess_handlers w; fresh := fresh w;
     trace := trace w |}.
Definition set_streamRef (v : option nat) (w : World) : World :=
  {| isConnecting := isConnecting w; isConnected := isConnected w;
     isMuted := isMuted w; selectedPersona := selectedPersona w;
     inputAudioContextRef := inputAudioContextRef w;
     outputAudioContextRef := outputAudioContextRef w; streamRef := v;
     processorRef := processorRef w; sourceRef := sourceRef w;
     nextStartTimeRef := nextStartTimeRef w;
     audioSourcesRef := audioSourcesRef w; sessionRef := sessionRef w;
     activeSessionRef := activeSessionRef w;
     onaudioprocess_handlers := onaudioprocess_handlers w; fresh := fresh w;
     trace := trace w |}.
Definition set_processorRef (v : option nat) (w : World) : World :=
  {| isConnecting := isConnecting w; isConnected := isConnected w;
     isMuted := isMuted w; selectedPersona := selectedPersona w;
     inputAudioContextRef := inputAudioContextRef w;
     outputAudioContextRef := outputAudioContextRef w;
     streamRef := streamRef w; processorRef := v; sourceRef := sourceRef w;
     nextStartTimeRef := nextStartTimeRef w;
     audioSourcesRef := audioSourcesRef w; sessionRef := sessionRef w;
     activeSessionRef := activeSessionRef w;
     onaudioprocess_handlers := onaudioprocess_handlers w; fresh := fresh w;
     trace := trace w |}.
Definition set_sourceRef (v : option nat) (w : World) : World :=
  {| isConnecting := isConnecting w; isConnected := isConnected w;
     isMuted := isMuted w; selectedPersona := selectedPersona w;
     inputAudioContextRef := inputAudioContextRef w;
     outputAudioContextRef := outputAudioContextRef w;
     streamRef := streamRef w; processorRef := processorRef w; sourceRef := v;
     nextStartTimeRef := nextStartTimeRef w;
     audioSourcesRef := audioSourcesRef w; sessionRef := sessionRef w;
     activeSessionRef := activeSessionRef w;
     onaudioprocess_handlers := onaudioprocess_handlers w; fresh := fresh w;
     trace := trace w |}.
Definition set_nextStartTimeRef (v : Q) (w : World) : World :=
  {| isConnecting := isConnecting w; isConnected := isConnected w;
     isMuted := isMuted w; selectedPersona := selectedPersona w;
     inputAudioContextRef := inputAudioContextRef w;
     outputAudioContextRef := outputAudioContextRef w;
     streamRef := streamRef w; processorRef := processorRef w;
     sourceRef := sourceRef w; nextStartTimeRef := v;
     audioSourcesRef := audioSourcesRef w; sessionRef := sessionRef w;
     activeSessionRef := activeSessionRef w;
     onaudioprocess_handlers := onaudioprocess_handlers w; fresh := fresh w;
     trace := trace w |}.
Definition set_audioSourcesRef (v : gset nat) (w : World) : World :=
  {| isConnecting := isConnecting w; isConnected := isConnected w;
     isMuted := isMuted w; selectedPersona := selectedPersona w;
     inputAudioContextRef := inputAudioContextRef w;
     outputAudioContextRef := outputAudioContextRef w;
     streamRef := streamRef w; processorRef := processorRef w;
     sourceRef := sourceRef w; nextStartTimeRef := nextStartTimeRef w;
     audioSourcesRef := v; sessionRef := sessionRef w;
     activeSessionRef := activeSessionRef w;
     onaudioprocess_handlers := onaudioprocess_handlers w; fresh := fresh w;
     trace := trace w |}.
Definition set_sessionRef (v : option nat) (w : World) : World :=
  {| isConnecting := isConnecting w; isConnected := isConnected w;
     isMuted := isMuted w; selectedPersona := selectedPersona w;
     inputAudioContextRef := inputAudioContextRef w;
     outputAudioContextRef := outputAudioContextRef w;
     streamRef := streamRef w; processorRef := processorRef w;
     sourceRef := sourceRef w; nextStartTimeRef := nextStartTimeRef w;
     audioSourcesRef := audioSourcesRef w; sessionRef := v;
     activeSessionRef := activeSessionRef w;
     onaudioprocess_handlers := onaudioprocess_handlers w; fresh := fresh w;
     trace := trace w |}.
Definition set_activeSessionRef (v : option nat) (w : World) : World :=
  {| isConnecting := isConnecting w; isConnected := isConnected w;
     isMuted := isMuted w; selectedPersona := selectedPersona w;
     inputAudioContextRef := inputAudioContextRef w;
     outputAudioContextRef := outputAudioContextRef w;
     streamRef := streamRef w; processorRef := processorRef w;
     sourceRef := sourceRef w; nextStartTimeRef := nextStartTimeRef w;
     audioSourcesRef := audioSourcesRef w; sessionRef := sessionRef w;
     activeSessionRef := v;
     onaudioprocess_handlers := onaudioprocess_handlers w; fresh := fresh w;
     trace := trace w |}.
Definition set_onaudioprocess_handlers (v : gmap nat SessionEnv) (w : World) : World :=
  {| isConnecting := isConnecting w; isConnected := isConnected w;
     isMuted := isMuted w; selectedPersona := selectedPersona w;
     inputAudioContextRef := inputAudioContextRef w;
     outputAudioContextRef := outputAudioContextRef w;
     streamRef := streamRef w; processorRef := processorRef w;
     sourceRef := sourceRef w; nextStartTimeRef := nextStartTimeRef w;
     audioSourcesRef := audioSourcesRef w; sessionRef := sessionRef w;
     activeSessionRef := activeSessionRef w; onaudioprocess_handlers := v;
     fresh := fresh w; trace := trace w |}.
Definition set_fresh (v : nat) (w : World) : World :=
  {| isConnecting := isConnecting w; isConnected := isConnected w;
     isMuted := isMuted w; selectedPersona := selectedPersona w;
     inputAudioContextRef := inputAudioContextRef w;
     outputAudioContextRef := outputAudioContextRef w;
     streamRef := streamRef w; processorRef := processorRef w;
     sourceRef := sourceRef w; nextStartTimeRef := nextStartTimeRef w;
     audioSourcesRef := audioSourcesRef w; sessionRef := sessionRef w;
     activeSessionRef := activeSessionRef w;
     onaudioprocess_handlers := onaudioprocess_handlers w; fresh := v;
     trace := trace w |}.
Definition set_trace (v : list Event) (w : World) : World :=
  {| isConnecting := isConnecting w; isConnected := isConnected w;
     isMuted := isMuted w; selectedPersona := selectedPersona w;
     inputAudioContextRef := inputAudioContextRef w;
     outputAudioContextRef := outputAudioContextRef w;
     streamRef := streamRef w; processorRef := processorRef w;
     sourceRef := sourceRef w; nextStartTimeRef := nextStartTimeRef w;
     audioSourcesRef := audioSourcesRef w; sessionRef := sessionRef w;
     activeSessionRef := activeSessionRef w;
     onaudioprocess_handlers := onaudioprocess_handlers w; fresh := fresh w;
     trace := v |}.

(** *** A state-and-exception monad for the callbacks

    A callback either returns or throws; in both cases the mutations made
    so far stay in the world. *)

Inductive outcome (A : Type) : Type :=
| Return (a : A) (w : World)
| Raise (e : Exception) (w : World).
Arguments Return {A} a w.
Arguments Raise {A} e w.

Definition M (A : Type) : Type := World -> outcome A.

Definition ret {A} (a : A) : M A := fun w => Return a w.

Definition bind {A B} (m : M A) (k : A -> M B) : M B :=
  fun w => match m w with
           | Return a w' => k a w'
           | Raise e w' => Raise e w'
           end.

Definition throw {A} (e : Exception) : M A := fun w => Raise e w.

(** [try { m } catch (e) { h e }] *)
Definition try_catch {A} (m : M A) (h : Exception -> M A) : M A :=
  fun w => match m w with
           | Return a w' => Return a w'
           | Raise e w' => h e w'
           end.

Definition get {A} (f : World -> A) : M A := fun w => Return (f w) w.
Definition modify (f : World -> World) : M unit := fun w => Return tt (f w).

Declare Scope m_scope.
Delimit Scope m_scope with M.
Notation "x <- m ;; k" := (bind m (fun x => k))
  (at level 100, m at next level, right associativity) : m_scope.
Notation "m ;; k" := (bind m (fun _ => k))
  (at level 100, right associativity) : m_scope.
Local Open Scope m_scope.

Definition lift {A} (r : result A) : M A :=
  match r with
  | Ok a => ret a
  | Throw e => throw e
  end.

(** The world left behind by a callback, whether it returned or threw. *)
Definition run {A} (m : M A) (w : World) : World :=
  match m w with
  | Return _ w' => w'
  | Raise _ w' => w'
  end.

(** [xs.forEach(f)] *)
Fixpoint forEach {A} (xs : list A) (f : A -> M unit) : M unit :=
  match xs with
  | [] => ret tt
  | x :: r => f x ;; forEach r f
  end.

Definition emit (e : Event) : M unit :=
  modify (fun w => set_trace (trace w ++ [e]) w).

(** A platform object comes with a new identity. *)
Definition new_object : M nat :=
  fun w => Return (fresh w) (set_fresh (S (fresh w)) w).

Definition setIsConnecting (b : bool) : M unit := modify (set_isConnecting b).
Definition setIsConnected (b : bool) : M unit := modify (set_isConnected b).
Definition setIsMuted (b : bool) : M unit := modify (set_isMuted b).

(* ===================================================================== *)
(** ** Platform calls of the overlay                                      *)
(* ===================================================================== *)

Definition is_SourceStart (s : nat) (e : Event) : bool :=
  match e with SourceStart n _ _ => Nat.eqb n s | _ => false end.
Definition is_SourceStop (s : nat) (e : Event) : bool :=
  match e with SourceStop n => Nat.eqb n s | _ => false end.
Definition is_ContextClose (s : nat) (e : Event) : bool :=
  match e with ContextClose n => Nat.eqb n s | _ => false end.
Definition is_SendRealtimeInput (e : Event) : bool :=
  match e with SendRealtimeInput _ _ => true | _ => false end.

(** How many calls of a kind a trace holds. *)
Definition count (p : Event -> bool) (tr : list Event) : nat :=
  length (List.filter p tr).

Definition started (s : nat) (tr : list Event) : bool :=
  existsb (is_SourceStart s) tr.

(** [new AudioContext({ sampleRate })] *)
Definition new_AudioContext (rate : Q) : M nat :=
  ctx <- new_object ;; emit (NewAudioContext ctx rate) ;; ret ctx.

(** [source.stop()]: an [InvalidStateError] on a source never started. *)
Definition source_stop (s : nat) : M unit :=
  tr <- get trace ;;
  if started s tr then emit (SourceStop s) else throw InvalidStateError.

(* ===================================================================== *)
(** ** Session lifecycle                                                  *)
(* ===================================================================== *)

(** [startSession] is asynchronous: it runs up to
    [await navigator.mediaDevices.getUserMedia] and is resumed by
    [startSession_resume] when that promise settles. *)
Inductive Progress : Type := Completed | AwaitingUserMedia.

Definition startSession (r : Render) (apiKey : option string) : M Progress :=
  if r_isConnecting r || r_isConnected r then ret Completed
  else
    setIsConnecting true ;;
    try_catch
      (match apiKey with
       | Some (String _ _) => ret tt
       | _ => throw (Error "No API Key")
       end ;;
       inputCtx <- new_AudioContext 16000 ;;
       modify (set_inputAudioContextRef (Some inputCtx)) ;;
       outputCtx <- new_AudioContext 24000 ;;
       modify (set_outputAudioContextRef (Some outputCtx)) ;;
       emit GetUserMedia ;;
       ret AwaitingUserMedia)
      (fun e =>
         setIsConnecting false ;;
         emit OverlayClose ;;
         ret Completed).

(** The rest of [startSession], once [getUserMedia] has settled: [denied]
    is the rejection, if any. *)
Definition startSession_resume (r : Render) (denied : option Exception) : M unit :=
  try_catch
    (match denied with Some e => throw e | None => ret tt end ;;
     stream <- new_object ;;
     modify (set_streamRef (Some stream)) ;;
     inputCtx <- get inputAudioContextRef ;;
     sessionPromise <- new_object ;;
     emit (LiveConnect {| env_render := r; env_stream := stream;
                          env_inputCtx := inputCtx;
                          env_sessionPromise := sessionPromise |}) ;;
     modify (set_sessionRef (Some sessionPromise)))
    (fun e =>
       setIsConnecting false ;;
       emit OverlayClose).

(** [sessionPromise.then(s => activeSessionRef.current = s)] *)
Definition session_resolved (s : nat) : M unit :=
  modify (set_activeSessionRef (Some s)).

(** [processor.onaudioprocess]: [isMuted] is the variable of the render
    whose [startSession] created this closure. *)
Definition onaudioprocess (env : SessionEnv) (inputData : list float) : M unit :=
  if r_isMuted (env_render env) then ret tt
  else
    let pcmBlob := createBlob inputData in
    emit (SendRealtimeInput (env_sessionPromise env) pcmBlob).

Definition onopen (env : SessionEnv) : M unit :=
  setIsConnected true ;;
  setIsConnecting false ;;
  match env_inputCtx env with
  | None => throw TypeError
  | Some inputCtx =>
      source <- new_object ;;
      emit (CreateMediaStreamSource source inputCtx (env_stream env)) ;;
      processor <- new_object ;;
      emit (CreateScriptProcessor processor inputCtx) ;;
      modify (fun w => set_onaudioprocess_handlers
                         (<[processor := env]> (onaudioprocess_handlers w)) w) ;;
      emit (NodeConnect source) ;;
      emit (NodeConnect processor) ;;
      modify (set_sourceRef (Some source)) ;;
      modify (set_processorRef (Some processor))
  end.

(** An inbound message: the Base64 audio of its first part, if any, and
    the [interrupted] flag of its server content. *)
Record LiveServerMessage : Type := {
  inlineData : option string;
  interrupted : bool
}.

(** [onmessage]; [currentTime] is what [ctx.currentTime] reads.  The first
    component computed says whether the handler is still running: it has
    left through [if (!ctx) return;] otherwise. *)
Definition onmessage (currentTime : Q) (msg : LiveServerMessage) : M unit :=
  running <-
    match inlineData msg with
    | Some (String _ _ as base64Audio) =>
        ctx <- get outputAudioContextRef ;;
        match ctx with
        | None => ret false
        | Some ctx =>
            audioBuffer <- lift (let! bytes := decode base64Audio in
                                 decodeAudioData bytes ctx 24000 1) ;;
            source <- new_object ;;
            emit (NodeConnect source) ;;
            nextStartTime <- get nextStartTimeRef ;;
            (if Qlt_le_dec nextStartTime currentTime
             then modify (set_nextStartTimeRef currentTime)
             else ret tt) ;;
            nextStartTime <- get nextStartTimeRef ;;
            emit (SourceStart source audioBuffer nextStartTime) ;;
            modify (set_nextStartTimeRef (nextStartTime + duration audioBuffer)%Q) ;;
            modify (fun w => set_audioSourcesRef ({[source]} ∪ audioSourcesRef w) w) ;;
            ret true
        end
    | _ => ret true
    end ;;
  if running && interrupted msg then
    sources <- get audioSourcesRef ;;
    forEach (elements sources) source_stop ;;
    modify (set_audioSourcesRef ∅) ;;
    modify (set_nextStartTimeRef 0%Q)
  else ret tt.

(** [source.onended] *)
Definition onended (source : nat) : M unit :=
  modify (fun w => set_audioSourcesRef (audioSourcesRef w ∖ {[source]}) w).

Definition onclose : M unit := setIsConnected false.
Definition onerror : M unit := setIsConnected false.

(** [if (ref.current) { release(ref.current); ref.current = null; }] *)
Definition release (ref : World -> option nat) (call : nat -> Event)
    (clear : World -> World) : M unit :=
  current <- get ref ;;
  match current with
  | Some x => emit (call x) ;; modify clear
  | None => ret tt
  end.

Definition stopSession : M unit :=
  (* if (activeSessionRef.current) { } : the block is empty *)
  release streamRef TrackStop (set_streamRef None) ;;
  release processorRef NodeDisconnect (set_processorRef None) ;;
  release sourceRef NodeDisconnect (set_sourceRef None) ;;
  release inputAudioContextRef ContextClose (set_inputAudioContextRef None) ;;
  release outputAudioContextRef ContextClose (set_outputAudioContextRef None) ;;
  sources <- get audioSourcesRef ;;
  forEach (elements sources)
    (fun s => try_catch (source_stop s) (fun e => ret tt)) ;;
  modify (set_audioSourcesRef ∅) ;;
  modify (set_nextStartTimeRef 0%Q) ;;
  setIsConnected false ;;
  setIsConnecting false.

(** The mute button: [onClick={() => setIsMuted(!isMuted)}]. *)
Definition toggleMute (r : Render) : M unit :=
  setIsMuted (negb (r_isMuted r)).

(** The platform delivering an [audioprocess] event to the handler
    installed on a script processor. *)
Definition audioprocess (processor : nat) (inputData : list float) : M unit :=
  handlers <- get onaudioprocess_handlers ;;
  match handlers !! processor with
  | Some env => onaudioprocess env inputData
  | None => ret tt
  end.

(** *** Runs of the overlay *)

Inductive Callback : Type :=
| CallStartSession (r : Render) (apiKey : option string)
| CallStartSessionResume (r : Render) (denied : option Exception)
| CallSessionResolved (s : nat)
| CallOnOpen (env : SessionEnv)
| CallAudioProcess (processor : nat) (inputData : list float)
| CallOnMessage (currentTime : Q) (msg : LiveServerMessage)
| CallOnEnded (source : nat)
| CallOnClose
| CallOnError
| CallStopSession
| CallToggleMute (r : Render).

Definition exec (c : Callback) : World -> World :=
  match c with
  | CallStartSession r apiKey => run (startSession r apiKey)
  | CallStartSessionResume r denied => run (startSession_resume r denied)
  | CallSessionResolved s => run (session_resolved s)
  | CallOnOpen env => run (onopen env)
  | CallAudioProcess processor inputData => run (audioprocess processor inputData)
  | CallOnMessage currentTime msg => run (onmessage currentTime msg)
  | CallOnEnded source => run (onended source)
  | CallOnClose => run onclose
  | CallOnError => run onerror
  | CallStopSession => run stopSession
  | CallToggleMute r => run (toggleMute r)
  end.

Definition initial_world (persona : VoicePersona) : World :=
  {| isConnecting := false; isConnected := false; isMuted := false;
     selectedPersona := persona;
     inputAudioContextRef := None; outputAudioContextRef := None;
     streamRef := None; processorRef := None; sourceRef := None;
     nextStartTimeRef := 0%Q; audioSourcesRef := ∅;
     sessionRef := None; activeSessionRef := None;
     onaudioprocess_handlers := ∅; fresh := 0%nat; trace := [] |}.

Definition exec_all (cs : list Callback) (w : World) : World :=
  fold_left (fun w c => exec c w) cs w.

(** The worlds the overlay can be in. *)
Definition reachable (w : World) : Prop :=
  exists persona cs, w = exec_all cs (initial_world persona).

(* ===================================================================== *)
(** ** Auxiliary definitions for the statements                           *)
(* ===================================================================== *)

Definition is_sextet (n : Z) : Prop := 0 <= n < 64.
Definition is_octet (n : Z) : Prop := 0 <= n < 256.

(** The sextets of a byte sequence, without padding. *)
Fixpoint sextets (l : list Z) : list Z :=
  match l with
  | [] => []
  | [a] => [a / 4; (a mod 4) * 16]
  | [a; b] => [a / 4; (a mod 4) * 16 + b / 16; (b mod 16) * 4]
  | a :: b :: c :: r =>
      a / 4 :: (a mod 4) * 16 + b / 16 :: (b mod 16) * 4 + c / 64 :: c mod 64
      :: sextets r
  end.

(** The channels [decodeAudioData] fills: sample [i] of a channel is read
    at index [i * numChannels + channel]. *)
Definition decoded_channels (a : list Z) (numChannels len : nat) : list (list float) :=
  map (fun channel =>
         map (fun i => read_scaled a (i * numChannels + channel)) (seq 0 len))
      (seq 0 numChannels).

(** The buffer length [createBuffer] is asked for. *)
Definition frames (n numChannels : nat) : nat :=
  Z.to_nat ((Z.of_nat n / Z.of_nat numChannels) mod 4294967296).

(** Rounding to the nearest integer, halves upward ([Math.round]): the
    conversion the specification names for outbound samples. *)
Definition round_half_up (q : Q) : Z := Qfloor (q + (1 # 2)).

(** The start time [onmessage] gives a chunk: the cursor, or the device
    time when the cursor lies behind it. *)
Definition start_time (currentTime cursor : Q) : Q :=
  if Qlt_le_dec cursor currentTime then currentTime else cursor.

(** The world after [onmessage] has scheduled a decoded chunk. *)
Definition after_chunk (currentTime : Q) (buffer : AudioBuffer) (w : World) : World :=
  let start := start_time currentTime (nextStartTimeRef w) in
  set_audioSourcesRef ({[fresh w]} ∪ audioSourcesRef w)
    (set_nextStartTimeRef (start + duration buffer)%Q
       (set_trace (trace w ++ [NodeConnect (fresh w);
                               SourceStart (fresh w) buffer start])
          (set_fresh (S (fresh w)) w))).

(** The interrupted branch of [onmessage]. *)
Definition flush : M unit :=
  sources <- get audioSourcesRef ;;
  forEach (elements sources) source_stop ;;
  modify (set_audioSourcesRef ∅) ;;
  modify (set_nextStartTimeRef 0%Q).

(** The world in which a message reaches the interrupted branch of
    [onmessage]: the world of the call when the message has no audio, the
    world after the chunk was scheduled when it has; none when the handler
    has left before, at [if (!ctx) return;] or by an exception of the
    decoder. *)
Definition at_interrupted_branch (currentTime : Q) (msg : LiveServerMessage)
    (w : World) : option World :=
  match inlineData msg with
  | Some (String c rest) =>
      match outputAudioContextRef w with
      | None => None
      | Some ctx =>
          match (let! bytes := decode (String c rest) in
                 decodeAudioData bytes ctx 24000 1) with
          | Ok buffer => Some (after_chunk currentTime buffer w)
          | Throw _ => None
          end
      end
  | _ => Some w
  end.

(** The calls a callback added to the trace. *)
Definition new_events (w w' : World) : list Event :=
  drop (length (trace w)) (trace w').

(** Start time and duration of the chunks scheduled in a trace, in order. *)
Definition scheduled (tr : list Event) : list (Q * Q) :=
  flat_map (fun e => match e with
                     | SourceStart _ buffer when => [(when, duration buffer)]
                     | _ => []
                     end) tr.

(** A message that carries a decodable audio chunk and no interruption. *)
Definition is_chunk (ctx : nat) (msg : LiveServerMessage) (buffer : AudioBuffer) : Prop :=
  interrupted msg = false
  /\ exists c rest,
       inlineData msg = Some (String c rest)
       /\ (let! bytes := decode (String c rest) in
           decodeAudioData bytes ctx 24000 1) = Ok buffer.

(** The release calls [stopSession] makes for the resources a world holds. *)
Definition release_events (w : World) : list Event :=
  match streamRef w with Some x => [TrackStop x] | None => [] end
  ++ match processorRef w with Some x => [NodeDisconnect x] | None => [] end
  ++ match sourceRef w with Some x => [NodeDisconnect x] | None => [] end
  ++ match inputAudioContextRef w with Some x => [ContextClose x] | None => [] end
  ++ match outputAudioContextRef w with Some x => [ContextClose x] | None => [] end.

(** The world [stopSession] leaves. *)
Definition stopped (w : World) : World :=
  {| isConnecting := false; isConnected := false; isMuted := isMuted w;
     selectedPersona := selectedPersona w;
     inputAudioContextRef := None; outputAudioContextRef := None;
     streamRef := None; processorRef := None; sourceRef := None;
     nextStartTimeRef := 0%Q; audioSourcesRef := ∅;
     sessionRef := sessionRef w; activeSessionRef := activeSessionRef w;
     onaudioprocess_handlers := onaudioprocess_handlers w;
     fresh := fresh w;
     trace := trace w ++ release_events w
              ++ map SourceStop
                   (List.filter (fun s => started s (trace w))
                                (elements (audioSourcesRef w))) |}.

(** Invariants of the reachable worlds: every source in the pending set
    has been started, and the refs name different objects. *)
Definition sources_started (w : World) : Prop :=
  forall s, s ∈ audioSourcesRef w -> started s (trace w) = true.

Definition refs_distinct (w : World) : Prop :=
  (forall a b, inputAudioContextRef w = Some a ->
               outputAudioContextRef w = Some b -> a <> b)
  /\ (forall a b, processorRef w = Some a -> sourceRef w = Some b -> a <> b).

Definition well_formed (w : World) : Prop :=
  sources_started w /\ refs_distinct w.

(** The schedule [onmessage] builds for chunks given by device time at
    arrival and duration, from a cursor. *)
Fixpoint plan (cursor : Q) (arrivals : list (Q * Q)) : list (Q * Q) :=
  match arrivals with
  | [] => []
  | (currentTime, d) :: rest =>
      let start := start_time currentTime cursor in
      (start, d) :: plan (start + d)%Q rest
  end.

(** An arrival: device time, message, and the buffer the message decodes to. *)
Definition Arrival : Type := (Q * LiveServerMessage * AudioBuffer)%type.
Definition arrival_time (a : Arrival) : Q := fst (fst a).
Definition arrival_message (a : Arrival) : LiveServerMessage := snd (fst a).
Definition arrival_buffer (a : Arrival) : AudioBuffer := snd a.

Definition deliver (arrivals : list Arrival) : list Callback :=
  map (fun a => CallOnMessage (arrival_time a) (arrival_message a)) arrivals.

(** *** A concrete run, for the examples

    The overlay opens with the first persona, the microphone is granted,
    the session opens, and two chunks of four samples arrive. *)

Definition demo_persona : VoicePersona :=
  {| voiceName := "Zephyr";
     systemInstruction := "You are a friendly, helpful, and concise AI assistant." |}.

Definition demo_render : Render := render (initial_world demo_persona).

Definition demo_env : SessionEnv :=
  {| env_render := demo_render; env_stream := 2; env_inputCtx := Some 0%nat;
     env_sessionPromise := 3 |}.

Definition demo_chunk : LiveServerMessage :=
  {| inlineData := Some "AEAAgACAAAA="%string; interrupted := false |}.

Definition demo_buffer : AudioBuffer :=
  {| numberOfChannels := 1; ab_length := 4; sampleRate := 24000;
     channels := [[Finite (16384 / 32768); Finite (-32768 / 32768);
                   Finite (-32768 / 32768); Finite (0 / 32768)]] |}.

Definition demo_open : list Callback :=
  [CallStartSession demo_render (Some "key"%string);
   CallStartSessionResume demo_render None;
   CallSessionResolved 3;
   CallOnOpen demo_env].

Definition demo_arrivals : list Arrival :=
  [(1 # 2, demo_chunk, demo_buffer); (1 # 2, demo_chunk, demo_buffer);
   (3 # 4, demo_chunk, demo_buffer)]%Q.

Definition demo_world : World :=
  exec_all (demo_open ++ deliver demo_arrivals) (initial_world demo_persona).

(** *** A second run: the overlay is closed while the microphone prompt
    is pending and opened again; then both prompts are granted. *)




(* ===================================================================== *)
(** ** The overlay's effect and persona menu                              *)
(* ===================================================================== *)






(** Further invariants of the reachable worlds: the pending sources are
    objects handed out earlier; without an output context nothing is
    pending and the cursor is at rest; the cursor is never negative. *)
Definition pending_known (w : World) : Prop :=
  forall s, s ∈ audioSourcesRef w -> (s < fresh w)%nat.

Definition idle_when_closed (w : World) : Prop :=
  outputAudioContextRef w = None ->
  audioSourcesRef w = ∅ /\ nextStartTimeRef w = 0%Q.

Definition tidy (w : World) : Prop :=
  pending_known w /\ idle_when_closed w /\ (0 <= nextStartTimeRef w)%Q.

(* ===================================================================== *)
(** * The chat                                                            *)
(* ===================================================================== *)

(** ** Strings

    A JavaScript string is a sequence of UTF-16 code units; [str] gives the
    string of a literal. *)

Definition jsstring : Type := list N.

Definition str (s : string) : jsstring := map N_of_ascii (list_ascii_of_string s).

(** A string is falsy when it is empty. *)
Definition truthy (s : jsstring) : bool :=
  match s with [] => false | _ :: _ => true end.

(** [a === b] on strings. *)
Definition same (a b : jsstring) : bool := bool_decide (a = b).

Fixpoint starts_with (needle s : jsstring) : bool :=
  match needle, s with
  | [], _ => true
  | _ :: _, [] => false
  | a :: needle', b :: s' => N.eqb a b && starts_with needle' s'
  end.

(** [s.includes(needle)] *)
Fixpoint includes (s needle : jsstring) : bool :=
  starts_with needle s
  || match s with
     | [] => false
     | _ :: s' => includes s' needle
     end.

(** The code units [trim] removes: the white space and the line
    terminators of ECMAScript. *)
Definition is_white_space (c : N) : bool :=
  ((9 <=? c) && (c <=? 13) || (c =? 32) || (c =? 160) || (c =? 5760)
   || (8192 <=? c) && (c <=? 8202) || (c =? 8232) || (c =? 8233) || (c =? 8239)
   || (c =? 8287) || (c =? 12288) || (c =? 65279))%N.

Fixpoint trimStart (s : jsstring) : jsstring :=
  match s with
  | [] => []
  | c :: s' => if is_white_space c then trimStart s' else s
  end.

Definition trimEnd (s : jsstring) : jsstring := rev (trimStart (rev s)).

(** [s.trim()] *)
Definition trim (s : jsstring) : jsstring := trimEnd (trimStart s).

(** ** Messages and sessions ([types.ts]) *)

Inductive Role : Type := User | Model.

Module Message.
Record t : Type := {
  id : jsstring;
  role : Role;
  content : jsstring;
  timestamp : Z;
  isStreaming : option bool;
  isError : option bool;
  errorMessage : option jsstring;
  groundingMetadata : option nat
}.
End Message.

Module ChatSession.
Record t : Type := {
  id : jsstring;
  title : jsstring;
  messages : list Message.t;
  updatedAt : Z
}.
End ChatSession.

(** ** The service ([geminiService])

    Errors are modelled by their message, the only part of them the
    application reads. *)

(** [getUserFriendlyErrorMessage], given [error.message]. *)
Definition getUserFriendlyErrorMessage (msg : jsstring) : jsstring :=
  if includes msg (str "429") || includes msg (str "Quota exceeded")
     || includes msg (str "Resource has been exhausted")
  then str "You've reached the request limit for the API key. Please wait a moment or check your quota."
  else if includes msg (str "401") || includes msg (str "403")
          || includes msg (str "API key")
  then str "Authentication failed. Please check your API key settings."
  else if includes msg (str "503") || includes msg (str "Overloaded")
  then str "The model is currently overloaded. Please try again later."
  else if includes msg (str "SAFETY") || includes msg (str "blocked")
  then str "The response was blocked due to safety settings."
  else if includes msg (str "fetch failed") || includes msg (str "NetworkError")
          || includes msg (str "Failed to fetch")
  then str "Network error. Please check your internet connection."
  else if truthy msg then msg
  else str "An unexpected error occurred. Please try again.".

(** [formatHistory] *)
Definition formatHistory (messages : list Message.t) : list (jsstring * jsstring) :=
  map (fun msg => (match Message.role msg with
                   | User => str "user"
                   | Model => str "model"
                   end, Message.content msg)) messages.

(** A chunk of the response stream: [c.text],
    [c.candidates?.[0]?.groundingMetadata] (an object, here a number that
    names it) and [c.candidates?.[0]?.finishReason]. *)
Record Chunk : Type := {
  text : option jsstring;
  metadata : option nat;
  finishReason : option jsstring
}.

(** What the API answers to a request: the chunks the stream yields, and
    the message of the error it then fails with, if it fails.  A request
    that is rejected at once is a stream without chunks that fails. *)
Record Stream : Type := {
  chunks : list Chunk;
  failure : option jsstring
}.

(** How an asynchronous call settles. *)
Inductive Settled (A : Type) : Type :=
| Fulfilled (a : A)
| Rejected (message : jsstring).
Arguments Fulfilled {A} a.
Arguments Rejected {A} message.

(** [!text && finishReason && finishReason !== 'STOP'] *)
Definition blocked (c : Chunk) : option jsstring :=
  match text c, finishReason c with
  | Some (_ :: _), _ => None
  | _, Some reason =>
      if truthy reason && negb (same reason (str "STOP")) then Some reason else None
  | _, None => None
  end.

(** The loop [for await (const chunk of resultStream)] of
    [streamChatResponse]; [onChunk] acts on the state [S] of the caller. *)
Fixpoint for_await {S : Type} (cs : list Chunk) (failed : option jsstring)
    (fullText : jsstring) (onChunk : jsstring -> option nat -> S -> S) (s : S)
  : Settled jsstring * S :=
  match cs with
  | [] =>
      match failed with
      | Some e => (Rejected e, s)
      | None => (Fulfilled fullText, s)
      end
  | c :: rest =>
      match blocked c with
      | Some reason => (Rejected (str "Response blocked due to " ++ reason), s)
      | None =>
          let fullText :=
            match text c with
            | Some ((_ :: _) as t) => fullText ++ t
            | _ => fullText
            end in
          for_await rest failed fullText onChunk
            (onChunk (default [] (text c)) (metadata c) s)
      end
  end.

(** [streamChatResponse]: [history] and [newMessage] go to the API, whose
    answer is [stream]. *)
Definition streamChatResponse {S : Type} (history : list Message.t)
    (newMessage : jsstring) (stream : Stream)
    (onChunk : jsstring -> option nat -> S -> S) (s : S) : Settled jsstring * S :=
  for_await (chunks stream) (failure stream) [] onChunk s.

(** The answer to the title request: the call fails, or it responds with a
    text or without one. *)
Inductive TitleResponse : Type :=
| TitleFailed
| TitleText (text : option jsstring).

(** [generateChatTitle]: [response.text?.trim() || 'New Chat'], and
    ['New Chat'] when the call fails. *)
Definition generateChatTitle (response : TitleResponse) : jsstring :=
  match response with
  | TitleText (Some t) => if truthy (trim t) then trim t else str "New Chat"
  | _ => str "New Chat"
  end.

(** ** The application ([App.tsx])

    The state of [App] that the chat handlers read and write.  A handler
    is a closure of one render: it reads [sessions], [currentSessionId]
    and [isStreaming] as that render saw them (its first argument [r]),
    and its updates, functional or not, act on the state at the time they
    are applied. *)
Record App : Type := {
  sessions : list ChatSession.t;
  currentSessionId : option jsstring;
  isStreaming : bool;
  isSidebarOpen : bool
}.

Definition setSessions (f : list ChatSession.t -> list ChatSession.t) (a : App) : App :=
  {| sessions := f (sessions a); currentSessionId := currentSessionId a;
     isStreaming := isStreaming a; isSidebarOpen := isSidebarOpen a |}.

Definition setCurrentSessionId (v : option jsstring) (a : App) : App :=
  {| sessions := sessions a; currentSessionId := v;
     isStreaming := isStreaming a; isSidebarOpen := isSidebarOpen a |}.

Definition setIsStreaming (v : bool) (a : App) : App :=
  {| sessions := sessions a; currentSessionId := currentSessionId a;
     isStreaming := v; isSidebarOpen := isSidebarOpen a |}.

Definition setIsSidebarOpen (v : bool) (a : App) : App :=
  {| sessions := sessions a; currentSessionId := currentSessionId a;
     isStreaming := isStreaming a; isSidebarOpen := v |}.

(** [sessions.find(s => s.id === id)] *)
Definition find_session (id : jsstring) (l : list ChatSession.t) : option ChatSession.t :=
  List.find (fun s => same (ChatSession.id s) id) l.

(** [createNewChat]; [newId] is what [uuidv4()] returns, [now] what
    [Date.now()] returns. *)
Definition createNewChat (newId : jsstring) (now : Z) (a : App) : App :=
  let newSession :=
    {| ChatSession.id := newId; ChatSession.title := str "New Chat";
       ChatSession.messages := []; ChatSession.updatedAt := now |} in
  setIsSidebarOpen false
    (setCurrentSessionId (Some newId)
       (setSessions (fun prev => newSession :: prev) a)).

(** [handleDeleteChat]; the second component says whether
    [setTimeout(createNewChat, 0)] was called. *)
Definition handleDeleteChat (r : App) (id : jsstring) (a : App) : App * bool :=
  let a := setSessions
             (fun prev => List.filter (fun s => negb (same (ChatSession.id s) id)) prev) a in
  match currentSessionId r with
  | Some current =>
      if same current id then
        let a := setCurrentSessionId None a in
        if (length (sessions r) <=? 1)%nat then (a, true)
        else
          match List.find (fun s => negb (same (ChatSession.id s) id)) (sessions r) with
          | Some next => (setCurrentSessionId (Some (ChatSession.id next)) a, false)
          | None => (a, false)
          end
      else (a, false)
  | None => (a, false)
  end.

(** [!currentSessionId]: there is no current session, or its id is the
    empty string. *)
Definition current_session (r : App) : option jsstring :=
  match currentSessionId r with
  | Some ((_ :: _) as current) => Some current
  | _ => None
  end.

(** [prev.map(session => session.id === sessionId ? f(session) : session)] *)
Definition map_session (sessionId : jsstring) (f : ChatSession.t -> ChatSession.t)
    (prev : list ChatSession.t) : list ChatSession.t :=
  map (fun session => if same (ChatSession.id session) sessionId then f session
                      else session) prev.

(** [messages.map(msg => msg.id === messageId ? f(msg) : msg)] *)
Definition map_message (messageId : jsstring) (f : Message.t -> Message.t)
    (l : list Message.t) : list Message.t :=
  map (fun msg => if same (Message.id msg) messageId then f msg else msg) l.

Definition with_messages (f : list Message.t -> list Message.t) (session : ChatSession.t)
  : ChatSession.t :=
  {| ChatSession.id := ChatSession.id session;
     ChatSession.title := ChatSession.title session;
     ChatSession.messages := f (ChatSession.messages session);
     ChatSession.updatedAt := ChatSession.updatedAt session |}.

Definition with_updatedAt (now : Z) (session : ChatSession.t) : ChatSession.t :=
  {| ChatSession.id := ChatSession.id session;
     ChatSession.title := ChatSession.title session;
     ChatSession.messages := ChatSession.messages session;
     ChatSession.updatedAt := now |}.

(** The updates of a message that [generateAIResponse] makes. *)
Definition with_content (fullResponseText : jsstring) (metadata : option nat)
    (msg : Message.t) : Message.t :=
  {| Message.id := Message.id msg; Message.role := Message.role msg;
     Message.content := fullResponseText;
     Message.timestamp := Message.timestamp msg;
     Message.isStreaming := Message.isStreaming msg;
     Message.isError := Message.isError msg;
     Message.errorMessage := Message.errorMessage msg;
     Message.groundingMetadata :=
       match metadata with
       | Some m => Some m
       | None => Message.groundingMetadata msg
       end |}.

Definition finished (msg : Message.t) : Message.t :=
  {| Message.id := Message.id msg; Message.role := Message.role msg;
     Message.content := Message.content msg;
     Message.timestamp := Message.timestamp msg;
     Message.isStreaming := Some false;
     Message.isError := Message.isError msg;
     Message.errorMessage := Message.errorMessage msg;
     Message.groundingMetadata := Message.groundingMetadata msg |}.

Definition failed_with (friendlyError : jsstring) (msg : Message.t) : Message.t :=
  {| Message.id := Message.id msg; Message.role := Message.role msg;
     Message.content := Message.content msg;
     Message.timestamp := Message.timestamp msg;
     Message.isStreaming := Some false;
     Message.isError := Some true;
     Message.errorMessage := Some friendlyError;
     Message.groundingMetadata := Message.groundingMetadata msg |}.

(** The callback [generateAIResponse] passes to [streamChatResponse]; its
    state is the state of [App] and the variable [fullResponseText]. *)
Definition onChunk (sessionId botMessageId : jsstring) (chunkText : jsstring)
    (metadata : option nat) (s : App * jsstring) : App * jsstring :=
  let fullResponseText := snd s ++ chunkText in
  (setSessions
     (map_session sessionId
        (with_messages (map_message botMessageId (with_content fullResponseText metadata))))
     (fst s),
   fullResponseText).

(** The title requests the final update makes: one for each session it
    updates that then has two messages. *)
Definition title_requests (sessionId : jsstring) (prev : list ChatSession.t) : nat :=
  length (List.filter (fun session =>
                         same (ChatSession.id session) sessionId
                         && (length (ChatSession.messages session) =? 2)%nat) prev).

(** [generateAIResponse], run with no other update in between;
    [botMessageId] is what [uuidv4()] returns, [now] and [later] what
    [Date.now()] returns for the placeholder and in the final update.  The
    result holds the request made to the API, if one was made, and the
    number of title requests. *)
Definition generateAIResponse (sessionId : jsstring) (currentHistory : list Message.t)
    (botMessageId : jsstring) (now later : Z) (stream : Stream) (a : App)
  : App * option (list (jsstring * jsstring) * jsstring) * nat :=
  let a := setIsStreaming true a in
  let botMessage :=
    {| Message.id := botMessageId; Message.role := Model; Message.content := [];
       Message.timestamp := now; Message.isStreaming := Some true;
       Message.isError := None; Message.errorMessage := None;
       Message.groundingMetadata := None |} in
  let a := setSessions
             (map_session sessionId (with_messages (fun l => l ++ [botMessage]))) a in
  let historyForApi := removelast currentHistory in
  let '(settled, (a, _), request) :=
    match last currentHistory with
    | None => (Rejected (str "No user message to respond to."), (a, []), None)
    | Some lastUserMessage =>
        (streamChatResponse historyForApi (Message.content lastUserMessage) stream
           (onChunk sessionId botMessageId) (a, []),
         Some (formatHistory historyForApi, Message.content lastUserMessage))
    end in
  let '(a, titles) :=
    match settled with
    | Fulfilled _ =>
        (setSessions
           (map_session sessionId
              (fun session =>
                 with_updatedAt later
                   (with_messages (map_message botMessageId finished) session))) a,
         title_requests sessionId (sessions a))
    | Rejected message =>
        let friendlyError := getUserFriendlyErrorMessage message in
        (setSessions
           (map_session sessionId
              (with_messages (map_message botMessageId (failed_with friendlyError)))) a,
         0%nat)
    end in
  (setIsStreaming false a, request, titles).

(** [messages.findIndex(m => m.id === messageId)] *)
Fixpoint findIndex (messageId : jsstring) (l : list Message.t) : option nat :=
  match l with
  | [] => None
  | m :: rest =>
      if same (Message.id m) messageId then Some 0%nat
      else option_map S (findIndex messageId rest)
  end.

(** [handleEditMessage] up to its call of [generateAIResponse], whose
    arguments are the second component; [newId] is what [uuidv4()]
    returns, [now] what [Date.now()] returns for the new message and
    [updated] what it returns inside the update of the sessions. *)
Definition handleEditMessage (r : App) (messageId newContent : jsstring)
    (newId : jsstring) (now updated : Z) (a : App)
  : App * option (jsstring * list Message.t) :=
  match current_session r with
  | None => (a, None)
  | Some current =>
      if isStreaming r then (a, None)
      else
        match find_session current (sessions r) with
        | None => (a, None)
        | Some session =>
            match findIndex messageId (ChatSession.messages session) with
            | None => (a, None)
            | Some msgIndex =>
                let truncatedHistory := take msgIndex (ChatSession.messages session) in
                let newMsg :=
                  {| Message.id := newId; Message.role := User;
                     Message.content := newContent; Message.timestamp := now;
                     Message.isStreaming := None; Message.isError := None;
                     Message.errorMessage := None;
                     Message.groundingMetadata := None |} in
                let newHistory := truncatedHistory ++ [newMsg] in
                (setSessions
                   (map_session current
                      (fun s =>
                         with_updatedAt updated (with_messages (fun _ => newHistory) s)))
                   a,
                 Some (current, newHistory))
            end
        end
  end.

(** ** The input area and the message bubble *)

(** [handleSend] of [InputArea]: the call of [onSend], if it is made, and
    the input afterwards. *)
Definition handleSend (input : jsstring) (disabled streaming : bool)
  : option jsstring * jsstring :=
  if truthy (trim input) && negb disabled && negb streaming
  then (Some (trim input), [])
  else (None, input).

(** [handleSaveEdit] of [MessageBubble]: the call of [onEdit], if it is
    made; [onEdit] says whether the prop is defined. *)
Definition handleSaveEdit (message : Message.t) (onEdit : bool) (editContent : jsstring)
  : option (jsstring * jsstring) :=
  if negb (same (trim editContent) (Message.content message)) && onEdit
  then Some (Message.id message, editContent)
  else None.

(** ** Auxiliary definitions for the statements about the chat *)

(** A string without white space at either end. *)
Definition trimmed (s : jsstring) : Prop :=
  (forall c, head s = Some c -> is_white_space c = false)
  /\ (forall c, last s = Some c -> is_white_space c = false).

Definition blank (s : jsstring) : Prop := Forall (fun c => is_white_space c = true) s.

(** The needles [getUserFriendlyErrorMessage] looks for before it looks
    for a blocked response. *)
Definition earlier_needles : list jsstring :=
  [str "429"; str "Quota exceeded"; str "Resource has been exhausted";
   str "401"; str "403"; str "API key"; str "503"; str "Overloaded"].

(** What the chunks of a stream pass to the callback, and the text they
    add up to. *)
Definition chunk_text (c : Chunk) : jsstring := default [] (text c).

Definition texts (cs : list Chunk) : jsstring := concat (map chunk_text cs).

Definition deliver_chunks {S : Type} (onChunk : jsstring -> option nat -> S -> S)
    (cs : list Chunk) (s : S) : S :=
  fold_left (fun s c => onChunk (chunk_text c) (metadata c) s) cs s.

(** The grounding metadata a message holds after the chunks: that of the
    last chunk that had any. *)
Definition last_metadata (cs : list Chunk) (before : option nat) : option nat :=
  fold_left (fun md c => match metadata c with Some m => Some m | None => md end)
            cs before.

Definition session_ids (a : App) : list jsstring := map ChatSession.id (sessions a).

(** The current session exists, and no two sessions share an id. *)
Definition current_exists (a : App) : Prop :=
  NoDup (session_ids a)
  /\ exists current, currentSessionId a = Some current /\ current ∈ session_ids a.

(** Deleting a chat from the sidebar, with the render in step with the
    state, and the deferred [createNewChat] when it was asked for. *)
Definition delete_chat (id newId : jsstring) (now : Z) (a : App) : App :=
  let '(a', deferred) := handleDeleteChat a id a in
  if deferred then createNewChat newId now a' else a'.

(** The message [generateAIResponse] adds to the session, as it stands
    with a given content, metadata and end. *)
Definition bot_message (botMessageId : jsstring) (now : Z) (content : jsstring)
    (metadata : option nat) (streaming : bool) (error : option jsstring) : Message.t :=
  {| Message.id := botMessageId; Message.role := Model; Message.content := content;
     Message.timestamp := now; Message.isStreaming := Some streaming;
     Message.isError := match error with Some _ => Some true | None => None end;
     Message.errorMessage := error; Message.groundingMetadata := metadata |}.

(** No message of the state has the id. *)
Definition fresh_message_id (messageId : jsstring) (a : App) : Prop :=
  Forall (fun session =>
            Forall (fun msg => Message.id msg <> messageId) (ChatSession.messages session))
         (sessions a).

(** What [generateAIResponse] keeps of a session [s] in the session [s']
    it makes of it: the id and the title; the whole session when it is not
    the one responded in, and one message more when it is. *)
Definition session_kept (sessionId : jsstring) (s s' : ChatSession.t) : Prop :=
  ChatSession.id s' = ChatSession.id s
  /\ ChatSession.title s' = ChatSession.title s
  /\ (ChatSession.id s <> sessionId -> s' = s)
  /\ (ChatSession.id s = sessionId ->
      length (ChatSession.messages s') = S (length (ChatSession.messages s))).

(** *** A concrete chat, for the examples *)

Definition demo_user_message : Message.t :=
  {| Message.id := str "u1"; Message.role := User; Message.content := str "hi";
     Message.timestamp := 1; Message.isStreaming := None; Message.isError := None;
     Message.errorMessage := None; Message.groundingMetadata := None |}.

Definition demo_reply : Message.t :=
  {| Message.id := str "b0"; Message.role := Model; Message.content := str "Hello";
     Message.timestamp := 2; Message.isStreaming := Some false; Message.isError := None;
     Message.errorMessage := None; Message.groundingMetadata := None |}.

Definition demo_app : App :=
  {| sessions := [ {| ChatSession.id := str "s1"; ChatSession.title := str "New Chat";
                      ChatSession.messages := [demo_user_message];
                      ChatSession.updatedAt := 1 |};
                   {| ChatSession.id := str "s2"; ChatSession.title := str "Older";
                      ChatSession.messages := [demo_user_message; demo_reply];
                      ChatSession.updatedAt := 0 |} ];
     currentSessionId := Some (str "s1");
     isStreaming := false; isSidebarOpen := false |}.

Definition demo_stream : Stream :=
  {| chunks := [ {| text := Some (str "Hel"); metadata := None; finishReason := None |};
                 {| text := None; metadata := Some 7%nat; finishReason := None |};
                 {| text := Some (str "lo"); metadata := None;
                    finishReason := Some (str "STOP") |} ];
     failure := None |}.


(* ===================================================================== *)
(** * Properties                                                          *)
(* ===================================================================== *)

(** ** Sanity checks of the embedding *)

Example btoa_Man : btoa "Man" = "TWFu"%string.
Proof. reflexivity. Qed.
Example btoa_Ma : btoa "Ma" = "TWE="%string.
Proof. reflexivity. Qed.
Example atob_TWE : atob "TWE=" = Ok "Ma"%string.
Proof. reflexivity. Qed.
Example atob_ws : atob " " = Ok EmptyString.
Proof. reflexivity. Qed.
Example atob_bad : atob "A" = Throw InvalidCharacterError.
Proof. reflexivity. Qed.
Example createBlob_ex :
  createBlob [Finite (1#2); Finite (-1); Finite 1; Finite (3 # 131072)]
  = {| data := "AEAAgACAAAA="; mimeType := "audio/pcm;rate=16000" |}.
Proof. vm_compute. reflexivity. Qed.
Example decodeAudioData_ex :
  decodeAudioData [x00; x40; x00; x80; xff; x7f; x01; x00] 0%nat 24000 1
  = Ok {| numberOfChannels := 1; ab_length := 4; sampleRate := 24000;
          channels := [[Finite (16384 / 32768); Finite (-32768 / 32768);
                        Finite (32767 / 32768); Finite (1 / 32768)]] |}.
Proof. reflexivity. Qed.
Example decodeAudioData_odd :
  decodeAudioData [x00; x40; x00] 0%nat 24000 1 = Throw RangeError.
Proof. reflexivity. Qed.
Example decodeAudioData_empty :
  decodeAudioData [] 0%nat 24000 1 = Throw NotSupportedError.
Proof. reflexivity. Qed.
Example decodeAudioData_six_bytes_two_channels :
  decodeAudioData [x00; x40; x00; x80; xff; x7f] 0%nat 24000 2
  = Ok {| numberOfChannels := 2; ab_length := 1; sampleRate := 24000;
          channels := [[Finite (16384 / 32768)]; [Finite (-32768 / 32768)]] |}.
Proof. reflexivity. Qed.

(* ===================================================================== *)
(** ** Bytes and 16-bit integers                                          *)
(* ===================================================================== *)

Lemma byte_to_Z_range (b : byte) : 0 <= byte_to_Z b < 256.
Proof.
  unfold byte_to_Z. pose proof (Byte.to_N_bounded b). lia.
Qed.

Lemma byte_of_to_Z (b : byte) : byte_of_Z (byte_to_Z b) = b.
Proof.
  unfold byte_of_Z. pose proof (byte_to_Z_range b) as Hb.
  rewrite Z.mod_small by lia. unfold byte_to_Z.
  rewrite N2Z.id, Byte.of_to_N. reflexivity.
Qed.

Lemma byte_to_of_Z (z : Z) : 0 <= z < 256 -> byte_to_Z (byte_of_Z z) = z.
Proof.
  intros Hz. unfold byte_of_Z, byte_to_Z. rewrite Z.mod_small by lia.
  destruct (Byte.of_N (Z.to_N z)) as [b|] eqn:E.
  - apply Byte.to_of_N in E. rewrite E. lia.
  - apply Byte.of_N_None_iff in E. lia.
Qed.

Ltac zmod := unfold wrap16 in *; repeat case_match; Z.div_mod_to_equations; lia.

Lemma wrap16_range (n : Z) : -32768 <= wrap16 n <= 32767.
Proof. zmod. Qed.

Lemma wrap16_small (n : Z) : -32768 <= n <= 32767 -> wrap16 n = n.
Proof. zmod. Qed.

Lemma wrap16_mod (n : Z) : wrap16 n mod 65536 = n mod 65536.
Proof. zmod. Qed.

Lemma int16_of_bytes_of (v : Z) :
  -32768 <= v <= 32767 ->
  int16_view (int16_bytes v) = [v].
Proof.
  intros Hv. unfold int16_bytes. cbn [int16_view]. f_equal.
  unfold int16_of_bytes.
  pose proof (Z.mod_pos_bound v 65536 ltac:(lia)) as Hu.
  rewrite !byte_to_of_Z.
  - zmod.
  - split; [apply Z.div_pos; lia | apply Z.div_lt_upper_bound; lia].
  - apply Z.mod_pos_bound. lia.
Qed.

Lemma int16_view_buffer (a : list Z) :
  Forall (fun v => -32768 <= v <= 32767) a ->
  int16_view (Int16Array_buffer a) = a.
Proof.
  induction 1 as [|v a Hv Ha IH]; [reflexivity|].
  unfold Int16Array_buffer in *. cbn [flat_map].
  unfold int16_bytes at 1. cbn [app int16_view]. rewrite IH. f_equal.
  pose proof (int16_of_bytes_of v Hv) as H1. unfold int16_bytes in H1.
  cbn [int16_view] in H1. congruence.
Qed.

Lemma length_Int16Array_buffer (a : list Z) :
  length (Int16Array_buffer a) = (2 * length a)%nat.
Proof.
  induction a as [|v a IH]; [reflexivity|].
  unfold Int16Array_buffer in *. cbn [flat_map]. rewrite length_app, IH.
  cbn. lia.
Qed.

(* ===================================================================== *)
(** ** Base64: [atob] undoes [btoa]                                      *)
(* ===================================================================== *)

Lemma list_ind3 {A} (P : list A -> Prop) :
  P [] -> (forall a, P [a]) -> (forall a b, P [a; b]) ->
  (forall a b c r, P r -> P (a :: b :: c :: r)) ->
  forall l, P l.
Proof.
  intros H0 H1 H2 H3.
  fix IH 1. intros [|a [|b [|c r]]]; [exact H0 | apply H1 | apply H2 | apply H3, IH].
Qed.

Lemma base64_char_spec (n : Z) :
  is_sextet n ->
  base64_value (base64_char n) = Some n
  /\ is_ascii_whitespace (base64_char n) = false
  /\ is_pad (base64_char n) = false.
Proof.
  intros Hn. unfold is_sextet in Hn.
  rewrite <- (Z2Nat.id n) by lia.
  assert (Hk : (Z.to_nat n < 64)%nat) by lia.
  generalize dependent (Z.to_nat n). clear Hn. intros k Hk.
  do 64 (destruct k as [|k]; [repeat split; reflexivity|]). lia.
Qed.

Ltac octets :=
  repeat match goal with
         | H : Forall _ (_ :: _) |- _ => inversion H; subst; clear H
         | H : Forall _ [] |- _ => clear H
         end;
  unfold is_octet, is_sextet in *.

Lemma sextets_range (l : list Z) :
  Forall is_octet l -> Forall is_sextet (sextets l).
Proof.
  induction l as [| a | a b | a b c r IH] using list_ind3; intros H; octets;
    cbn [sextets]; repeat constructor; try (Z.div_mod_to_equations; lia).
  apply IH. assumption.
Qed.

Lemma base64_decode_sextets (l : list Z) :
  Forall is_octet l -> base64_decode (sextets l) = l.
Proof.
  induction l as [| a | a b | a b c r IH] using list_ind3; intros H; octets;
    cbn [sextets base64_decode]; repeat f_equal;
      try (Z.div_mod_to_equations; lia).
  apply IH. assumption.
Qed.

Lemma length_sextets_mod4 (l : list Z) : (length (sextets l) mod 4 <> 1)%nat.
Proof.
  induction l as [| a | a b | a b c r IH] using list_ind3; cbn [sextets length];
    try (cbn; lia).
  replace (S (S (S (S (length (sextets r)))))) with (length (sextets r) + 1 * 4)%nat by lia.
  rewrite Nat.Div0.mod_add. exact IH.
Qed.

Lemma length_base64_encode (l : list Z) : (length (base64_encode l) mod 4 = 0)%nat.
Proof.
  induction l as [| a | a b | a b c r IH] using list_ind3; cbn [base64_encode length];
    try reflexivity.
  replace (S (S (S (S (length (base64_encode r)))))) with (length (base64_encode r) + 1 * 4)%nat by lia.
  rewrite Nat.Div0.mod_add. exact IH.
Qed.

Lemma base64_encode_long (l : list Z) : l <> [] -> (2 <= length (base64_encode l))%nat.
Proof.
  destruct l as [|a [|b [|c r]]]; cbn [base64_encode length]; intros; try congruence; lia.
Qed.

Lemma strip_padding_cons (x : ascii) (l : list ascii) :
  (2 <= length l)%nat -> strip_padding (x :: l) = x :: strip_padding l.
Proof.
  destruct l as [|y [|z l]]; cbn [length]; intros; try lia. reflexivity.
Qed.

Lemma strip_padding_encode (l : list Z) :
  Forall is_octet l ->
  strip_padding (base64_encode l) = map base64_char (sextets l).
Proof.
  induction l as [| a | a b | a b c r IH] using list_ind3; intros H.
  - reflexivity.
  - cbn [base64_encode sextets map].
    rewrite !strip_padding_cons by (cbn; lia). reflexivity.
  - octets. cbn [base64_encode sextets map].
    rewrite !strip_padding_cons by (cbn; lia).
    cbn [strip_padding].
    assert (Hs : is_sextet (b mod 16 * 4)) by (unfold is_sextet; Z.div_mod_to_equations; lia).
    destruct (base64_char_spec _ Hs) as (_ & _ & Hp).
    replace (is_pad pad) with true by reflexivity. rewrite Hp. reflexivity.
  - octets. cbn [base64_encode sextets map].
    assert (Hs3 : is_sextet (b mod 16 * 4 + c / 64)) by (unfold is_sextet; Z.div_mod_to_equations; lia).
    assert (Hs4 : is_sextet (c mod 64)) by (unfold is_sextet; Z.div_mod_to_equations; lia).
    destruct (base64_char_spec _ Hs3) as (_ & _ & Hp3).
    destruct (base64_char_spec _ Hs4) as (_ & _ & Hp4).
    rewrite !strip_padding_cons by (cbn [length]; lia).
    destruct r as [|a' r'].
    + cbn [base64_encode sextets map strip_padding]. rewrite Hp4. reflexivity.
    + rewrite !strip_padding_cons
        by (cbn [length]; pose proof (base64_encode_long (a' :: r') ltac:(congruence)); lia).
      rewrite IH by assumption. reflexivity.
Qed.

Lemma filter_whitespace_encode (l : list Z) :
  Forall is_octet l ->
  List.filter (fun c => negb (is_ascii_whitespace c)) (base64_encode l)
  = base64_encode l.
Proof.
  assert (Hc : forall n, is_sextet n -> negb (is_ascii_whitespace (base64_char n)) = true).
  { intros n Hn. destruct (base64_char_spec n Hn) as (_ & Hw & _). rewrite Hw. reflexivity. }
  induction l as [| a | a b | a b c r IH] using list_ind3; intros H; octets;
    cbn [base64_encode List.filter]; try reflexivity;
    rewrite !Hc by (unfold is_sextet; Z.div_mod_to_equations; lia).
  - reflexivity.
  - reflexivity.
  - rewrite IH by assumption. reflexivity.
Qed.

Lemma base64_values_chars (l : list Z) :
  Forall is_sextet l -> base64_values (map base64_char l) = Some l.
Proof.
  induction 1 as [|n l Hn Hl IH]; [reflexivity|].
  cbn [map base64_values]. destruct (base64_char_spec n Hn) as (Hv & _ & _).
  rewrite Hv, IH. reflexivity.
Qed.

Lemma char_code_range (c : ascii) : is_octet (char_code c).
Proof.
  unfold is_octet, char_code. pose proof (N_ascii_bounded c). lia.
Qed.

Lemma fromCharCode_char_code (c : ascii) : fromCharCode (char_code c) = c.
Proof.
  unfold fromCharCode. pose proof (char_code_range c) as H. unfold is_octet in H.
  rewrite Z.mod_small by lia. unfold char_code. rewrite N2Z.id.
  apply ascii_N_embedding.
Qed.

(** [atob] undoes [btoa]. *)
Lemma atob_btoa (s : string) : atob (btoa s) = Ok s.
Proof.
  unfold atob, btoa. rewrite list_ascii_of_string_of_list_ascii.
  set (l := map char_code (list_ascii_of_string s)).
  assert (Hl : Forall is_octet l).
  { unfold l. apply List.Forall_forall. intros x Hx. apply List.in_map_iff in Hx.
    destruct Hx as (c & <- & _). apply char_code_range. }
  rewrite filter_whitespace_encode by assumption.
  rewrite length_base64_encode. cbn [Nat.eqb].
  rewrite strip_padding_encode by assumption.
  rewrite length_map.
  destruct (length (sextets l) mod 4 =? 1)%nat eqn:E.
  { apply Nat.eqb_eq in E. exfalso. exact (length_sextets_mod4 l E). }
  rewrite base64_values_chars by (apply sextets_range; assumption).
  rewrite base64_decode_sextets by assumption.
  unfold l. rewrite map_map.
  rewrite (map_ext _ (fun c => c) fromCharCode_char_code), map_id.
  rewrite string_of_list_ascii_of_string. reflexivity.
Qed.

Lemma decode_createBlob (samples : list float) :
  decode (data (createBlob samples))
  = Ok (Int16Array_buffer (map (fun x => ToInt16 (float_scale 32768 x)) samples)).
Proof.
  unfold decode, createBlob. cbn [data]. rewrite atob_btoa. cbn [result_bind].
  rewrite list_ascii_of_string_of_list_ascii, map_map.
  rewrite (map_ext _ (fun b => b) byte_of_ascii_of_byte), map_id. reflexivity.
Qed.

(* ===================================================================== *)
(** ** The loops of [decodeAudioData]                                    *)
(* ===================================================================== *)

Lemma for_loop_S {S : Type} (n : nat) (body : nat -> S -> S) (s : S) :
  for_loop (Datatypes.S n) body s = body n (for_loop n body s).
Proof.
  unfold for_loop. rewrite seq_S, fold_left_app. reflexivity.
Qed.

(** A loop storing [f i] at index [i] fills the array from the left. *)
Lemma for_loop_store {A} (f : nat -> A) (init : list A) (m : nat) :
  for_loop m (fun i cd => <[i := f i]> cd) init
  = map f (seq 0 (min m (length init))) ++ drop (min m (length init)) init.
Proof.
  induction m as [|m IH]; [reflexivity|].
  rewrite for_loop_S, IH.
  destruct (Nat.lt_ge_cases m (length init)) as [Hlt|Hge].
  - rewrite !Nat.min_l by lia.
    destruct (lookup_lt_is_Some_2 init m Hlt) as [x Hx].
    rewrite (drop_S _ _ _ Hx).
    rewrite insert_app_r_alt by (rewrite length_map, length_seq; lia).
    rewrite length_map, length_seq, Nat.sub_diag. cbn [insert list_insert].
    rewrite seq_S, map_app. cbn [map]. rewrite <- app_assoc. reflexivity.
  - rewrite !Nat.min_r by lia.
    apply list_insert_ge.
    rewrite length_app, length_map, length_seq, length_drop. lia.
Qed.

Lemma for_loop_store_full {A} (f : nat -> A) (init : list A) (m : nat) :
  (length init <= m)%nat ->
  for_loop m (fun i cd => <[i := f i]> cd) init = map f (seq 0 (length init)).
Proof.
  intros H. rewrite for_loop_store, Nat.min_r by lia.
  rewrite drop_all. apply app_nil_r.
Qed.

Lemma channel_loop (a : list Z) (numChannels len iters : nat) (rate : Q) (m : nat) :
  (len <= iters)%nat -> (m <= numChannels)%nat ->
  for_loop m (fun channel buffer =>
        let channelData := default [] (channels buffer !! channel) in
        let channelData :=
          for_loop iters (fun i channelData =>
            <[i := read_scaled a (i * numChannels + channel)]> channelData)
            channelData in
        {| numberOfChannels := numberOfChannels buffer;
           ab_length := ab_length buffer;
           sampleRate := sampleRate buffer;
           channels := <[channel := channelData]> (channels buffer) |})
    {| numberOfChannels := numChannels; ab_length := len; sampleRate := rate;
       channels := replicate numChannels (replicate len (Finite 0)) |}
  = {| numberOfChannels := numChannels; ab_length := len; sampleRate := rate;
       channels :=
         map (fun channel =>
                map (fun i => read_scaled a (i * numChannels + channel)) (seq 0 len))
             (seq 0 m)
         ++ replicate (numChannels - m) (replicate len (Finite 0)) |}.
Proof.
  intros Hlen. induction m as [|m IH]; intros Hm.
  - rewrite Nat.sub_0_r. reflexivity.
  - rewrite for_loop_S, IH by lia. cbn [numberOfChannels ab_length sampleRate channels].
    f_equal.
    replace (numChannels - m)%nat with (S (numChannels - S m)) by lia.
    cbn [replicate].
    rewrite lookup_app_r by (rewrite length_map, length_seq; lia).
    rewrite length_map, length_seq, Nat.sub_diag. cbn [lookup list_lookup default].
    rewrite insert_app_r_alt by (rewrite length_map, length_seq; lia).
    rewrite length_map, length_seq, Nat.sub_diag. cbn [insert list_insert].
    unfold id.
    rewrite for_loop_store_full by (rewrite length_replicate; lia).
    rewrite length_replicate.
    rewrite seq_S, map_app. cbn [map]. rewrite <- app_assoc. reflexivity.
Qed.

Lemma truncate_nat_ratio (n c : nat) :
  truncate (Z.of_nat n # Pos.of_nat (S c)) = Z.of_nat n / Z.of_nat (S c).
Proof.
  unfold truncate. cbn [Qnum Qden].
  replace (Z.pos (Pos.of_nat (S c))) with (Z.of_nat (S c)) by lia.
  apply Z.quot_div_nonneg; lia.
Qed.

Lemma frames_iterations (n c : nat) :
  (frames n (S c) <= iterations (js_div n (S c)))%nat.
Proof.
  unfold frames, iterations, js_div, Qceiling, Qfloor. cbn [Qopp Qnum Qden].
  replace (Z.pos (Pos.of_nat (S c))) with (Z.of_nat (S c)) by lia.
  assert (HN : 0 <= Z.of_nat n) by lia.
  assert (HC : 0 < Z.of_nat (S c)) by lia.
  generalize dependent (Z.of_nat (S c)). generalize dependent (Z.of_nat n).
  intros N HN C HC.
  pose proof (Z.mod_pos_bound (N / C) 4294967296 ltac:(lia)) as Hm.
  pose proof (Z.mod_le (N / C) 4294967296 ltac:(apply Z.div_pos; lia) ltac:(lia)) as Hle.
  assert (Hc : N / C <= - (- N / C)).
  { pose proof (Z.div_mod N C ltac:(lia)). pose proof (Z.mod_pos_bound N C HC).
    pose proof (Z.div_mod (- N) C ltac:(lia)). pose proof (Z.mod_pos_bound (- N) C HC).
    nia. }
  apply Z2Nat.inj_le; lia.
Qed.

(** [decodeAudioData] in closed form. *)
Lemma decodeAudioData_eq (data : list byte) (ctx : AudioContext) (rate : Q)
    (numChannels : nat) :
  decodeAudioData data ctx rate numChannels =
  if negb (Nat.even (length data)) then Throw RangeError
  else
    let a := int16_view data in
    let len := frames (length a) numChannels in
    if (numChannels =? 0)%nat || (len =? 0)%nat || Qle_bool rate 0
    then Throw NotSupportedError
    else Ok {| numberOfChannels := numChannels; ab_length := len;
               sampleRate := rate;
               channels := decoded_channels a numChannels len |}.
Proof.
  unfold decodeAudioData, Int16Array_from.
  destruct (Nat.even (length data)); [|reflexivity].
  cbn [negb result_bind]. set (a := int16_view data).
  destruct numChannels as [|c].
  { unfold createBuffer. reflexivity. }
  unfold createBuffer.
  replace (Z.to_nat (ToUint32 (js_div (length a) (S c)))) with (frames (length a) (S c)).
  2:{ unfold frames, ToUint32, js_div. rewrite truncate_nat_ratio. reflexivity. }
  destruct ((S c =? 0)%nat || (frames (length a) (S c) =? 0)%nat || Qle_bool rate 0);
    [reflexivity|].
  cbn [result_bind]. f_equal.
  rewrite (channel_loop a (S c) _ _ rate (S c)); [|apply frames_iterations|lia].
  rewrite Nat.sub_diag. cbn [replicate]. rewrite app_nil_r. reflexivity.
Qed.

(* ===================================================================== *)
(** ** Truncation and scaling of samples                                 *)
(* ===================================================================== *)

Section SampleArithmetic.
Local Open Scope Q_scope.

Lemma truncate_nonneg (q : Q) :
  0 <= q -> inject_Z (truncate q) <= q /\ q < inject_Z (truncate q) + 1.
Proof.
  destruct q as [a b]. unfold truncate, Qle, Qlt, inject_Z, Qplus. cbn.
  intros Ha. rewrite Z.mul_1_r in Ha.
  pose proof (Z.quot_rem' a (Z.pos b)) as E.
  pose proof (Z.rem_bound_pos a (Z.pos b) Ha ltac:(lia)) as R.
  split; nia.
Qed.

Lemma truncate_nonpos (q : Q) :
  q <= 0 -> inject_Z (truncate q) - 1 < q /\ q <= inject_Z (truncate q).
Proof.
  destruct q as [a b]. unfold truncate, Qle, Qlt, inject_Z, Qminus, Qplus, Qopp. cbn.
  intros Ha. rewrite Z.mul_1_r in Ha.
  pose proof (Z.quot_rem' a (Z.pos b)) as E.
  pose proof (Z.rem_bound_pos_neg a (Z.pos b) ltac:(lia) ltac:(lia)) as R.
  split; nia.
Qed.

Lemma truncate_error (q : Q) :
  inject_Z (truncate q) - 1 < q /\ q < inject_Z (truncate q) + 1.
Proof.
  destruct (Qlt_le_dec q 0) as [H|H].
  - destruct (truncate_nonpos q) as [H1 H2]; [lra|]. split; lra.
  - destruct (truncate_nonneg q H) as [H1 H2]. split; lra.
Qed.

(** Without wrap-around: samples in [-1, 1) scale into the 16-bit range. *)
Lemma truncate_scaled_range (q : Q) :
  -1 <= q -> q < 1 -> (-32768 <= truncate (q * 32768) <= 32767)%Z.
Proof.
  intros Hlo Hhi. pose proof (truncate_error (q * 32768)) as [H1 H2].
  destruct (Qlt_le_dec (q * 32768) 0) as [Hn|Hp].
  - destruct (truncate_nonpos (q * 32768)) as [H3 H4]; [lra|].
    split.
    + assert (inject_Z (-32768 - 1) < inject_Z (truncate (q * 32768))) as H.
      { change (inject_Z (-32768 - 1)) with (-32769). lra. }
      rewrite <- Zlt_Qlt in H. lia.
    + assert (inject_Z (truncate (q * 32768)) < inject_Z 1) as H.
      { change (inject_Z 1) with 1. lra. }
      rewrite <- Zlt_Qlt in H. lia.
  - destruct (truncate_nonneg (q * 32768) Hp) as [H3 H4].
    split.
    + assert (inject_Z (-1) < inject_Z (truncate (q * 32768))) as H.
      { change (inject_Z (-1)) with (-1). lra. }
      rewrite <- Zlt_Qlt in H. lia.
    + assert (inject_Z (truncate (q * 32768)) < inject_Z 32768) as H.
      { change (inject_Z 32768) with 32768. lra. }
      rewrite <- Zlt_Qlt in H. lia.
Qed.

Lemma int16_scaled_range (v : Z) :
  (-32768 <= v <= 32767)%Z ->
  -1 <= inject_Z v / 32768 /\ inject_Z v / 32768 <= 32767 / 32768.
Proof.
  intros [H1 H2]. rewrite Zle_Qle in H1, H2.
  change (inject_Z (-32768)) with (-32768) in H1.
  change (inject_Z 32767) with 32767 in H2.
  unfold Qdiv. change (/ 32768) with (1 # 32768).
  split; lra.
Qed.

Lemma ToInt16_range (x : float) : (-32768 <= ToInt16 x <= 32767)%Z.
Proof.
  destruct x; cbn [ToInt16]; try lia. apply wrap16_range.
Qed.

End SampleArithmetic.

(* ===================================================================== *)
(** ** The codec                                                         *)
(* ===================================================================== *)

Lemma list_ind2 {A} (P : list A -> Prop) :
  P [] -> (forall a, P [a]) -> (forall a b r, P r -> P (a :: b :: r)) ->
  forall l, P l.
Proof.
  intros H0 H1 H2.
  fix IH 1. intros [|a [|b r]]; [exact H0 | apply H1 | apply H2, IH].
Qed.

Lemma length_int16_view (data : list byte) :
  length (int16_view data) = (length data / 2)%nat.
Proof.
  induction data as [| a | lo hi rest IH] using list_ind2; try reflexivity.
  cbn [int16_view length]. rewrite IH.
  change (S (S (length rest))) with (1 * 2 + length rest)%nat.
  rewrite Nat.div_add_l by lia. reflexivity.
Qed.

Lemma int16_view_range (data : list byte) :
  Forall (fun v => -32768 <= v <= 32767) (int16_view data).
Proof.
  induction data as [| a | lo hi rest IH] using list_ind2; cbn [int16_view];
    constructor; [apply wrap16_range | exact IH].
Qed.

Lemma frames_le (n numChannels : nat) :
  (frames n numChannels * numChannels <= n)%nat.
Proof.
  unfold frames. destruct numChannels as [|c]; [lia|].
  assert (HC : 0 < Z.of_nat (S c)) by lia.
  assert (HN : 0 <= Z.of_nat n) by lia.
  pose proof (Z.mod_le (Z.of_nat n / Z.of_nat (S c)) 4294967296
                ltac:(apply Z.div_pos; lia) ltac:(lia)) as Hle.
  pose proof (Z.mod_pos_bound (Z.of_nat n / Z.of_nat (S c)) 4294967296 ltac:(lia)) as Hm.
  pose proof (Z.mul_div_le (Z.of_nat n) (Z.of_nat (S c)) HC) as Hd.
  nia.
Qed.

(** Every sample [decodeAudioData] stores is a 16-bit integer over 32768. *)
Lemma decoded_channels_samples (a : list Z) (numChannels len : nat)
    (channel : nat) (channelData : list float) (x : float) :
  (len * numChannels <= length a)%nat ->
  decoded_channels a numChannels len !! channel = Some channelData ->
  In x channelData ->
  exists v, In v a /\ x = Finite (inject_Z v / 32768).
Proof.
  intros Hlen Hc Hx. unfold decoded_channels in Hc.
  rewrite list_lookup_fmap in Hc.
  destruct (seq 0 numChannels !! channel) as [c|] eqn:Ec; [|discriminate].
  apply lookup_seq in Ec as [-> Hcn]. cbn in Hc. injection Hc as <-.
  apply List.in_map_iff in Hx as (i & <- & Hi).
  apply List.in_seq in Hi.
  unfold read_scaled.
  destruct (lookup_lt_is_Some_2 a (i * numChannels + channel)) as [v Hv]; [nia|].
  rewrite Hv. exists v. split; [|reflexivity].
  apply list_elem_of_In. eapply list_elem_of_lookup_2. exact Hv.
Qed.

(** Claim C10 (decoded sample range).  For every well-formed packet (byte
    length a multiple of [2 * numChannels]) that [decodeAudioData] decodes,
    and every channel of the buffer, every sample stored is a finite number
    in the closed interval [[-1, 32767/32768]]; no [NaN] and nothing
    outside [[-1, 1]] is ever produced. *)
Theorem decoded_sample_range (data : list byte) (ctx : AudioContext) (rate : Q)
    (numChannels : nat) (buffer : AudioBuffer) :
  (length data mod (2 * numChannels) = 0)%nat ->
  decodeAudioData data ctx rate numChannels = Ok buffer ->
  forall (channel : nat) (channelData : list float) (x : float),
    channels buffer !! channel = Some channelData ->
    In x channelData ->
    exists q : Q, x = Finite q /\ (-1 <= q)%Q /\ (q <= 32767 / 32768)%Q.
Proof.
  intros _ Hd channel channelData x Hc Hx.
  rewrite decodeAudioData_eq in Hd.
  destruct (negb (Nat.even (length data))); [discriminate|].
  cbv zeta in Hd.
  destruct (_ || _ || _); [discriminate|].
  injection Hd as <-. cbn [channels] in Hc.
  destruct (decoded_channels_samples _ _ _ _ _ _ (frames_le _ _) Hc Hx) as (v & Hv & ->).
  exists (inject_Z v / 32768)%Q. split; [reflexivity|].
  apply int16_scaled_range.
  pose proof (int16_view_range data) as Hr.
  rewrite List.Forall_forall in Hr. apply Hr. exact Hv.
Qed.

Lemma decoded_sample_range_witness :
  exists q : Q, Finite (-32768 / 32768) = Finite q /\ (-1 <= q)%Q /\ (q <= 32767 / 32768)%Q.
Proof.
  apply (decoded_sample_range [x00; x40; x00; x80; xff; x7f; x01; x00] 0%nat 24000 2
           {| numberOfChannels := 2; ab_length := 2; sampleRate := 24000;
              channels := [[Finite (16384 / 32768); Finite (32767 / 32768)];
                           [Finite (-32768 / 32768); Finite (1 / 32768)]] |}
           eq_refl eq_refl 1%nat
           [Finite (-32768 / 32768); Finite (1 / 32768)]).
  - reflexivity.
  - left. reflexivity.
Defined.

Lemma decoded_channels_mono (a : list Z) :
  decoded_channels a 1 (length a)
  = [map (fun v => Finite (inject_Z v / 32768)) a].
Proof.
  unfold decoded_channels. cbn [seq map]. f_equal.
  apply list_eq. intros i. rewrite !list_lookup_fmap.
  destruct (a !! i) as [v|] eqn:E.
  - pose proof (lookup_lt_Some _ _ _ E) as Hi.
    rewrite lookup_seq_lt by exact Hi. cbn.
    unfold read_scaled. rewrite Nat.mul_1_r, Nat.add_0_r, E. reflexivity.
  - apply lookup_ge_None in E. rewrite lookup_seq_ge by exact E. reflexivity.
Qed.

Lemma even_double (n : nat) : Nat.even (2 * n) = true.
Proof. apply Nat.even_spec. exists n. reflexivity. Qed.

(** What comes back from the decoder for an encoded frame. *)
Lemma decode_encoded (samples : list float) (ctx : AudioContext) (rate : Q) :
  (0 < length samples)%nat -> Z.of_nat (length samples) < 4294967296 ->
  (0 < rate)%Q ->
  (let! bytes := decode (data (createBlob samples)) in
   decodeAudioData bytes ctx rate 1)
  = Ok {| numberOfChannels := 1; ab_length := length samples; sampleRate := rate;
          channels :=
            [map (fun x => Finite (inject_Z (ToInt16 (float_scale 32768 x)) / 32768))
                 samples] |}.
Proof.
  intros Hlen Hmax Hrate. rewrite decode_createBlob. cbn [result_bind].
  rewrite decodeAudioData_eq.
  set (ints := map (fun x => ToInt16 (float_scale 32768 x)) samples).
  assert (Hints : length ints = length samples) by apply length_map.
  rewrite length_Int16Array_buffer, even_double. cbn [negb]. cbv zeta.
  rewrite int16_view_buffer.
  2:{ apply List.Forall_forall. intros v Hv. apply List.in_map_iff in Hv as (x & <- & _).
      apply ToInt16_range. }
  assert (Hf : frames (length ints) 1 = length ints).
  { unfold frames. rewrite Z.div_1_r, Z.mod_small by lia. lia. }
  rewrite Hf.
  replace (length ints =? 0)%nat with false by (symmetry; apply Nat.eqb_neq; lia).
  replace (Qle_bool rate 0) with false.
  2:{ symmetry. apply not_true_is_false. intros H. apply Qle_bool_iff in H. lra. }
  cbn [Nat.eqb orb].
  rewrite decoded_channels_mono, Hints. unfold ints. rewrite map_map. reflexivity.
Qed.

(** Claim C1 (codec round trip), amended.  For every sequence [S] of at
    least one and fewer than [2^32] samples with values in [[-1, 1)],
    decoding the packet [createBlob] makes of [S] ([decode] of its [data],
    then [decodeAudioData] at the rate 16000 of its MIME type and one
    channel) succeeds with a single channel [S'] of the same length, and
    [|S'[i] - S[i]| <= 1/32768] at every index [i]. *)
Theorem codec_round_trip (S : list Q) (ctx : AudioContext) :
  (0 < length S)%nat -> Z.of_nat (length S) < 4294967296 ->
  Forall (fun q => -1 <= q /\ q < 1)%Q S ->
  exists S' : list Q,
    (let! bytes := decode (data (createBlob (map Finite S))) in
     decodeAudioData bytes ctx 16000 1)
    = Ok {| numberOfChannels := 1; ab_length := length S; sampleRate := 16000;
            channels := [map Finite S'] |}
    /\ length S' = length S
    /\ forall (i : nat) (q q' : Q),
         S !! i = Some q -> S' !! i = Some q' ->
         (Qabs (q' - q) <= 1 / 32768)%Q.
Proof.
  intros Hlen Hmax Hrange.
  exists (map (fun q => inject_Z (truncate (q * 32768)) / 32768)%Q S).
  split; [|split].
  - rewrite decode_encoded by (rewrite ?length_map; first [lia|reflexivity]).
    rewrite length_map. do 2 f_equal. rewrite !map_map. f_equal.
    apply map_ext_in. intros q Hq. cbn [float_scale ToInt16].
    rewrite List.Forall_forall in Hrange. destruct (Hrange q Hq) as [Hlo Hhi].
    rewrite wrap16_small by (apply truncate_scaled_range; assumption).
    reflexivity.
  - apply length_map.
  - intros i q q' Hq Hq'. rewrite list_lookup_fmap, Hq in Hq'. cbn in Hq'.
    injection Hq' as <-.
    pose proof (truncate_error (q * 32768)%Q) as [H1 H2].
    apply Qabs_Qle_condition. unfold Qdiv. change (/ 32768)%Q with (1 # 32768)%Q.
    split; lra.
Qed.

Lemma codec_round_trip_witness :
  exists S' : list Q,
    (let! bytes := decode (data (createBlob (map Finite [1 # 2; -1; 3 # 131072]%Q))) in
     decodeAudioData bytes 0%nat 16000 1)
    = Ok {| numberOfChannels := 1; ab_length := 3; sampleRate := 16000;
            channels := [map Finite S'] |}
    /\ length S' = 3%nat
    /\ forall (i : nat) (q q' : Q),
         [1 # 2; -1; 3 # 131072]%Q !! i = Some q -> S' !! i = Some q' ->
         (Qabs (q' - q) <= 1 / 32768)%Q.
Proof.
  apply (codec_round_trip [1 # 2; -1; 3 # 131072]%Q 0%nat).
  - cbn. lia.
  - cbn. lia.
  - repeat (apply List.Forall_cons; [unfold Qle, Qlt; cbn; lia|]). apply List.Forall_nil.
Defined.

(** Claim C1 as stated fails at the sample [1.0], which lies in [[-1, 1]]:
    [1.0 * 32768] wraps to [-32768] in the [Int16Array], so the sample
    comes back as [-1.0], at distance [2] from the input. *)
Lemma codec_round_trip_fails_at_one :
  (let! bytes := decode (data (createBlob [Finite 1])) in
   decodeAudioData bytes 0%nat 16000 1)
  = Ok {| numberOfChannels := 1; ab_length := 1; sampleRate := 16000;
          channels := [[Finite (-32768 / 32768)]] |}
  /\ ~ (Qabs (-32768 / 32768 - 1) <= 1 / 32768)%Q.
Proof.
  split; [reflexivity|]. intros H. vm_compute in H. apply H. reflexivity.
Qed.

Lemma Int16Array_buffer_lookup (a : list Z) (i : nat) (v : Z) :
  a !! i = Some v ->
  Int16Array_buffer a !! (2 * i)%nat = Some (byte_of_Z ((v mod 65536) mod 256))
  /\ Int16Array_buffer a !! (2 * i + 1)%nat = Some (byte_of_Z ((v mod 65536) / 256)).
Proof.
  revert i. induction a as [|w a IH]; intros i Hi; [discriminate|].
  destruct i as [|i].
  - injection Hi as ->. split; reflexivity.
  - cbn in Hi. destruct (IH i Hi) as [H1 H2].
    replace (2 * S i)%nat with (S (S (2 * i))) by lia.
    replace (S (S (2 * i)) + 1)%nat with (S (S (2 * i + 1))) by lia.
    split; assumption.
Qed.

Lemma int16_bytes_value (v : Z) :
  byte_to_Z (byte_of_Z ((v mod 65536) mod 256))
  + 256 * byte_to_Z (byte_of_Z ((v mod 65536) / 256)) = v mod 65536.
Proof.
  rewrite !byte_to_of_Z; Z.div_mod_to_equations; lia.
Qed.

(** Claim C9 (outbound sample conversion), amended.  [createBlob] tags the
    packet with [audio/pcm;rate=16000]; its [data] decodes ([atob]) to two
    bytes per sample, the little-endian two's-complement form of a 16-bit
    integer [v].  For a finite sample [q] the integer [v] is congruent
    modulo [2^16] to [q * 32768] truncated toward zero (the integer between
    [0] and [q * 32768] nearest to the latter), not rounded; there is no
    clamping, and [v] is that truncation itself when [-1 <= q < 1].  A
    [NaN] or infinite sample gives [0]. *)
Theorem createBlob_conversion (samples : list float) :
  exists bytes : list byte,
    decode (data (createBlob samples)) = Ok bytes
    /\ mimeType (createBlob samples) = "audio/pcm;rate=16000"%string
    /\ length bytes = (2 * length samples)%nat
    /\ forall (i : nat) (x : float),
         samples !! i = Some x ->
         exists (lo hi : byte) (v : Z),
           bytes !! (2 * i)%nat = Some lo
           /\ bytes !! (2 * i + 1)%nat = Some hi
           /\ -32768 <= v <= 32767
           /\ byte_to_Z lo + 256 * byte_to_Z hi = v mod 65536
           /\ match x with
              | Finite q =>
                  (v - truncate (q * 32768)) mod 65536 = 0
                  /\ (0 <= q -> inject_Z (truncate (q * 32768)) <= q * 32768
                                /\ q * 32768 < inject_Z (truncate (q * 32768)) + 1)%Q
                  /\ (q <= 0 -> inject_Z (truncate (q * 32768)) - 1 < q * 32768
                                /\ q * 32768 <= inject_Z (truncate (q * 32768)))%Q
                  /\ (-1 <= q -> q < 1 -> v = truncate (q * 32768))%Q
              | _ => v = 0
              end.
Proof.
  exists (Int16Array_buffer (map (fun x => ToInt16 (float_scale 32768 x)) samples)).
  split; [apply decode_createBlob|]. split; [reflexivity|].
  split; [rewrite length_Int16Array_buffer, length_map; reflexivity|].
  intros i x Hx.
  set (v := ToInt16 (float_scale 32768 x)).
  assert (Hv : map (fun x => ToInt16 (float_scale 32768 x)) samples !! i = Some v).
  { rewrite list_lookup_fmap, Hx. reflexivity. }
  destruct (Int16Array_buffer_lookup _ _ _ Hv) as [Hlo Hhi].
  eexists _, _, v. split; [exact Hlo|]. split; [exact Hhi|].
  split; [apply ToInt16_range|]. split; [apply int16_bytes_value|].
  destruct x as [| s | q]; try reflexivity.
  subst v. cbn [float_scale ToInt16].
  split; [|split; [|split]].
  - pose proof (wrap16_mod (truncate (q * 32768))) as Hm.
    rewrite Zminus_mod, Hm, Z.sub_diag. reflexivity.
  - intros Hq. apply truncate_nonneg. lra.
  - intros Hq. apply truncate_nonpos. lra.
  - intros Hlo' Hhi'. apply wrap16_small, truncate_scaled_range; assumption.
Qed.

(** Claim C9 as stated fails at the sample [3/131072]: scaled by [32768]
    it is [0.75], which rounds to [1], but the packet carries the integer
    [0]. *)
Lemma createBlob_does_not_round :
  decode (data (createBlob [Finite (3 # 131072)])) = Ok [x00; x00]
  /\ int16_view [x00; x00] = [0]
  /\ round_half_up ((3 # 131072) * 32768) = 1.
Proof. repeat split; reflexivity. Qed.

Lemma frames_zero_iff (n numChannels : nat) :
  (0 < numChannels)%nat -> Z.of_nat n < 4294967296 ->
  frames n numChannels = 0%nat <-> (n < numChannels)%nat.
Proof.
  intros Hc Hn. unfold frames.
  assert (H0 : 0 <= Z.of_nat n / Z.of_nat numChannels) by (apply Z.div_pos; lia).
  assert (H1 : Z.of_nat n / Z.of_nat numChannels <= Z.of_nat n)
    by (apply Z.div_le_upper_bound; nia).
  rewrite Z.mod_small by lia.
  split; intros H.
  - assert (Hz : Z.of_nat n / Z.of_nat numChannels = 0) by lia.
    apply Z.div_small_iff in Hz; lia.
  - rewrite Z.div_small by lia. reflexivity.
Qed.

(** Claim C8 (malformed chunks), amended.  [decodeAudioData] checks nothing
    against the channel count itself.  For a supported rate and at least
    one channel it throws exactly when the byte length is odd (the
    [Int16Array] view cannot be made) or the packet holds fewer 16-bit
    samples than channels ([createBuffer] is asked for an empty buffer),
    and what it throws is a [RangeError] or a [NotSupportedError].  When
    the chunk of an inbound message fails to decode, [onmessage] throws
    that exception and leaves the world exactly as it was: the chunk is
    dropped, nothing is scheduled and nothing of the session is torn
    down. *)
Theorem malformed_chunk (data : list byte) (ctx : AudioContext) (rate : Q)
    (numChannels : nat) (currentTime : Q) (msg : LiveServerMessage) (w : World)
    (c : ascii) (rest : string) (e : Exception) :
  (0 < rate)%Q -> (0 < numChannels)%nat ->
  Z.of_nat (length data) < 8589934592 ->
  inlineData msg = Some (String c rest) ->
  outputAudioContextRef w = Some ctx ->
  (let! bytes := decode (String c rest) in decodeAudioData bytes ctx 24000 1) = Throw e ->
  ((exists e', decodeAudioData data ctx rate numChannels = Throw e')
   <-> (Nat.odd (length data) = true \/ (length data / 2 < numChannels)%nat))
  /\ (forall e', decodeAudioData data ctx rate numChannels = Throw e' ->
                 e' = RangeError \/ e' = NotSupportedError)
  /\ onmessage currentTime msg w = Raise e w.
Proof.
  intros Hrate Hch Hlen Hmsg Hctx Hthrow. split; [|split].
  - rewrite decodeAudioData_eq. rewrite <- Nat.negb_even.
    destruct (Nat.even (length data)) eqn:Ev; cbn [negb].
    2:{ split; eauto. }
    cbv zeta. rewrite length_int16_view.
    assert (Hn : Z.of_nat (length data / 2) < 4294967296).
    { pose proof (Nat.Div0.div_mod (length data) 2). pose proof (Nat.mod_upper_bound (length data) 2). lia. }
    pose proof (frames_zero_iff (length data / 2) numChannels Hch Hn) as Hf.
    replace (numChannels =? 0)%nat with false by (symmetry; apply Nat.eqb_neq; lia).
    replace (Qle_bool rate 0) with false.
    2:{ symmetry. apply not_true_is_false. intros H. apply Qle_bool_iff in H. lra. }
    rewrite orb_false_r. cbn [orb].
    destruct (frames (length data / 2) numChannels =? 0)%nat eqn:Ef.
    + apply Nat.eqb_eq in Ef. split; [intros _; right; apply Hf, Ef | eauto].
    + apply Nat.eqb_neq in Ef. split; [intros [e' He']; discriminate|].
      intros [H|H]; [discriminate | exfalso; apply Ef, Hf, H].
  - intros e'. rewrite decodeAudioData_eq.
    destruct (negb (Nat.even (length data))); [intros [= <-]; left; reflexivity|].
    cbv zeta. destruct (_ || _ || _); [intros [= <-]; right; reflexivity | discriminate].
  - unfold onmessage, bind, get. rewrite Hmsg, Hctx, Hthrow. reflexivity.
Qed.

Lemma malformed_chunk_witness :
  ((exists e', decodeAudioData [x00; x40; x00] 1%nat 24000 1 = Throw e')
   <-> (Nat.odd 3 = true \/ (3 / 2 < 1)%nat))
  /\ (forall e', decodeAudioData [x00; x40; x00] 1%nat 24000 1 = Throw e' ->
                 e' = RangeError \/ e' = NotSupportedError)
  /\ onmessage (1 # 2) {| inlineData := Some "AEAA"%string; interrupted := true |}
       (set_outputAudioContextRef (Some 1%nat)
          (initial_world demo_persona))
     = Raise RangeError
         (set_outputAudioContextRef (Some 1%nat)
            (initial_world demo_persona)).
Proof.
  apply (malformed_chunk [x00; x40; x00] 1%nat 24000 1 (1 # 2)
           {| inlineData := Some "AEAA"%string; interrupted := true |}
           (set_outputAudioContextRef (Some 1%nat)
              (initial_world demo_persona))
           "A"%char "EAA"%string RangeError).
  - reflexivity.
  - lia.
  - cbn. lia.
  - reflexivity.
  - reflexivity.
  - reflexivity.
Defined.

(** Claim C8 as stated fails for six bytes on two channels: the byte length
    is not a multiple of [2 * 2], yet [decodeAudioData] returns a buffer of
    one frame (the third sample is ignored). *)
Lemma six_bytes_two_channels_decode :
  (6 mod (2 * 2) <> 0)%nat
  /\ decodeAudioData [x00; x40; x00; x80; xff; x7f] 0%nat 24000 2
     = Ok {| numberOfChannels := 2; ab_length := 1; sampleRate := 24000;
             channels := [[Finite (16384 / 32768)]; [Finite (-32768 / 32768)]] |}.
Proof. split; [cbn; lia | reflexivity]. Qed.

(* ===================================================================== *)
(** ** The playback scheduler                                             *)
(* ===================================================================== *)

Local Open Scope m_scope.

Lemma set_trace_id (w : World) : set_trace (trace w) w = w.
Proof. destruct w; reflexivity. Qed.

Lemma onmessage_unfold (currentTime : Q) (msg : LiveServerMessage) (w : World) :
  onmessage currentTime msg w =
  match inlineData msg with
  | Some (String c rest) =>
      match outputAudioContextRef w with
      | None => Return tt w
      | Some ctx =>
          match (let! bytes := decode (String c rest) in
                 decodeAudioData bytes ctx 24000 1) with
          | Throw e => Raise e w
          | Ok buffer =>
              if interrupted msg then flush (after_chunk currentTime buffer w)
              else Return tt (after_chunk currentTime buffer w)
          end
      end
  | _ => if interrupted msg then flush w else Return tt w
  end.
Proof.
  unfold onmessage, flush, bind, get.
  destruct (inlineData msg) as [[|c rest]|]; cbn [ret andb];
    try (destruct (interrupted msg); reflexivity).
  destruct (outputAudioContextRef w) as [ctx|]; [|reflexivity].
  destruct (let! bytes := decode (String c rest) in decodeAudioData bytes ctx 24000 1)
    as [buffer|e]; [|reflexivity].
  cbn [lift ret]. unfold new_object, emit, modify, after_chunk, start_time.
  destruct w as [? ? ? ? ? ? ? ? ? cursor ? ? ? ? ? ?]; cbn.
  destruct (Qlt_le_dec cursor currentTime), (interrupted msg); cbn;
    rewrite <- app_assoc; reflexivity.
Qed.

Lemma started_app (s : nat) (tr evs : list Event) :
  started s (tr ++ evs) = started s tr || started s evs.
Proof. unfold started. apply existsb_app. Qed.

Lemma started_extends (s : nat) (tr evs : list Event) :
  started s tr = true -> started s (tr ++ evs) = true.
Proof. intros H. rewrite started_app, H. reflexivity. Qed.

Lemma source_stop_started (s : nat) (w : World) :
  started s (trace w) = true ->
  source_stop s w = Return tt (set_trace (trace w ++ [SourceStop s]) w).
Proof. intros H. unfold source_stop, bind, get. rewrite H. reflexivity. Qed.

Lemma source_stop_not_started (s : nat) (w : World) :
  started s (trace w) = false -> source_stop s w = Raise InvalidStateError w.
Proof. intros H. unfold source_stop, bind, get. rewrite H. reflexivity. Qed.

Lemma set_trace_set_trace (a b : list Event) (w : World) :
  set_trace a (set_trace b w) = set_trace a w.
Proof. reflexivity. Qed.

(** [forEach(s => s.stop())] over sources that were all started. *)
Lemma forEach_stop_started (l : list nat) (w : World) :
  (forall s, In s l -> started s (trace w) = true) ->
  forEach l source_stop w = Return tt (set_trace (trace w ++ map SourceStop l) w).
Proof.
  revert w. induction l as [|x l IH]; intros w H.
  - cbn [forEach map]. rewrite app_nil_r, set_trace_id. reflexivity.
  - cbn [forEach]. unfold bind. rewrite source_stop_started by (apply H; left; reflexivity).
    rewrite IH.
    + cbn [trace set_trace]. rewrite set_trace_set_trace, <- app_assoc. reflexivity.
    + intros s Hs. cbn [trace set_trace]. apply started_extends, H. right. exact Hs.
Qed.

(** In general the loop ends at the first source that was never started. *)
Lemma forEach_stop_run (l : list nat) (w : World) :
  exists l', run (forEach l source_stop) w = set_trace (trace w ++ map SourceStop l') w.
Proof.
  revert w. induction l as [|x l IH]; intros w.
  - exists []. unfold run. cbn [forEach ret map]. rewrite app_nil_r, set_trace_id. reflexivity.
  - unfold run. cbn [forEach]. unfold bind.
    destruct (started x (trace w)) eqn:E.
    + rewrite source_stop_started by exact E.
      destruct (IH (set_trace (trace w ++ [SourceStop x]) w)) as [l' Hl'].
      unfold run in Hl'. exists (x :: l').
      destruct (forEach l source_stop _); rewrite Hl';
        cbn [trace set_trace map]; rewrite set_trace_set_trace, <- app_assoc; reflexivity.
    + rewrite source_stop_not_started by exact E.
      exists []. cbn [map]. rewrite app_nil_r, set_trace_id. reflexivity.
Qed.

(** [forEach(s => { try { s.stop(); } catch(e){} })] *)
Lemma forEach_try_stop (l : list nat) (w : World) :
  forEach l (fun s => try_catch (source_stop s) (fun e => ret tt)) w
  = Return tt (set_trace (trace w ++ map SourceStop
                            (List.filter (fun s => started s (trace w)) l)) w).
Proof.
  revert w. induction l as [|x l IH]; intros w.
  - cbn [forEach List.filter map]. rewrite app_nil_r, set_trace_id. reflexivity.
  - cbn [forEach List.filter]. unfold bind, try_catch.
    destruct (started x (trace w)) eqn:E.
    + rewrite source_stop_started by exact E. rewrite IH.
      cbn [trace set_trace map]. rewrite set_trace_set_trace, <- app_assoc.
      do 3 f_equal. cbn [app]. f_equal. f_equal.
      apply filter_ext. intros s. rewrite started_app. cbn. rewrite !orb_false_r.
      destruct (is_SourceStart s (SourceStop x)) eqn:F; [discriminate|]. reflexivity.
    + rewrite source_stop_not_started by exact E. cbn [ret]. apply IH.
Qed.

Lemma filter_started_extends (tr evs : list Event) (l : list nat) :
  (forall s, started s evs = false) ->
  List.filter (fun s => started s (tr ++ evs)) l
  = List.filter (fun s => started s tr) l.
Proof.
  intros H. apply filter_ext. intros s. rewrite started_app, H. apply orb_false_r.
Qed.

Lemma started_release_events (w : World) (s : nat) :
  started s (release_events w) = false.
Proof.
  unfold release_events.
  destruct (streamRef w), (processorRef w), (sourceRef w),
    (inputAudioContextRef w), (outputAudioContextRef w); reflexivity.
Qed.

Lemma stopSession_eq (w : World) : stopSession w = Return tt (stopped w).
Proof.
  unfold stopSession, stopped, release_events.
  destruct w as [a1 a2 a3 a4 inCtx outCtx stream proc src cursor sources a5 a6 a7 a8 tr].
  destruct stream, proc, src, inCtx, outCtx;
    cbv [release bind get emit modify setIsConnected setIsConnecting
         streamRef processorRef sourceRef inputAudioContextRef outputAudioContextRef
         audioSourcesRef trace isConnecting isConnected isMuted selectedPersona
         nextStartTimeRef sessionRef activeSessionRef onaudioprocess_handlers fresh
         set_streamRef set_processorRef set_sourceRef set_inputAudioContextRef
         set_outputAudioContextRef set_trace set_audioSourcesRef set_nextStartTimeRef
         set_isConnected set_isConnecting ret];
    repeat rewrite <- app_assoc;
    rewrite forEach_try_stop;
    cbv [trace set_trace isConnecting isConnected isMuted selectedPersona
         streamRef processorRef sourceRef inputAudioContextRef outputAudioContextRef
         audioSourcesRef
         nextStartTimeRef sessionRef activeSessionRef onaudioprocess_handlers fresh];
    rewrite ?filter_started_extends by (intros; reflexivity);
    repeat rewrite <- app_assoc; reflexivity.
Qed.

(* ===================================================================== *)
(** ** Invariants of the reachable worlds                                 *)
(* ===================================================================== *)

Ltac world_cbv :=
  cbv [run exec startSession startSession_resume session_resolved onopen
       onaudioprocess audioprocess onended onclose onerror toggleMute
       new_AudioContext new_object emit modify get bind ret throw try_catch
       setIsConnecting setIsConnected setIsMuted
       set_isConnecting set_isConnected set_isMuted set_inputAudioContextRef
       set_outputAudioContextRef set_streamRef set_processorRef set_sourceRef
       set_nextStartTimeRef set_audioSourcesRef set_sessionRef
       set_activeSessionRef set_onaudioprocess_handlers set_fresh set_trace
       isConnecting isConnected isMuted selectedPersona inputAudioContextRef
       outputAudioContextRef streamRef processorRef sourceRef nextStartTimeRef
       audioSourcesRef sessionRef activeSessionRef onaudioprocess_handlers
       fresh trace after_chunk env_render env_stream env_inputCtx env_sessionPromise
       well_formed sources_started refs_distinct] in *.

Ltac destruct_world w :=
  destruct w as [w_isConnecting w_isConnected w_isMuted w_persona w_inputCtx
                 w_outputCtx w_stream w_processor w_source w_cursor w_sources
                 w_session w_active w_handlers w_fresh w_trace].

Ltac started_tac :=
  repeat rewrite started_app;
  match goal with
  | H : _, Hs : _ ∈ _ |- _ => rewrite (H _ Hs); reflexivity
  end.

Lemma well_formed_initial (persona : VoicePersona) : well_formed (initial_world persona).
Proof.
  split; [|split].
  - intros s Hs. cbn [initial_world audioSourcesRef] in Hs. set_solver.
  - intros a b H. discriminate.
  - intros a b H. discriminate.
Qed.

Lemma well_formed_set_trace (w : World) (evs : list Event) :
  well_formed w -> well_formed (set_trace (trace w ++ evs) w).
Proof.
  destruct_world w. world_cbv. intros [H1 H2]. split; [|exact H2].
  intros s Hs. started_tac.
Qed.

Lemma well_formed_after_chunk (currentTime : Q) (buffer : AudioBuffer) (w : World) :
  well_formed w -> well_formed (after_chunk currentTime buffer w).
Proof.
  destruct_world w. world_cbv. intros [H1 H2]. split; [|exact H2].
  intros s Hs. rewrite started_app.
  apply elem_of_union in Hs as [Hs|Hs].
  - apply elem_of_singleton in Hs as ->.
    replace (started w_fresh [NodeConnect w_fresh; SourceStart w_fresh buffer _]) with true.
    + apply orb_true_r.
    + unfold started. cbn [existsb is_SourceStart]. rewrite Nat.eqb_refl. reflexivity.
  - rewrite (H1 s Hs). reflexivity.
Qed.

Lemma flush_run (w : World) :
  exists l,
    run flush w = set_trace (trace w ++ map SourceStop l) w
    \/ run flush w = set_nextStartTimeRef 0
                       (set_audioSourcesRef ∅
                          (set_trace (trace w ++ map SourceStop l) w)).
Proof.
  destruct (forEach_stop_run (elements (audioSourcesRef w)) w) as [l Hl].
  exists l. unfold run in *. unfold flush, bind, get.
  destruct (forEach (elements (audioSourcesRef w)) source_stop w) as [[] w'|e w'];
    subst w'; [right | left]; reflexivity.
Qed.

Lemma well_formed_flush (w : World) : well_formed w -> well_formed (run flush w).
Proof.
  intros H. destruct (flush_run w) as [l [-> | ->]].
  - apply well_formed_set_trace, H.
  - apply (well_formed_set_trace w (map SourceStop l)) in H.
    destruct H as [_ H2]. split; [|exact H2].
    intros s Hs. cbn [audioSourcesRef set_nextStartTimeRef set_audioSourcesRef] in Hs.
    set_solver.
Qed.

Lemma run_Return {A} (m : M A) (w w' : World) (a : A) :
  m w = Return a w' -> run m w = w'.
Proof. unfold run. intros ->. reflexivity. Qed.

Lemma well_formed_onmessage (currentTime : Q) (msg : LiveServerMessage) (w : World) :
  well_formed w -> well_formed (run (onmessage currentTime msg) w).
Proof.
  intros H. unfold run at 1. rewrite onmessage_unfold.
  destruct (inlineData msg) as [[|c rest]|].
  - destruct (interrupted msg); [apply well_formed_flush, H | exact H].
  - destruct (outputAudioContextRef w) as [ctx|]; [|exact H].
    destruct (let! bytes := decode (String c rest) in decodeAudioData bytes ctx 24000 1)
      as [buffer|e]; [|exact H].
    destruct (interrupted msg).
    + apply well_formed_flush, well_formed_after_chunk, H.
    + apply well_formed_after_chunk, H.
  - destruct (interrupted msg); [apply well_formed_flush, H | exact H].
Qed.

Lemma well_formed_stopped (w : World) : well_formed (stopped w).
Proof.
  split; [|split].
  - intros s Hs. cbn [stopped audioSourcesRef] in Hs. set_solver.
  - intros a b H. discriminate.
  - intros a b H. discriminate.
Qed.

Lemma exec_well_formed (c : Callback) (w : World) :
  well_formed w -> well_formed (exec c w).
Proof.
  intros H. destruct c as [r apiKey | r denied | s | env | processor inputData
                          | currentTime msg | source | | | | r].
  - destruct_world w. unfold exec, startSession.
    destruct (r_isConnecting r || r_isConnected r); [exact H|].
    destruct apiKey as [[|c k]|]; world_cbv; destruct H as [H1 [H2 H3]].
    all: (split; [intros s Hs; started_tac | split; [|exact H3]]); try exact H2.
    intros a b [= <-] [= <-]. lia.
  - destruct_world w. destruct denied; world_cbv; destruct H as [H1 H2];
      (split; [intros s Hs; started_tac | exact H2]).
  - destruct_world w. exact H.
  - destruct_world w. destruct env as [r' st [ictx|] sp]; world_cbv;
      destruct H as [H1 [H2 H3]].
    + split; [intros s Hs; started_tac | split; [exact H2|]].
      intros a b [= <-] [= <-]. lia.
    + split; [exact H1 | split; [exact H2 | exact H3]].
  - unfold exec, run, audioprocess, bind, get.
    destruct (onaudioprocess_handlers w !! processor) as [env|]; [|exact H].
    unfold onaudioprocess. destruct (r_isMuted (env_render env)); [exact H|].
    apply well_formed_set_trace, H.
  - apply well_formed_onmessage, H.
  - destruct_world w. world_cbv. destruct H as [H1 H2]. split; [|exact H2].
    intros s Hs. apply H1. apply elem_of_difference in Hs as [Hs _]. exact Hs.
  - destruct_world w. exact H.
  - destruct_world w. exact H.
  - unfold exec. rewrite (run_Return _ _ _ _ (stopSession_eq w)). apply well_formed_stopped.
  - destruct_world w. exact H.
Qed.

Lemma reachable_well_formed (w : World) : reachable w -> well_formed w.
Proof.
  intros (persona & cs & ->). unfold exec_all.
  generalize (well_formed_initial persona). generalize (initial_world persona).
  induction cs as [|c cs IH]; intros w H; [exact H|].
  cbn [fold_left]. apply IH, exec_well_formed, H.
Qed.

(* ===================================================================== *)
(** ** Teardown                                                           *)
(* ===================================================================== *)

Lemma count_app (p : Event -> bool) (a b : list Event) :
  count p (a ++ b) = (count p a + count p b)%nat.
Proof. unfold count. rewrite List.filter_app, length_app. reflexivity. Qed.

Lemma new_events_app (w w' : World) (evs : list Event) :
  trace w' = trace w ++ evs -> new_events w w' = evs.
Proof. intros H. unfold new_events. rewrite H. apply drop_app_length. Qed.

Lemma new_events_refl (w : World) : new_events w w = [].
Proof. apply new_events_app. symmetry. apply app_nil_r. Qed.

Lemma count_stops_other (p : Event -> bool) (l : list nat) :
  (forall s, p (SourceStop s) = false) -> count p (map SourceStop l) = 0%nat.
Proof.
  intros H. unfold count. induction l as [|x l IH]; [reflexivity|].
  cbn [map List.filter]. rewrite H. exact IH.
Qed.





(* ===================================================================== *)
(** ** Interruption and the playback clock                                *)
(* ===================================================================== *)

Lemma count_stops (s : nat) (l : list nat) :
  NoDup l ->
  count (is_SourceStop s) (map SourceStop l) = if decide (s ∈ l) then 1%nat else 0%nat.
Proof.
  unfold count. induction 1 as [|x l Hx Hl IH]; [reflexivity|].
  cbn [map List.filter is_SourceStop].
  destruct (Nat.eqb_spec x s) as [->|Hne].
  - cbn [length]. rewrite IH.
    destruct (decide (s ∈ l)) as [Hin|_]; [contradiction|].
    destruct (decide (s ∈ s :: l)) as [_|Hn]; [reflexivity|].
    exfalso. apply Hn. left.
  - rewrite IH.
    destruct (decide (s ∈ l)) as [Hin|Hin], (decide (s ∈ x :: l)) as [Hin'|Hin'];
      try reflexivity.
    + exfalso. apply Hin'. right. exact Hin.
    + apply elem_of_cons in Hin' as [->|Hin']; contradiction.
Qed.

(** The flush of a well-formed world runs to its end. *)
Lemma flush_well_formed (w : World) :
  sources_started w ->
  flush w = Return tt (set_nextStartTimeRef 0
                         (set_audioSourcesRef ∅
                            (set_trace (trace w ++ map SourceStop
                                          (elements (audioSourcesRef w))) w))).
Proof.
  intros H. unfold flush, bind, get.
  rewrite forEach_stop_started; [reflexivity|].
  intros s Hs. apply H. apply elem_of_elements, list_elem_of_In. exact Hs.
Qed.

(** What a message adds to the trace: stops, preceded by the connection
    and the start of a source when a chunk was scheduled. *)
Lemma onmessage_events (currentTime : Q) (msg : LiveServerMessage) (w : World) :
  exists l,
    new_events w (run (onmessage currentTime msg) w) = map SourceStop l
    \/ exists buffer,
         new_events w (run (onmessage currentTime msg) w)
         = [NodeConnect (fresh w);
            SourceStart (fresh w) buffer (start_time currentTime (nextStartTimeRef w))]
           ++ map SourceStop l.
Proof.
  assert (Hflush : forall w0 : World, exists l,
             trace (run flush w0) = trace w0 ++ map SourceStop l).
  { intros w0. destruct (flush_run w0) as [l [-> | ->]]; exists l; reflexivity. }
  unfold run at 1 2. rewrite onmessage_unfold.
  assert (Hnone : exists l,
             new_events w (match (if interrupted msg then flush w else Return tt w) with
                           | Return _ w' => w' | Raise _ w' => w' end)
             = map SourceStop l).
  { destruct (interrupted msg).
    - destruct (Hflush w) as [l Hl]. exists l. apply new_events_app. exact Hl.
    - exists []. apply new_events_refl. }
  destruct (inlineData msg) as [[|c rest]|].
  - destruct Hnone as [l Hl]. exists l. left. exact Hl.
  - destruct (outputAudioContextRef w) as [ctx|];
      [|exists []; left; apply new_events_refl].
    destruct (let! bytes := decode (String c rest) in decodeAudioData bytes ctx 24000 1)
      as [buffer|e]; [|exists []; left; apply new_events_refl].
    destruct (interrupted msg).
    + destruct (Hflush (after_chunk currentTime buffer w)) as [l Hl].
      exists l. right. exists buffer. apply new_events_app.
      change (trace (run flush (after_chunk currentTime buffer w))
              = trace w ++ [NodeConnect (fresh w);
                            SourceStart (fresh w) buffer
                              (start_time currentTime (nextStartTimeRef w))]
                ++ map SourceStop l).
      rewrite Hl. cbn [after_chunk trace set_audioSourcesRef set_nextStartTimeRef set_trace].
      rewrite <- app_assoc. reflexivity.
    + exists []. right. exists buffer. apply new_events_app.
      cbn [after_chunk trace set_audioSourcesRef set_nextStartTimeRef set_trace map].
      rewrite app_nil_r. reflexivity.
  - destruct Hnone as [l Hl]. exists l. left. exact Hl.
Qed.

Lemma In_SourceStart_stops (s : nat) (b : AudioBuffer) (t : Q) (l : list nat) :
  ~ In (SourceStart s b t) (map SourceStop l).
Proof. intros H. apply List.in_map_iff in H as (x & Hx & _). discriminate. Qed.

(** The start times [onmessage] hands to the platform. *)
Lemma onmessage_start (currentTime : Q) (msg : LiveServerMessage) (w : World)
    (s : nat) (b : AudioBuffer) (t : Q) :
  In (SourceStart s b t) (new_events w (run (onmessage currentTime msg) w)) ->
  t = start_time currentTime (nextStartTimeRef w).
Proof.
  destruct (onmessage_events currentTime msg w) as [l [-> | [buffer ->]]]; intros H.
  - exfalso. exact (In_SourceStart_stops _ _ _ _ H).
  - cbn [app] in H. destruct H as [H | [H | H]].
    + discriminate.
    + injection H as _ _ <-. reflexivity.
    + exfalso. exact (In_SourceStart_stops _ _ _ _ H).
Qed.

Lemma start_time_spec (currentTime cursor : Q) :
  (currentTime <= start_time currentTime cursor)%Q
  /\ (cursor <= start_time currentTime cursor)%Q
  /\ ((cursor < currentTime)%Q -> start_time currentTime cursor = currentTime)
  /\ ((currentTime <= cursor)%Q -> start_time currentTime cursor = cursor)
  /\ (start_time currentTime cursor == Qmax currentTime cursor)%Q.
Proof.
  unfold start_time. destruct (Qlt_le_dec cursor currentTime) as [Hlt|Hle].
  - split; [lra|]. split; [lra|]. split; [reflexivity|].
    split; [intros H; lra|]. symmetry. apply Q.max_l. lra.
  - split; [lra|]. split; [lra|]. split; [intros H; lra|].
    split; [reflexivity|]. symmetry. apply Q.max_r. exact Hle.
Qed.

Lemma sources_started_after_chunk (currentTime : Q) (buffer : AudioBuffer) (w : World) :
  sources_started w -> sources_started (after_chunk currentTime buffer w).
Proof.
  intros H s Hs.
  cbn [after_chunk audioSourcesRef trace set_audioSourcesRef set_nextStartTimeRef
       set_trace set_fresh] in *.
  rewrite started_app.
  apply elem_of_union in Hs as [Hs|Hs].
  - apply elem_of_singleton in Hs as ->.
    replace (started (fresh w) [NodeConnect (fresh w); SourceStart (fresh w) buffer _])
      with true.
    + apply orb_true_r.
    + unfold started. cbn [existsb is_SourceStart]. rewrite Nat.eqb_refl. reflexivity.
  - rewrite (H s Hs). reflexivity.
Qed.

(** What [onmessage] does with a message that reaches the interrupted
    branch with the flag set. *)
Lemma onmessage_interrupted (currentTime : Q) (msg : LiveServerMessage) (w w1 : World) :
  interrupted msg = true ->
  at_interrupted_branch currentTime msg w = Some w1 ->
  onmessage currentTime msg w = flush w1
  /\ (sources_started w -> sources_started w1)
  /\ exists scheduled_now,
       trace w1 = trace w ++ scheduled_now
       /\ forall s, count (is_SourceStop s) scheduled_now = 0%nat.
Proof.
  intros Hint Hat. rewrite onmessage_unfold. unfold at_interrupted_branch in Hat.
  assert (Hsame : forall w0,
             w0 = w1 -> w0 = w ->
             (if interrupted msg then flush w0 else Return tt w0) = flush w1
             /\ (sources_started w -> sources_started w1)
             /\ exists scheduled_now,
                  trace w1 = trace w ++ scheduled_now
                  /\ forall s, count (is_SourceStop s) scheduled_now = 0%nat).
  { intros w0 <- ->. rewrite Hint. split; [reflexivity|]. split; [auto|].
    exists []. split; [symmetry; apply app_nil_r | reflexivity]. }
  destruct (inlineData msg) as [[|c rest]|].
  - injection Hat as Hat. apply Hsame; [exact Hat | reflexivity].
  - destruct (outputAudioContextRef w) as [ctx|]; [|discriminate].
    destruct (let! bytes := decode (String c rest) in decodeAudioData bytes ctx 24000 1)
      as [buffer|e]; [|discriminate].
    injection Hat as <-. rewrite Hint. split; [reflexivity|].
    split; [apply sources_started_after_chunk|].
    eexists. split; [reflexivity|]. intros s. reflexivity.
  - injection Hat as Hat. apply Hsame; [exact Hat | reflexivity].
Qed.

(** Claim C3 (interruption flush).  Let a message with the interruption
    flag reach the interrupted branch of [onmessage], in any world whose
    pending sources have all been started, the pending set being what it
    is at that moment (with the chunk of the message itself, if it carries
    one).  Then the handler ends without exception; the flush calls [stop]
    and nothing else; the pending set is empty afterwards and the cursor is
    [0]; [stop] has been called exactly once on every source that was in
    the set, and on no other; and a chunk scheduled by the next message,
    at device time [now >= 0], starts at [now], never earlier. *)
Theorem interruption_flush (w w1 : World) (currentTime : Q) (msg : LiveServerMessage) :
  sources_started w -> interrupted msg = true ->
  at_interrupted_branch currentTime msg w = Some w1 ->
  exists w',
    onmessage currentTime msg w = Return tt w'
    /\ audioSourcesRef w' = ∅
    /\ nextStartTimeRef w' = 0%Q
    /\ new_events w1 w' = map SourceStop (elements (audioSourcesRef w1))
    /\ (forall s, s ∈ audioSourcesRef w1 ->
                  count (is_SourceStop s) (new_events w w') = 1%nat)
    /\ (forall s, s ∉ audioSourcesRef w1 ->
                  count (is_SourceStop s) (new_events w w') = 0%nat)
    /\ (forall (now : Q) (msg' : LiveServerMessage) (s : nat) (b : AudioBuffer) (t : Q),
          (0 <= now)%Q ->
          In (SourceStart s b t) (new_events w' (run (onmessage now msg') w')) ->
          (t == now)%Q /\ (now <= t)%Q).
Proof.
  intros Hstarted Hint Hat.
  destruct (onmessage_interrupted currentTime msg w w1 Hint Hat)
    as (Hflush & Hkeeps & scheduled_now & Htrace & Hnone).
  eexists. split.
  { rewrite Hflush. apply flush_well_formed, Hkeeps, Hstarted. }
  split; [reflexivity|]. split; [reflexivity|].
  split; [apply new_events_app; reflexivity|].
  assert (Hev : forall w0,
             new_events w (set_nextStartTimeRef 0
                             (set_audioSourcesRef ∅
                                (set_trace (trace w1 ++ map SourceStop
                                              (elements (audioSourcesRef w1))) w0)))
             = scheduled_now ++ map SourceStop (elements (audioSourcesRef w1))).
  { intros w0. apply new_events_app. cbn [trace set_nextStartTimeRef set_audioSourcesRef
                                          set_trace].
    rewrite Htrace, <- app_assoc. reflexivity. }
  rewrite Hev.
  split; [|split].
  - intros s Hs. rewrite count_app, Hnone, count_stops by apply NoDup_elements.
    destruct (decide (s ∈ elements (audioSourcesRef w1))) as [_|Hn]; [reflexivity|].
    exfalso. apply Hn, elem_of_elements, Hs.
  - intros s Hs. rewrite count_app, Hnone, count_stops by apply NoDup_elements.
    destruct (decide (s ∈ elements (audioSourcesRef w1))) as [Hin|_]; [|reflexivity].
    exfalso. apply Hs, elem_of_elements, Hin.
  - intros now msg' s b t Hnow Hin.
    apply onmessage_start in Hin. subst t.
    cbn [nextStartTimeRef set_nextStartTimeRef].
    destruct (start_time_spec now 0) as (H1 & H2 & H3 & H4 & _).
    split; [|exact H1].
    destruct (Qlt_le_dec 0 now) as [Hlt|Hle].
    + rewrite (H3 Hlt). reflexivity.
    + rewrite (H4 Hle). lra.
Qed.

(** An interruption whose audio does not decode does not reach the branch:
    the handler ends in the exception, and nothing is stopped. *)
Example interruption_with_undecodable_audio :
  at_interrupted_branch 1 {| inlineData := Some "AA=="%string; interrupted := true |}
    demo_world = None
  /\ run (onmessage 1 {| inlineData := Some "AA=="%string; interrupted := true |})
         demo_world = demo_world.
Proof. split; vm_compute; reflexivity. Qed.

Lemma duration_decoded (data : list byte) (ctx : AudioContext) (numChannels : nat)
    (buffer : AudioBuffer) :
  decodeAudioData data ctx 24000 numChannels = Ok buffer ->
  sampleRate buffer = 24000%Q
  /\ ab_length buffer = frames (length data / 2) numChannels
  /\ (0 <= duration buffer)%Q.
Proof.
  rewrite decodeAudioData_eq. destruct (negb (Nat.even (length data))); [discriminate|].
  cbv zeta. destruct (_ || _ || _); [discriminate|]. intros [= <-].
  rewrite length_int16_view.
  split; [reflexivity|]. split; [reflexivity|].
  unfold duration. cbn [ab_length sampleRate].
  assert (H : (0 <= inject_Z (Z.of_nat (frames (length data / 2) numChannels)))%Q).
  { change 0%Q with (inject_Z 0). rewrite <- Zle_Qle. lia. }
  unfold Qdiv. change (/ 24000)%Q with (1 # 24000)%Q. lra.
Qed.

Lemma cursor_unchanged (c : Callback) (w : World) :
  match c with
  | CallOnMessage _ _ | CallStopSession => False
  | _ => True
  end ->
  nextStartTimeRef (exec c w) = nextStartTimeRef w.
Proof.
  destruct c as [r apiKey | r denied | s | env | processor inputData
                | currentTime msg | source | | | | r]; intros H; try contradiction;
    try (destruct_world w; reflexivity).
  - destruct_world w. unfold exec, startSession.
    destruct (r_isConnecting r || r_isConnected r); [reflexivity|].
    destruct apiKey as [[|c k]|]; reflexivity.
  - destruct_world w. destruct denied; reflexivity.
  - destruct_world w. destruct env as [r' st [ictx|] sp]; reflexivity.
  - unfold exec, run, audioprocess, bind, get.
    destruct (onaudioprocess_handlers w !! processor) as [env|]; [|reflexivity].
    unfold onaudioprocess. destruct (r_isMuted (env_render env)); reflexivity.
Qed.

Lemma cursor_onmessage (currentTime : Q) (msg : LiveServerMessage) (w : World) :
  interrupted msg = false ->
  (nextStartTimeRef w <= nextStartTimeRef (run (onmessage currentTime msg) w))%Q.
Proof.
  intros Hint. unfold run. rewrite onmessage_unfold, Hint.
  destruct (inlineData msg) as [[|c rest]|]; try lra.
  destruct (outputAudioContextRef w) as [ctx|]; [|lra].
  destruct (decode (String c rest)) as [bytes|e]; cbn [result_bind]; [|lra].
  destruct (decodeAudioData bytes ctx 24000 1) as [buffer|e] eqn:E; [|lra].
  destruct (duration_decoded _ _ _ _ E) as (_ & _ & Hd).
  cbn [after_chunk nextStartTimeRef set_audioSourcesRef set_nextStartTimeRef].
  destruct (start_time_spec currentTime (nextStartTimeRef w)) as (_ & H2 & _).
  lra.
Qed.

(** Claim C4 (playback clock).  Whenever [onmessage] starts a source, the
    start time is not behind the device's current time: it is the current
    time when the cursor has fallen behind it, and the cursor otherwise.
    No callback other than an interruption message (and the teardown, which
    ends the session) ever decreases the cursor. *)
Theorem playback_clock (w : World) :
  (forall (currentTime : Q) (msg : LiveServerMessage) (s : nat) (b : AudioBuffer) (t : Q),
      In (SourceStart s b t) (new_events w (run (onmessage currentTime msg) w)) ->
      (currentTime <= t)%Q
      /\ ((nextStartTimeRef w < currentTime)%Q -> t = currentTime)
      /\ ((currentTime <= nextStartTimeRef w)%Q -> t = nextStartTimeRef w))
  /\ (forall c : Callback,
        match c with
        | CallOnMessage _ msg => interrupted msg = false
        | CallStopSession => False
        | _ => True
        end ->
        (nextStartTimeRef w <= nextStartTimeRef (exec c w))%Q).
Proof.
  split.
  - intros currentTime msg s b t Hin. apply onmessage_start in Hin. subst t.
    destruct (start_time_spec currentTime (nextStartTimeRef w)) as (H1 & H2 & H3 & H4 & _).
    auto.
  - intros c Hc.
    destruct c as [r apiKey | r denied | s | env | processor inputData
                  | currentTime msg | source | | | | r];
      try contradiction;
      try (rewrite cursor_unchanged by exact I; lra).
    apply cursor_onmessage, Hc.
Qed.

(* ===================================================================== *)
(** ** Gapless scheduling                                                 *)
(* ===================================================================== *)

Lemma fold_left_last {A B} (f : B -> A) (l : list B) (c : A) :
  fold_left (fun _ x => f x) l c = match last l with Some x => f x | None => c end.
Proof.
  revert c. induction l as [|x l IH]; intros c; [reflexivity|].
  cbn [fold_left]. rewrite IH. destruct l as [|y l]; [reflexivity|].
  change (last (x :: y :: l)) with (last (y :: l)).
  destruct (last (y :: l)) eqn:E; [reflexivity|].
  apply last_None in E. discriminate.
Qed.

Lemma onmessage_chunk (ctx : nat) (currentTime : Q) (msg : LiveServerMessage)
    (buffer : AudioBuffer) (w : World) :
  outputAudioContextRef w = Some ctx ->
  is_chunk ctx msg buffer ->
  onmessage currentTime msg w = Return tt (after_chunk currentTime buffer w).
Proof.
  intros Hctx (Hint & c & rest & Hdata & Hdec).
  rewrite onmessage_unfold, Hdata, Hctx, Hdec, Hint. reflexivity.
Qed.

Lemma scheduled_app (a b : list Event) : scheduled (a ++ b) = scheduled a ++ scheduled b.
Proof. unfold scheduled. apply flat_map_app. Qed.

(** A run of chunks follows the plan. *)
Lemma deliver_plan (ctx : nat) (arrivals : list Arrival) (w : World) :
  outputAudioContextRef w = Some ctx ->
  Forall (fun a => is_chunk ctx (arrival_message a) (arrival_buffer a)) arrivals ->
  let w' := exec_all (deliver arrivals) w in
  exists evs,
    trace w' = trace w ++ evs
    /\ scheduled evs
       = plan (nextStartTimeRef w)
              (map (fun a => (arrival_time a, duration (arrival_buffer a))) arrivals)
    /\ nextStartTimeRef w'
       = fold_left (fun _ sd => (fst sd + snd sd)%Q) (scheduled evs) (nextStartTimeRef w).
Proof.
  intros Hctx Hall. revert w Hctx.
  induction Hall as [|a arrivals Ha Hall IH]; intros w Hctx w'.
  - exists []. subst w'. cbn. rewrite app_nil_r. auto.
  - subst w'. cbn [deliver map exec_all fold_left exec].
    rewrite (run_Return _ _ _ tt (onmessage_chunk ctx _ _ _ w Hctx Ha)).
    set (w1 := after_chunk (arrival_time a) (arrival_buffer a) w).
    destruct (IH w1 Hctx) as (evs & Htr & Hs & Hc).
    exists ([NodeConnect (fresh w);
             SourceStart (fresh w) (arrival_buffer a)
               (start_time (arrival_time a) (nextStartTimeRef w))] ++ evs).
    split; [|split].
    + fold (deliver arrivals). fold (exec_all (deliver arrivals) w1).
      rewrite Htr. unfold w1.
      cbn [after_chunk trace set_audioSourcesRef set_nextStartTimeRef set_trace].
      rewrite <- app_assoc. reflexivity.
    + rewrite scheduled_app, Hs. reflexivity.
    + fold (deliver arrivals). fold (exec_all (deliver arrivals) w1).
      rewrite Hc, scheduled_app. reflexivity.
Qed.

Lemma plan_length (cursor : Q) (arrivals : list (Q * Q)) :
  length (plan cursor arrivals) = length arrivals.
Proof.
  revert cursor. induction arrivals as [|[t d] r IH]; intros cursor; [reflexivity|].
  cbn [plan length]. rewrite IH. reflexivity.
Qed.

Lemma plan_head (cursor : Q) (arrivals : list (Q * Q)) (t d start d' : Q) :
  arrivals !! 0%nat = Some (t, d) -> plan cursor arrivals !! 0%nat = Some (start, d') ->
  start = start_time t cursor /\ d' = d.
Proof.
  destruct arrivals as [|[t0 d0] r]; [discriminate|].
  cbn. intros [= -> ->] [= <- <-]. auto.
Qed.

Lemma plan_lookup (cursor : Q) (arrivals : list (Q * Q)) (i : nat) (t d start d' : Q) :
  arrivals !! i = Some (t, d) -> plan cursor arrivals !! i = Some (start, d') ->
  (t <= start)%Q /\ d' = d.
Proof.
  revert cursor i. induction arrivals as [|[t0 d0] r IH]; intros cursor i; [discriminate|].
  destruct i as [|i].
  - intros Ha Hp. destruct (plan_head cursor _ _ _ _ _ Ha Hp) as [-> ->].
    split; [apply start_time_spec | reflexivity].
  - cbn. apply IH.
Qed.

Lemma plan_step (cursor : Q) (arrivals : list (Q * Q)) (i : nat)
    (start d t' d0 start' d' : Q) :
  plan cursor arrivals !! i = Some (start, d) ->
  plan cursor arrivals !! S i = Some (start', d') ->
  arrivals !! S i = Some (t', d0) ->
  start' = start_time t' (start + d).
Proof.
  revert cursor i. induction arrivals as [|[t0 d1] r IH]; intros cursor i; [discriminate|].
  destruct i as [|i].
  - cbn [plan]. intros [= <- <-] Hp Ha.
    change ((r : list (Q * Q)) !! 0%nat = Some (t', d0)) in Ha.
    change (plan (start_time t0 cursor + d1) r !! 0%nat = Some (start', d')) in Hp.
    destruct (plan_head _ _ _ _ _ _ Ha Hp) as [-> _]. reflexivity.
  - cbn [plan]. intros Hp Hp' Ha. exact (IH _ _ Hp Hp' Ha).
Qed.

(** Claim C2 (gapless scheduling).  For every run of chunk messages
    delivered while the output context is open: one source is started per
    chunk; the first starts at the maximum of the device time at arrival
    and the cursor, every later one at the maximum of its arrival time and
    the end of the previous chunk (start plus duration, which is where the
    cursor was advanced to); a chunk's duration is its sample count over
    24000; and a chunk arriving no later than the end of the previous one
    starts exactly at that end: [start' = start + d]. *)
Theorem gapless_scheduling (w : World) (ctx : nat) (arrivals : list Arrival) :
  outputAudioContextRef w = Some ctx ->
  Forall (fun a => is_chunk ctx (arrival_message a) (arrival_buffer a)) arrivals ->
  let w' := exec_all (deliver arrivals) w in
  let schedule := scheduled (new_events w w') in
  length schedule = length arrivals
  /\ (forall (a : Arrival) (start d : Q),
        arrivals !! 0%nat = Some a -> schedule !! 0%nat = Some (start, d) ->
        start = start_time (arrival_time a) (nextStartTimeRef w)
        /\ (start == Qmax (arrival_time a) (nextStartTimeRef w))%Q)
  /\ (forall (i : nat) (a : Arrival) (start d : Q),
        arrivals !! i = Some a -> schedule !! i = Some (start, d) ->
        (arrival_time a <= start)%Q
        /\ d = duration (arrival_buffer a)
        /\ (d == inject_Z (Z.of_nat (ab_length (arrival_buffer a))) / 24000)%Q)
  /\ (forall (i : nat) (a' : Arrival) (start d start' d' : Q),
        schedule !! i = Some (start, d) ->
        schedule !! S i = Some (start', d') ->
        arrivals !! S i = Some a' ->
        (start' == Qmax (arrival_time a') (start + d))%Q
        /\ ((arrival_time a' <= start + d)%Q -> start' = (start + d)%Q))
  /\ nextStartTimeRef w'
     = match last schedule with
       | Some (start, d) => (start + d)%Q
       | None => nextStartTimeRef w
       end.
Proof.
  intros Hctx Hall w' schedule.
  destruct (deliver_plan ctx arrivals w Hctx Hall) as (evs & Htr & Hs & Hc).
  fold w' in Htr, Hc.
  assert (Hsched : schedule
                   = plan (nextStartTimeRef w)
                       (map (fun a => (arrival_time a, duration (arrival_buffer a)))
                            arrivals)).
  { unfold schedule. rewrite (new_events_app _ _ _ Htr). exact Hs. }
  assert (Hlk : forall i a, arrivals !! i = Some a ->
      map (fun a => (arrival_time a, duration (arrival_buffer a))) arrivals !! i
      = Some (arrival_time a, duration (arrival_buffer a))).
  { intros i a Ha. rewrite list_lookup_fmap, Ha. reflexivity. }
  split; [|split; [|split; [|split]]].
  - rewrite Hsched, plan_length, length_map. reflexivity.
  - intros a start d Ha Hp. rewrite Hsched in Hp.
    destruct (plan_head _ _ _ _ _ _ (Hlk _ _ Ha) Hp) as [-> _].
    split; [reflexivity | apply start_time_spec].
  - intros i a start d Ha Hp. rewrite Hsched in Hp.
    destruct (plan_lookup _ _ _ _ _ _ _ (Hlk _ _ Ha) Hp) as [H1 ->].
    split; [exact H1|]. split; [reflexivity|].
    rewrite List.Forall_forall in Hall.
    assert (Hin : In a arrivals)
      by (apply list_elem_of_In; eapply list_elem_of_lookup_2; exact Ha).
    destruct (Hall a Hin) as (_ & c & rest & _ & Hdec).
    destruct (decode (String c rest)) as [bytes|e]; [|discriminate].
    cbn [result_bind] in Hdec.
    destruct (duration_decoded _ _ _ _ Hdec) as (Hrate & _ & _).
    unfold duration. rewrite Hrate. reflexivity.
  - intros i a' start d start' d' Hp Hp' Ha'. rewrite Hsched in Hp, Hp'.
    rewrite (plan_step _ _ _ _ _ _ _ _ _ Hp Hp' (Hlk _ _ Ha')).
    split; [apply start_time_spec|]. intros Hle. apply start_time_spec. exact Hle.
  - rewrite Hc. unfold schedule. rewrite (new_events_app _ _ _ Htr).
    rewrite (fold_left_last (fun sd : Q * Q => (fst sd + snd sd)%Q)).
    destruct (last (scheduled evs)) as [[start d]|]; reflexivity.
Qed.

Lemma demo_reachable : reachable demo_world.
Proof. exists demo_persona, (demo_open ++ deliver demo_arrivals). reflexivity. Qed.

Lemma demo_is_chunk : is_chunk 1 demo_chunk demo_buffer.
Proof. split; [reflexivity|]. exists "A"%char, "EAAgACAAAA="%string. split; reflexivity. Qed.

Example demo_world_cursor :
  nextStartTimeRef demo_world = ((3 # 4) + duration demo_buffer)%Q
  /\ size (audioSourcesRef demo_world) = 3%nat
  /\ scheduled (trace demo_world)
     = [(1 # 2, duration demo_buffer); ((1 # 2) + duration demo_buffer, duration demo_buffer);
        (3 # 4, duration demo_buffer)]%Q.
Proof. repeat split; vm_compute; reflexivity. Qed.

(* ===================================================================== *)
(** ** Opening and muting                                                 *)
(* ===================================================================== *)





(** The capture callback looks at the [isMuted] of its closure only. *)
Lemma onaudioprocess_forwards (env : SessionEnv) (inputData : list float) (w : World) :
  r_isMuted (env_render env) = false ->
  onaudioprocess env inputData w
  = Return tt (set_trace (trace w ++ [SendRealtimeInput (env_sessionPromise env)
                                        (createBlob inputData)]) w).
Proof. intros H. unfold onaudioprocess. rewrite H. reflexivity. Qed.

Lemma toggleMute_handlers (r : Render) (w : World) :
  onaudioprocess_handlers (run (toggleMute r) w) = onaudioprocess_handlers w.
Proof. reflexivity. Qed.

(** What an [audioprocess] event does is the same whatever the mute state
    is at the time. *)
Lemma audioprocess_ignores_isMuted (processor : nat) (inputData : list float)
    (b : bool) (w : World) :
  run (audioprocess processor inputData) (set_isMuted b w)
  = set_isMuted b (run (audioprocess processor inputData) w).
Proof.
  unfold run, audioprocess, bind, get.
  change (onaudioprocess_handlers (set_isMuted b w)) with (onaudioprocess_handlers w).
  destruct (onaudioprocess_handlers w !! processor) as [env|]; [|reflexivity].
  unfold onaudioprocess. destruct (r_isMuted (env_render env)); reflexivity.
Qed.

(** Claim C5 (mute), where the code departs from it.  In the concrete run
    the session was opened unmuted; the mute button is then pressed, so the
    state [isMuted] is true; yet the next [audioprocess] event on the
    session's processor sends its frame: the handler tests the [isMuted]
    its closure captured when the session started. *)
Theorem mute_engaged_frame_forwarded :
  let w := exec (CallToggleMute (render demo_world)) demo_world in
  isMuted demo_world = false
  /\ isMuted w = true
  /\ processorRef w = Some 5%nat
  /\ new_events w (exec (CallAudioProcess 5 [Finite (1 # 2)]) w)
     = [SendRealtimeInput 3 (createBlob [Finite (1 # 2)])]
  /\ count is_SendRealtimeInput
       (new_events w (exec (CallAudioProcess 5 [Finite (1 # 2)]) w)) = 1%nat.
Proof. repeat split; vm_compute; reflexivity. Qed.

(** The converse case: a session opened while muted sends nothing, also
    after the mute is taken off. *)
Example unmuted_frame_not_forwarded :
  let muted := exec (CallToggleMute demo_render) (initial_world demo_persona) in
  let env := {| env_render := render muted; env_stream := 2;
                env_inputCtx := Some 0%nat; env_sessionPromise := 3 |} in
  let opened :=
    exec_all [CallStartSession (render muted) (Some "key"%string);
              CallStartSessionResume (render muted) None;
              CallOnOpen env] muted in
  let w := exec (CallToggleMute (render opened)) opened in
  isMuted opened = true
  /\ isMuted w = false
  /\ processorRef w = Some 5%nat
  /\ new_events w (exec (CallAudioProcess 5 [Finite (1 # 2)]) w) = [].
Proof. repeat split; vm_compute; reflexivity. Qed.

(** Nothing was ever started: teardown releases nothing. *)
Example stopSession_initial :
  new_events (initial_world demo_persona)
    (Nat.iter 2 (run stopSession) (initial_world demo_persona)) = [].
Proof. vm_compute. reflexivity. Qed.

(* ===================================================================== *)
(** ** The theorems at the concrete run                                   *)
(* ===================================================================== *)

Lemma gapless_scheduling_witness :
  outputAudioContextRef (exec_all demo_open (initial_world demo_persona)) = Some 1%nat
  /\ Forall (fun a => is_chunk 1 (arrival_message a) (arrival_buffer a)) demo_arrivals
  /\ length (scheduled (new_events (exec_all demo_open (initial_world demo_persona))
                          (exec_all (deliver demo_arrivals)
                             (exec_all demo_open (initial_world demo_persona)))))
     = 3%nat.
Proof.
  assert (H1 : outputAudioContextRef (exec_all demo_open (initial_world demo_persona))
               = Some 1%nat) by reflexivity.
  assert (H2 : Forall (fun a => is_chunk 1 (arrival_message a) (arrival_buffer a))
                      demo_arrivals).
  { repeat (apply List.Forall_cons; [exact demo_is_chunk|]). apply List.Forall_nil. }
  split; [exact H1|]. split; [exact H2|].
  exact (proj1 (gapless_scheduling _ 1%nat demo_arrivals H1 H2)).
Defined.

Lemma interruption_flush_witness :
  sources_started demo_world
  /\ exists w',
       onmessage (7 # 8) {| inlineData := None; interrupted := true |} demo_world
       = Return tt w'
       /\ audioSourcesRef w' = ∅
       /\ count (is_SourceStop 6) (new_events demo_world w') = 1%nat
       /\ count (is_SourceStop 7) (new_events demo_world w') = 1%nat
       /\ count (is_SourceStop 8) (new_events demo_world w') = 1%nat
       /\ count (is_SourceStop 9) (new_events demo_world w') = 0%nat.
Proof.
  assert (Hs : sources_started demo_world)
    by exact (proj1 (reachable_well_formed demo_world demo_reachable)).
  assert (E : elements (audioSourcesRef demo_world) = [6; 8; 7]%nat)
    by (vm_compute; reflexivity).
  assert (Hin : forall s, In s [6; 8; 7]%nat -> s ∈ audioSourcesRef demo_world).
  { intros s H. apply elem_of_elements. rewrite E. apply list_elem_of_In, H. }
  assert (Hout : 9%nat ∉ audioSourcesRef demo_world).
  { intros H. apply elem_of_elements in H. rewrite E in H.
    apply list_elem_of_In in H. cbn in H. lia. }
  split; [exact Hs|].
  destruct (interruption_flush demo_world demo_world (7 # 8)
              {| inlineData := None; interrupted := true |}
              Hs eq_refl eq_refl) as (w' & H1 & H2 & _ & _ & H5 & H6 & _).
  exists w'. split; [exact H1|]. split; [exact H2|].
  split; [apply H5, Hin; cbn; tauto|].
  split; [apply H5, Hin; cbn; tauto|].
  split; [apply H5, Hin; cbn; tauto|].
  apply H6, Hout.
Defined.



(* ===================================================================== *)
(** * Further properties                                                  *)
(* ===================================================================== *)

(* ===================================================================== *)
(** ** More on the codec                                                  *)
(* ===================================================================== *)

Lemma int16_view_lookup (bytes : list byte) (k : nat) :
  (k < length bytes / 2)%nat ->
  exists lo hi,
    bytes !! (2 * k)%nat = Some lo
    /\ bytes !! (2 * k + 1)%nat = Some hi
    /\ int16_view bytes !! k = Some (int16_of_bytes lo hi).
Proof.
  revert k. induction bytes as [| a | lo hi rest IH] using list_ind2; intros k Hk.
  - cbn in Hk. lia.
  - cbn in Hk. lia.
  - destruct k as [|k].
    + exists lo, hi. repeat split; reflexivity.
    + change (length (lo :: hi :: rest)) with (1 * 2 + length rest)%nat in Hk.
      rewrite Nat.div_add_l in Hk by lia.
      destruct (IH k ltac:(lia)) as (lo' & hi' & H1 & H2 & H3).
      exists lo', hi'.
      replace (2 * S k)%nat with (S (S (2 * k))) by lia.
      replace (S (S (2 * k)) + 1)%nat with (S (S (2 * k + 1))) by lia.
      repeat split; assumption.
Qed.

Lemma decoded_channels_lookup (a : list Z) (numChannels len channel i : nat) :
  (channel < numChannels)%nat -> (i < len)%nat ->
  exists channelData,
    decoded_channels a numChannels len !! channel = Some channelData
    /\ length channelData = len
    /\ channelData !! i = Some (read_scaled a (i * numChannels + channel)).
Proof.
  intros Hc Hi. unfold decoded_channels.
  eexists. split; [|split].
  - rewrite list_lookup_fmap, lookup_seq_lt by exact Hc. reflexivity.
  - rewrite length_map, length_seq. reflexivity.
  - rewrite list_lookup_fmap, lookup_seq_lt by exact Hi. reflexivity.
Qed.

(** De-interleaving: sample [i] of channel [c] of the decoded buffer is the
    little-endian 16-bit integer at sample index [i * numChannels + c] of
    the packet, over 32768; every channel has the buffer's length, and the
    samples beyond the last whole frame are left out. *)
Theorem decodeAudioData_layout (bytes : list byte) (ctx : AudioContext) (rate : Q)
    (numChannels : nat) (buffer : AudioBuffer) :
  decodeAudioData bytes ctx rate numChannels = Ok buffer ->
  numberOfChannels buffer = numChannels
  /\ sampleRate buffer = rate
  /\ length (channels buffer) = numChannels
  /\ (0 < ab_length buffer)%nat
  /\ (ab_length buffer * numChannels <= length bytes / 2)%nat
  /\ (Z.of_nat (length bytes) < 8589934592 ->
      ab_length buffer = (length bytes / 2 / numChannels)%nat)
  /\ forall channel i : nat,
       (channel < numChannels)%nat -> (i < ab_length buffer)%nat ->
       exists (channelData : list float) (lo hi : byte),
         channels buffer !! channel = Some channelData
         /\ length channelData = ab_length buffer
         /\ bytes !! (2 * (i * numChannels + channel))%nat = Some lo
         /\ bytes !! (2 * (i * numChannels + channel) + 1)%nat = Some hi
         /\ channelData !! i = Some (Finite (inject_Z (int16_of_bytes lo hi) / 32768)).
Proof.
  rewrite decodeAudioData_eq.
  destruct (negb (Nat.even (length bytes))); [discriminate|].
  cbv zeta. rewrite length_int16_view.
  destruct (numChannels =? 0)%nat eqn:Ech; [discriminate|].
  destruct (frames (length bytes / 2) numChannels =? 0)%nat eqn:Elen; [discriminate|].
  destruct (Qle_bool rate 0); [discriminate|].
  cbn [orb]. intros [= <-]. cbn [numberOfChannels sampleRate channels ab_length].
  apply Nat.eqb_neq in Ech. apply Nat.eqb_neq in Elen.
  pose proof (frames_le (length bytes / 2) numChannels) as Hle.
  split; [reflexivity|]. split; [reflexivity|].
  split; [unfold decoded_channels; rewrite length_map, length_seq; reflexivity|].
  change (Nat.divmod (length bytes) 1 0 1).1 with (length bytes / 2)%nat.
  split; [lia|]. split; [exact Hle|]. split.
  - intros Hmax. unfold frames.
    assert (Hn : Z.of_nat (length bytes / 2) < 4294967296).
    { pose proof (Nat.Div0.div_mod (length bytes) 2).
      pose proof (Nat.mod_upper_bound (length bytes) 2). lia. }
    assert (H0 : 0 <= Z.of_nat (length bytes / 2) / Z.of_nat numChannels)
      by (apply Z.div_pos; lia).
    assert (H1 : Z.of_nat (length bytes / 2) / Z.of_nat numChannels
                 <= Z.of_nat (length bytes / 2))
      by (apply Z.div_le_upper_bound; nia).
    rewrite Z.mod_small by lia. rewrite <- Nat2Z.inj_div. apply Nat2Z.id.
  - intros channel i Hc Hi.
    destruct (decoded_channels_lookup (int16_view bytes) numChannels _ channel i Hc Hi)
      as (channelData & H1 & H2 & H3).
    destruct (int16_view_lookup bytes (i * numChannels + channel) ltac:(nia))
      as (lo & hi & Hlo & Hhi & Hv).
    exists channelData, lo, hi. repeat split; try assumption.
    rewrite H3. unfold read_scaled. rewrite Hv. reflexivity.
Qed.

Lemma decodeAudioData_layout_witness :
  numberOfChannels
    {| numberOfChannels := 2; ab_length := 1; sampleRate := 24000;
       channels := [[Finite (16384 / 32768)]; [Finite (-32768 / 32768)]] |} = 2%nat.
Proof.
  exact (proj1 (decodeAudioData_layout [x00; x40; x00; x80; xff; x7f] 0%nat 24000 2
                  _ eq_refl)).
Defined.

Lemma int16_bytes_of_bytes (lo hi : byte) :
  int16_bytes (int16_of_bytes lo hi) = [lo; hi].
Proof.
  unfold int16_bytes, int16_of_bytes. rewrite wrap16_mod.
  pose proof (byte_to_Z_range lo) as Hlo. pose proof (byte_to_Z_range hi) as Hhi.
  rewrite (Z.mod_small (byte_to_Z lo + 256 * byte_to_Z hi)) by lia.
  replace ((byte_to_Z lo + 256 * byte_to_Z hi) mod 256) with (byte_to_Z lo)
    by (Z.div_mod_to_equations; lia).
  replace ((byte_to_Z lo + 256 * byte_to_Z hi) / 256) with (byte_to_Z hi)
    by (Z.div_mod_to_equations; lia).
  rewrite !byte_of_to_Z. reflexivity.
Qed.

Lemma Int16Array_buffer_view (bytes : list byte) :
  Nat.even (length bytes) = true -> Int16Array_buffer (int16_view bytes) = bytes.
Proof.
  induction bytes as [| a | lo hi rest IH] using list_ind2; intros H.
  - reflexivity.
  - discriminate.
  - cbn [int16_view]. unfold Int16Array_buffer in *. cbn [flat_map].
    rewrite int16_bytes_of_bytes, IH by exact H. reflexivity.
Qed.

Lemma truncate_unscale (v : Z) : truncate (inject_Z v / 32768 * 32768) = v.
Proof.
  unfold truncate, Qdiv, Qmult, Qinv, inject_Z. cbn [Qnum Qden].
  rewrite Z.mul_1_r. change (Z.pos (1 * 32768 * 1)) with 32768.
  apply Z.quot_mul. lia.
Qed.

(** Decoding and encoding again: the samples [decodeAudioData] makes of a
    one-channel packet are encoded by [createBlob] to the bytes they came
    from. *)
Theorem encode_decoded (bytes : list byte) (ctx : AudioContext) (rate : Q) :
  Nat.even (length bytes) = true -> (0 < length bytes)%nat ->
  Z.of_nat (length bytes) < 8589934592 -> (0 < rate)%Q ->
  exists channelData : list float,
    decodeAudioData bytes ctx rate 1
    = Ok {| numberOfChannels := 1; ab_length := (length bytes / 2)%nat;
            sampleRate := rate; channels := [channelData] |}
    /\ decode (data (createBlob channelData)) = Ok bytes.
Proof.
  intros Hev Hpos Hmax Hrate.
  exists (map (fun v => Finite (inject_Z v / 32768)) (int16_view bytes)).
  assert (Hn : (0 < length bytes / 2)%nat).
  { destruct bytes as [|a [|b r]]; try discriminate; [cbn in Hpos; lia|].
    change (length (a :: b :: r)) with (1 * 2 + length r)%nat.
    rewrite Nat.div_add_l by lia. lia. }
  assert (Hn' : Z.of_nat (length bytes / 2) < 4294967296).
  { pose proof (Nat.Div0.div_mod (length bytes) 2).
    pose proof (Nat.mod_upper_bound (length bytes) 2). lia. }
  split.
  - rewrite decodeAudioData_eq, Hev. cbn [negb]. cbv zeta.
    rewrite length_int16_view.
    assert (Hf : frames (length bytes / 2) 1 = (length bytes / 2)%nat).
    { unfold frames. rewrite Z.div_1_r, Z.mod_small by lia. lia. }
    rewrite Hf.
    replace (length bytes / 2 =? 0)%nat with false by (symmetry; apply Nat.eqb_neq; lia).
    replace (Qle_bool rate 0) with false.
    2:{ symmetry. apply not_true_is_false. intros H. apply Qle_bool_iff in H. lra. }
    cbn [Nat.eqb orb]. rewrite <- (length_int16_view bytes) at 2.
    rewrite decoded_channels_mono. reflexivity.
  - rewrite decode_createBlob, map_map.
    rewrite (map_ext_in _ (fun v => v)), map_id.
    + rewrite Int16Array_buffer_view by exact Hev. reflexivity.
    + intros v Hv. cbn [float_scale ToInt16]. rewrite truncate_unscale.
      apply wrap16_small.
      pose proof (int16_view_range bytes) as Hr.
      rewrite List.Forall_forall in Hr. exact (Hr v Hv).
Qed.

Lemma encode_decoded_witness :
  exists channelData : list float,
    decodeAudioData [x00; x40; xff; x7f] 0%nat 24000 1
    = Ok {| numberOfChannels := 1; ab_length := 2; sampleRate := 24000;
            channels := [channelData] |}
    /\ decode (data (createBlob channelData)) = Ok [x00; x40; xff; x7f].
Proof.
  apply (encode_decoded [x00; x40; xff; x7f] 0%nat 24000).
  - reflexivity.
  - cbn. lia.
  - cbn. lia.
  - reflexivity.
Defined.

(** Two frames make the same packet exactly when their samples convert to
    the same 16-bit integers; the MIME type of a packet is always
    [audio/pcm;rate=16000]. *)
Theorem createBlob_injective (a b : list float) :
  (createBlob a = createBlob b
   <-> map (fun x => ToInt16 (float_scale 32768 x)) a
       = map (fun x => ToInt16 (float_scale 32768 x)) b)
  /\ mimeType (createBlob a) = "audio/pcm;rate=16000"%string.
Proof.
  split; [|reflexivity]. split.
  - intros H.
    assert (Hd : decode (data (createBlob a)) = decode (data (createBlob b)))
      by (rewrite H; reflexivity).
    rewrite !decode_createBlob in Hd. injection Hd as Hd.
    apply (f_equal int16_view) in Hd.
    rewrite !int16_view_buffer in Hd; [exact Hd| |];
      apply List.Forall_forall; intros v Hv;
      apply List.in_map_iff in Hv as (x & <- & _); apply ToInt16_range.
  - intros H. unfold createBlob. rewrite H. reflexivity.
Qed.

Lemma length_string_of_list_ascii (l : list ascii) :
  String.length (string_of_list_ascii l) = length l.
Proof. induction l as [|c l IH]; [reflexivity|]. cbn. rewrite IH. reflexivity. Qed.

Lemma length_base64_encode_exact (l : list Z) :
  length (base64_encode l) = (4 * ((length l + 2) / 3))%nat.
Proof.
  induction l as [| a | a b | a b c r IH] using list_ind3; try reflexivity.
  cbn [base64_encode length]. rewrite IH.
  replace (S (S (S (length r))) + 2)%nat with (1 * 3 + (length r + 2))%nat by lia.
  rewrite Nat.div_add_l by lia. lia.
Qed.

(** Size of a packet: four characters for every three bytes, i.e. for a
    frame of [n] samples, [4 * ceil(2n / 3)] characters. *)
Theorem createBlob_length (samples : list float) :
  String.length (data (createBlob samples))
  = (4 * ((2 * length samples + 2) / 3))%nat.
Proof.
  unfold createBlob, btoa. cbn [data].
  rewrite length_string_of_list_ascii, length_base64_encode_exact.
  rewrite length_map, list_ascii_of_string_of_list_ascii, length_map.
  rewrite length_Int16Array_buffer, length_map. reflexivity.
Qed.

(* ===================================================================== *)
(** ** More invariants of the reachable worlds                            *)
(* ===================================================================== *)

Ltac tidy_cbv :=
  cbv [run exec startSession startSession_resume session_resolved onopen
       onaudioprocess audioprocess onended onclose onerror toggleMute
       new_AudioContext new_object emit modify get bind ret throw try_catch
       setIsConnecting setIsConnected setIsMuted
       set_isConnecting set_isConnected set_isMuted set_inputAudioContextRef
       set_outputAudioContextRef set_streamRef set_processorRef set_sourceRef
       set_nextStartTimeRef set_audioSourcesRef set_sessionRef
       set_activeSessionRef set_onaudioprocess_handlers set_fresh set_trace
       isConnecting isConnected isMuted selectedPersona inputAudioContextRef
       outputAudioContextRef streamRef processorRef sourceRef nextStartTimeRef
       audioSourcesRef sessionRef activeSessionRef onaudioprocess_handlers
       fresh trace after_chunk env_render env_stream env_inputCtx env_sessionPromise
       tidy pending_known idle_when_closed] in *.

Lemma tidy_initial (persona : VoicePersona) : tidy (initial_world persona).
Proof.
  split; [|split].
  - intros s Hs. cbn [initial_world audioSourcesRef] in Hs. set_solver.
  - intros _. split; reflexivity.
  - cbn [initial_world nextStartTimeRef]. lra.
Qed.

Lemma tidy_set_trace (w : World) (evs : list Event) :
  tidy w -> tidy (set_trace evs w).
Proof. destruct_world w. tidy_cbv. auto. Qed.

Lemma tidy_flushed (w : World) :
  pending_known w -> tidy (set_nextStartTimeRef 0 (set_audioSourcesRef ∅ w)).
Proof.
  destruct_world w. tidy_cbv. intros H. split; [|split].
  - intros s Hs. set_solver.
  - intros _. split; reflexivity.
  - lra.
Qed.

Lemma tidy_flush (w : World) : tidy w -> tidy (run flush w).
Proof.
  intros H. destruct (flush_run w) as [l [-> | ->]].
  - apply tidy_set_trace, H.
  - apply tidy_flushed. apply (tidy_set_trace w (trace w ++ map SourceStop l)) in H.
    exact (proj1 H).
Qed.

Lemma tidy_after_chunk (ctx : nat) (currentTime : Q) (buffer : AudioBuffer) (w : World) :
  outputAudioContextRef w = Some ctx -> (0 <= duration buffer)%Q ->
  tidy w -> tidy (after_chunk currentTime buffer w).
Proof.
  intros Hctx Hd (H1 & H2 & H3).
  pose proof (start_time_spec currentTime (nextStartTimeRef w)) as (_ & Hs & _).
  destruct_world w. tidy_cbv. cbn [outputAudioContextRef] in Hctx. subst.
  split; [|split].
  - intros s Hs'. apply elem_of_union in Hs' as [Hs'|Hs'].
    + apply elem_of_singleton in Hs'. lia.
    + specialize (H1 s Hs'). lia.
  - discriminate.
  - cbn [nextStartTimeRef] in Hs. lra.
Qed.

Lemma tidy_onmessage (currentTime : Q) (msg : LiveServerMessage) (w : World) :
  tidy w -> tidy (run (onmessage currentTime msg) w).
Proof.
  intros H. unfold run at 1. rewrite onmessage_unfold.
  destruct (inlineData msg) as [[|c rest]|].
  - destruct (interrupted msg); [apply tidy_flush, H | exact H].
  - destruct (outputAudioContextRef w) as [ctx|] eqn:Hctx; [|exact H].
    destruct (decode (String c rest)) as [bytes|e]; cbn [result_bind]; [|exact H].
    destruct (decodeAudioData bytes ctx 24000 1) as [buffer|e] eqn:E; [|exact H].
    destruct (duration_decoded _ _ _ _ E) as (_ & _ & Hd).
    destruct (interrupted msg).
    + apply tidy_flush, (tidy_after_chunk ctx); assumption.
    + apply (tidy_after_chunk ctx); assumption.
  - destruct (interrupted msg); [apply tidy_flush, H | exact H].
Qed.

Lemma tidy_stopped (w : World) : tidy (stopped w).
Proof.
  split; [|split].
  - intros s Hs. cbn [stopped audioSourcesRef] in Hs. set_solver.
  - intros _. split; reflexivity.
  - cbn [stopped nextStartTimeRef]. lra.
Qed.

Lemma exec_tidy (c : Callback) (w : World) : tidy w -> tidy (exec c w).
Proof.
  intros H. destruct c as [r apiKey | r denied | s | env | processor inputData
                          | currentTime msg | source | | | | r].
  - destruct_world w. unfold exec, startSession.
    destruct (r_isConnecting r || r_isConnected r); [exact H|].
    destruct apiKey as [[|c k]|]; tidy_cbv; destruct H as (H1 & H2 & H3);
      (split; [|split; [|exact H3]]); try exact H1; try exact H2.
    + intros s Hs. specialize (H1 s Hs). lia.
    + discriminate.
  - destruct_world w. destruct denied; tidy_cbv; destruct H as (H1 & H2 & H3);
      (split; [|split; [exact H2 | exact H3]]); try exact H1.
    intros s Hs. specialize (H1 s Hs). lia.
  - destruct_world w. exact H.
  - destruct_world w. destruct env as [r' st [ictx|] sp]; tidy_cbv;
      destruct H as (H1 & H2 & H3).
    + split; [|split; [exact H2 | exact H3]].
      intros s Hs. specialize (H1 s Hs). lia.
    + split; [exact H1 | split; [exact H2 | exact H3]].
  - unfold exec, run, audioprocess, bind, get.
    destruct (onaudioprocess_handlers w !! processor) as [env|]; [|exact H].
    unfold onaudioprocess. destruct (r_isMuted (env_render env)); [exact H|].
    apply tidy_set_trace, H.
  - apply tidy_onmessage, H.
  - destruct_world w. tidy_cbv. destruct H as (H1 & H2 & H3).
    split; [|split; [|exact H3]].
    + intros s Hs. apply H1. apply elem_of_difference in Hs as [Hs _]. exact Hs.
    + intros Hc. destruct (H2 Hc) as [-> ->]. split; [|reflexivity].
      apply set_eq. intros x. rewrite elem_of_difference.
      split; [intros [Hx _]; exact Hx | intros Hx; exfalso; set_solver].
  - destruct_world w. exact H.
  - destruct_world w. exact H.
  - unfold exec. rewrite (run_Return _ _ _ tt (stopSession_eq w)). apply tidy_stopped.
  - destruct_world w. exact H.
Qed.

Lemma reachable_tidy (w : World) : reachable w -> tidy w.
Proof.
  intros (persona & cs & ->). unfold exec_all.
  generalize (tidy_initial persona). generalize (initial_world persona).
  induction cs as [|c cs IH]; intros w H; [exact H|].
  cbn [fold_left]. apply IH, exec_tidy, H.
Qed.

(** What holds in every world the overlay can reach: each source of the
    pending set is an object created earlier whose [start] has been called;
    the two contexts, and the two nodes, are different objects; while no
    output context is held nothing is pending and the cursor is [0]; the
    cursor is never negative. *)
Theorem reachable_invariants (w : World) :
  reachable w ->
  (forall s, s ∈ audioSourcesRef w ->
             (s < fresh w)%nat /\ started s (trace w) = true)
  /\ (forall a b, inputAudioContextRef w = Some a ->
                  outputAudioContextRef w = Some b -> a <> b)
  /\ (forall a b, processorRef w = Some a -> sourceRef w = Some b -> a <> b)
  /\ (outputAudioContextRef w = None ->
      audioSourcesRef w = ∅ /\ nextStartTimeRef w = 0%Q)
  /\ (0 <= nextStartTimeRef w)%Q.
Proof.
  intros H. destruct (reachable_well_formed w H) as (H1 & H2 & H3).
  destruct (reachable_tidy w H) as (H4 & H5 & H6).
  split; [|split; [|split; [|split]]]; auto.
Qed.

Lemma reachable_invariants_witness :
  reachable demo_world /\ (0 <= nextStartTimeRef demo_world)%Q.
Proof.
  split; [exact demo_reachable|].
  exact (proj2 (proj2 (proj2 (proj2 (reachable_invariants demo_world demo_reachable))))).
Defined.

(* ===================================================================== *)
(** ** Opening, failing to open, closing                                  *)
(* ===================================================================== *)

(** Without an API key [startSession] gives up at once: it asks the parent
    to close the overlay, leaves [isConnecting] false, and acquires
    nothing: no context, no microphone request, no connection. *)
Theorem startSession_without_key (r : Render) (apiKey : option string) (w : World) :
  r_isConnecting r || r_isConnected r = false ->
  apiKey = None \/ apiKey = Some EmptyString ->
  exists w',
    startSession r apiKey w = Return Completed w'
    /\ new_events w w' = [OverlayClose]
    /\ isConnecting w' = false
    /\ isConnected w' = isConnected w
    /\ fresh w' = fresh w
    /\ inputAudioContextRef w' = inputAudioContextRef w
    /\ outputAudioContextRef w' = outputAudioContextRef w
    /\ streamRef w' = streamRef w
    /\ sessionRef w' = sessionRef w.
Proof.
  intros Hg Hk. unfold startSession. rewrite Hg.
  eexists. split.
  - destruct Hk as [-> | ->]; reflexivity.
  - split; [apply new_events_app; reflexivity|]. repeat split.
Qed.

Lemma startSession_without_key_witness :
  exists w',
    startSession demo_render None (initial_world demo_persona) = Return Completed w'
    /\ new_events (initial_world demo_persona) w' = [OverlayClose].
Proof.
  destruct (startSession_without_key demo_render None (initial_world demo_persona)
              eq_refl (or_introl eq_refl)) as (w' & H1 & H2 & _).
  exists w'. split; assumption.
Defined.

Section Lifecycle.
Local Open Scope nat_scope.

(** The calls of a successful open, and the world it leaves.  With [f] the
    next free object number: contexts [f] (16 kHz, input) and [f + 1]
    (24 kHz, output), stream [f + 2], connection [f + 3] made once with the
    closure of the render that called [startSession], source node [f + 4]
    and processor [f + 5], whose handler is that closure.  A [stopSession]
    after it releases the five of them, each once. *)
Theorem open_then_close (r : Render) (c : ascii) (key : string) (w : World) :
  r_isConnecting r || r_isConnected r = false ->
  let f := fresh w in
  let env := {| env_render := r; env_stream := f + 2;
                env_inputCtx := Some f; env_sessionPromise := f + 3 |} in
  let w1 := exec_all [CallStartSession r (Some (String c key));
                      CallStartSessionResume r None;
                      CallOnOpen env] w in
  new_events w w1
  = [NewAudioContext f 16000; NewAudioContext (f + 1) 24000; GetUserMedia;
     LiveConnect env;
     CreateMediaStreamSource (f + 4) f (f + 2); CreateScriptProcessor (f + 5) f;
     NodeConnect (f + 4); NodeConnect (f + 5)]
  /\ isConnected w1 = true /\ isConnecting w1 = false
  /\ inputAudioContextRef w1 = Some f
  /\ outputAudioContextRef w1 = Some (f + 1)
  /\ streamRef w1 = Some (f + 2)
  /\ sessionRef w1 = Some (f + 3)
  /\ sourceRef w1 = Some (f + 4)
  /\ processorRef w1 = Some (f + 5)
  /\ onaudioprocess_handlers w1 !! (f + 5) = Some env
  /\ audioSourcesRef w1 = audioSourcesRef w
  /\ nextStartTimeRef w1 = nextStartTimeRef w
  /\ exists stops,
       new_events w1 (run stopSession w1)
       = [TrackStop (f + 2); NodeDisconnect (f + 5); NodeDisconnect (f + 4);
          ContextClose f; ContextClose (f + 1)] ++ map SourceStop stops.
Proof.
  intros Hg f env w1.
  assert (E : w1 =
    set_processorRef (Some (f + 5))
      (set_sourceRef (Some (f + 4))
         (set_onaudioprocess_handlers (<[f + 5 := env]> (onaudioprocess_handlers w))
            (set_isConnecting false
               (set_isConnected true
                  (set_sessionRef (Some (f + 3))
                     (set_streamRef (Some (f + 2))
                        (set_outputAudioContextRef (Some (f + 1))
                           (set_inputAudioContextRef (Some f)
                              (set_fresh (f + 6)
                                 (set_trace
                                    (trace w ++
                                     [NewAudioContext f 16000;
                                      NewAudioContext (f + 1) 24000; GetUserMedia;
                                      LiveConnect env;
                                      CreateMediaStreamSource (f + 4) f (f + 2);
                                      CreateScriptProcessor (f + 5) f;
                                      NodeConnect (f + 4); NodeConnect (f + 5)])
                                    w))))))))))).
  { subst w1 env f. unfold exec_all. cbn [fold_left]. unfold exec at 3.
    unfold startSession. rewrite Hg.
    destruct_world w.
    cbv [run exec startSession_resume onopen
         new_AudioContext new_object emit modify get bind ret throw try_catch
         setIsConnecting setIsConnected
         set_isConnecting set_isConnected set_isMuted set_inputAudioContextRef
         set_outputAudioContextRef set_streamRef set_processorRef set_sourceRef
         set_nextStartTimeRef set_audioSourcesRef set_sessionRef
         set_activeSessionRef set_onaudioprocess_handlers set_fresh set_trace
         isConnecting isConnected isMuted selectedPersona inputAudioContextRef
         outputAudioContextRef streamRef processorRef sourceRef nextStartTimeRef
         audioSourcesRef sessionRef activeSessionRef onaudioprocess_handlers
         fresh trace env_render env_stream env_inputCtx env_sessionPromise].
    replace (S w_fresh) with (w_fresh + 1)%nat by lia.
    replace (S (w_fresh + 1)) with (w_fresh + 2)%nat by lia.
    replace (S (w_fresh + 2)) with (w_fresh + 3)%nat by lia.
    replace (S (w_fresh + 3)) with (w_fresh + 4)%nat by lia.
    replace (S (w_fresh + 4)) with (w_fresh + 5)%nat by lia.
    replace (S (w_fresh + 5)) with (w_fresh + 6)%nat by lia.
    repeat rewrite <- app_assoc. reflexivity. }
  rewrite E.
  split; [apply new_events_app; reflexivity|].
  do 11 (split; [first [reflexivity | apply lookup_insert_eq]|]).
  eexists. rewrite (run_Return _ _ _ tt (stopSession_eq _)).
  apply new_events_app. unfold stopped at 1. cbn [trace].
  f_equal.
Qed.

Lemma open_then_close_witness :
  r_isConnecting demo_render || r_isConnected demo_render = false
  /\ processorRef
       (exec_all [CallStartSession demo_render (Some "key"%string);
                  CallStartSessionResume demo_render None;
                  CallOnOpen demo_env] (initial_world demo_persona))
     = Some 5.
Proof.
  split; [reflexivity|].
  exact (proj1 (proj2 (proj2 (proj2 (proj2 (proj2 (proj2 (proj2 (proj2
    (open_then_close demo_render "k"%char "ey"%string
       (initial_world demo_persona) eq_refl)))))))))).
Defined.

(** When the microphone is refused, no stream is stored and no connection
    is made; the overlay asks to be closed and is no longer connecting.
    The two contexts created before stay in their refs, and the
    [stopSession] that follows closes each of them once. *)
Theorem microphone_denied (r : Render) (c : ascii) (key : string) (e : Exception)
    (w : World) :
  r_isConnecting r || r_isConnected r = false ->
  let f := fresh w in
  let w1 := exec_all [CallStartSession r (Some (String c key));
                      CallStartSessionResume r (Some e)] w in
  new_events w w1
  = [NewAudioContext f 16000; NewAudioContext (f + 1) 24000; GetUserMedia;
     OverlayClose]
  /\ isConnecting w1 = false
  /\ isConnected w1 = isConnected w
  /\ streamRef w1 = streamRef w
  /\ sessionRef w1 = sessionRef w
  /\ inputAudioContextRef w1 = Some f
  /\ outputAudioContextRef w1 = Some (f + 1)
  /\ count (is_ContextClose f) (new_events w1 (run stopSession w1)) = 1
  /\ count (is_ContextClose (f + 1)) (new_events w1 (run stopSession w1)) = 1.
Proof.
  intros Hg f w1.
  assert (E : w1 =
    set_isConnecting false
      (set_outputAudioContextRef (Some (f + 1))
         (set_inputAudioContextRef (Some f)
            (set_fresh (f + 2)
               (set_trace
                  (trace w ++
                   [NewAudioContext f 16000; NewAudioContext (f + 1) 24000;
                    GetUserMedia; OverlayClose])
                  w))))).
  { subst w1 f. unfold exec_all. cbn [fold_left]. unfold exec at 2.
    unfold startSession. rewrite Hg.
    destruct_world w.
    cbv [run exec startSession_resume
         new_AudioContext new_object emit modify get bind ret throw try_catch
         setIsConnecting setIsConnected
         set_isConnecting set_isConnected set_isMuted set_inputAudioContextRef
         set_outputAudioContextRef set_streamRef set_processorRef set_sourceRef
         set_nextStartTimeRef set_audioSourcesRef set_sessionRef
         set_activeSessionRef set_onaudioprocess_handlers set_fresh set_trace
         isConnecting isConnected isMuted selectedPersona inputAudioContextRef
         outputAudioContextRef streamRef processorRef sourceRef nextStartTimeRef
         audioSourcesRef sessionRef activeSessionRef onaudioprocess_handlers
         fresh trace].
    replace (S w_fresh) with (w_fresh + 1) by lia.
    replace (S (w_fresh + 1)) with (w_fresh + 2) by lia.
    repeat rewrite <- app_assoc. reflexivity. }
  rewrite E.
  split; [apply new_events_app; reflexivity|].
  do 6 (split; [reflexivity|]).
  rewrite (run_Return _ _ _ tt (stopSession_eq _)).
  match goal with
  | |- context [new_events ?x (stopped ?x)] =>
      assert (Hev : new_events x (stopped x)
                    = release_events x
                      ++ map SourceStop (List.filter (fun s => started s (trace x))
                                                     (elements (audioSourcesRef x))))
        by (apply new_events_app; reflexivity);
      rewrite Hev; clear Hev
  end.
  rewrite !count_app, !count_stops_other by reflexivity.
  unfold release_events.
  cbn [streamRef processorRef sourceRef inputAudioContextRef outputAudioContextRef
       set_isConnecting set_outputAudioContextRef set_inputAudioContextRef
       set_fresh set_trace].
  assert (H1 : Nat.eqb (f + 1) f = false) by (apply Nat.eqb_neq; lia).
  assert (H2 : Nat.eqb f (f + 1) = false) by (apply Nat.eqb_neq; lia).
  destruct (streamRef w), (processorRef w), (sourceRef w);
    unfold count; cbn [app List.filter is_ContextClose];
    rewrite ?Nat.eqb_refl, ?H1, ?H2; split; reflexivity.
Qed.

Lemma microphone_denied_witness :
  r_isConnecting demo_render || r_isConnected demo_render = false
  /\ isConnecting
       (exec_all [CallStartSession demo_render (Some "key"%string);
                  CallStartSessionResume demo_render (Some (Error "NotAllowedError"))]
          (initial_world demo_persona)) = false.
Proof.
  split; [reflexivity|].
  exact (proj1 (proj2 (microphone_denied demo_render "k"%char "ey"%string
                         (Error "NotAllowedError") (initial_world demo_persona)
                         eq_refl))).
Defined.

End Lifecycle.

(* ===================================================================== *)
(** ** Messages, natural ends and interruption                            *)
(* ===================================================================== *)

Lemma reachable_exec (c : Callback) (w : World) :
  reachable w -> reachable (exec c w).
Proof.
  intros (persona & cs & ->). exists persona, (cs ++ [c]).
  unfold exec_all. rewrite fold_left_app. reflexivity.
Qed.

Lemma flush_idle (w : World) :
  audioSourcesRef w = ∅ -> nextStartTimeRef w = 0%Q -> flush w = Return tt w.
Proof.
  intros Hs Hc. unfold flush, bind, get. rewrite Hs, elements_empty.
  destruct_world w. cbn [audioSourcesRef nextStartTimeRef] in Hs, Hc. subst.
  reflexivity.
Qed.

(** While no output context is held (before the first open, after a
    teardown), an inbound message of any kind changes nothing: audio is
    not scheduled, and there is nothing to flush. *)
Theorem message_without_output_context (w : World) (currentTime : Q)
    (msg : LiveServerMessage) :
  reachable w -> outputAudioContextRef w = None ->
  onmessage currentTime msg w = Return tt w.
Proof.
  intros Hr Hctx. destruct (reachable_tidy w Hr) as (_ & Hidle & _).
  destruct (Hidle Hctx) as [Hs Hc].
  rewrite onmessage_unfold, Hctx.
  destruct (inlineData msg) as [[|c rest]|]; try reflexivity;
    destruct (interrupted msg); try reflexivity; apply flush_idle; assumption.
Qed.

Lemma message_without_output_context_witness :
  reachable (exec CallStopSession demo_world)
  /\ onmessage (9 # 10) demo_chunk (exec CallStopSession demo_world)
     = Return tt (exec CallStopSession demo_world).
Proof.
  assert (H : reachable (exec CallStopSession demo_world))
    by (apply reachable_exec, demo_reachable).
  split; [exact H|].
  apply (message_without_output_context _ (9 # 10) demo_chunk H).
  vm_compute. reflexivity.
Defined.

(** A chunk that is scheduled and then ends naturally leaves the pending
    set as it was before the chunk; the cursor stays advanced. *)
Theorem chunk_then_ended (w : World) (ctx : nat) (currentTime : Q)
    (msg : LiveServerMessage) (buffer : AudioBuffer) :
  reachable w -> outputAudioContextRef w = Some ctx -> is_chunk ctx msg buffer ->
  let w1 := run (onmessage currentTime msg) w in
  let w2 := run (onended (fresh w)) w1 in
  fresh w ∈ audioSourcesRef w1
  /\ audioSourcesRef w2 = audioSourcesRef w
  /\ nextStartTimeRef w2
     = (start_time currentTime (nextStartTimeRef w) + duration buffer)%Q
  /\ trace w2 = trace w1.
Proof.
  intros Hr Hctx Hchunk w1 w2. subst w2 w1.
  rewrite (run_Return _ _ _ tt (onmessage_chunk ctx _ _ _ w Hctx Hchunk)).
  destruct (reachable_tidy w Hr) as (Hknown & _).
  assert (Hfresh : fresh w ∉ audioSourcesRef w).
  { intros Hin. specialize (Hknown _ Hin). lia. }
  unfold run, onended, modify.
  cbn [after_chunk audioSourcesRef nextStartTimeRef trace set_audioSourcesRef
       set_nextStartTimeRef set_trace set_fresh fresh].
  split; [apply elem_of_union_l, elem_of_singleton; reflexivity|].
  split; [|split; reflexivity].
  apply set_eq. intros x.
  rewrite elem_of_difference, elem_of_union, elem_of_singleton.
  destruct (decide (x = fresh w)) as [->|Hne]; tauto.
Qed.

Lemma chunk_then_ended_witness :
  reachable demo_world
  /\ audioSourcesRef (run (onended (fresh demo_world))
                        (run (onmessage 1 demo_chunk) demo_world))
     = audioSourcesRef demo_world.
Proof.
  assert (H : outputAudioContextRef demo_world = Some 1%nat)
    by (vm_compute; reflexivity).
  split; [exact demo_reachable|].
  exact (proj1 (proj2 (chunk_then_ended demo_world 1%nat 1 demo_chunk demo_buffer
                         demo_reachable H demo_is_chunk))).
Defined.

Lemma onended_not_pending (w : World) (source : nat) :
  source ∉ audioSourcesRef w -> onended source w = Return tt w.
Proof.
  intros H. unfold onended, modify.
  replace (audioSourcesRef w ∖ {[source]}) with (audioSourcesRef w).
  - destruct_world w. reflexivity.
  - apply set_eq. intros x. rewrite elem_of_difference, elem_of_singleton.
    destruct (decide (x = source)) as [->|Hne]; tauto.
Qed.

(** The [ended] events that arrive late, for sources that an interruption
    or a teardown has stopped, change nothing: the set they delete from is
    already empty. *)
Theorem ended_after_stop (w : World) (currentTime : Q) (msg : LiveServerMessage)
    (source : nat) :
  reachable w -> inlineData msg = None -> interrupted msg = true ->
  onended source (run (onmessage currentTime msg) w)
  = Return tt (run (onmessage currentTime msg) w)
  /\ onended source (run stopSession w) = Return tt (run stopSession w).
Proof.
  intros Hr Hdata Hint. split; apply onended_not_pending.
  - assert (E : onmessage currentTime msg w
                = flush w) by (rewrite onmessage_unfold, Hdata, Hint; reflexivity).
    unfold run. rewrite E, flush_well_formed by apply reachable_well_formed, Hr.
    cbn [audioSourcesRef set_nextStartTimeRef set_audioSourcesRef].
    apply not_elem_of_empty.
  - rewrite (run_Return _ _ _ tt (stopSession_eq w)).
    cbn [stopped audioSourcesRef]. apply not_elem_of_empty.
Qed.

Lemma ended_after_stop_witness :
  reachable demo_world
  /\ onended 6 (run stopSession demo_world) = Return tt (run stopSession demo_world).
Proof.
  split; [exact demo_reachable|].
  exact (proj2 (ended_after_stop demo_world (7 # 8)
                  {| inlineData := None; interrupted := true |} 6%nat
                  demo_reachable eq_refl eq_refl)).
Defined.

(** Audio and interruption in one message: the chunk is started and, in the
    same handler, stopped with everything that was pending; afterwards the
    set is empty and the cursor is [0]. *)
Theorem interrupted_chunk (w : World) (ctx : nat) (currentTime : Q)
    (msg : LiveServerMessage) (c : ascii) (rest : string) (buffer : AudioBuffer) :
  reachable w -> outputAudioContextRef w = Some ctx ->
  inlineData msg = Some (String c rest) ->
  (let! bytes := decode (String c rest) in decodeAudioData bytes ctx 24000 1)
  = Ok buffer ->
  interrupted msg = true ->
  exists w',
    onmessage currentTime msg w = Return tt w'
    /\ audioSourcesRef w' = ∅
    /\ nextStartTimeRef w' = 0%Q
    /\ new_events w w'
       = [NodeConnect (fresh w);
          SourceStart (fresh w) buffer (start_time currentTime (nextStartTimeRef w))]
         ++ map SourceStop (elements ({[fresh w]} ∪ audioSourcesRef w))
    /\ count (is_SourceStop (fresh w)) (new_events w w') = 1%nat
    /\ (forall s, s ∈ audioSourcesRef w ->
                  count (is_SourceStop s) (new_events w w') = 1%nat).
Proof.
  intros Hr Hctx Hdata Hdec Hint.
  assert (Hwf : well_formed (after_chunk currentTime buffer w))
    by (apply well_formed_after_chunk, reachable_well_formed, Hr).
  eexists. split.
  { rewrite onmessage_unfold, Hdata, Hctx, Hdec, Hint.
    apply flush_well_formed, Hwf. }
  split; [reflexivity|]. split; [reflexivity|].
  assert (Hev : forall w0,
     new_events w
       (set_nextStartTimeRef 0
          (set_audioSourcesRef ∅
             (set_trace (trace (after_chunk currentTime buffer w)
                         ++ map SourceStop
                              (elements (audioSourcesRef (after_chunk currentTime buffer w))))
                        w0)))
     = [NodeConnect (fresh w);
        SourceStart (fresh w) buffer (start_time currentTime (nextStartTimeRef w))]
       ++ map SourceStop (elements ({[fresh w]} ∪ audioSourcesRef w))).
  { intros w0. apply new_events_app.
    cbn [after_chunk trace audioSourcesRef set_audioSourcesRef set_nextStartTimeRef
         set_trace].
    rewrite <- app_assoc. reflexivity. }
  rewrite Hev. split; [reflexivity|].
  assert (Hc : forall s, s ∈ ({[fresh w]} ∪ audioSourcesRef w : gset nat) ->
     count (is_SourceStop s)
       ([NodeConnect (fresh w);
         SourceStart (fresh w) buffer (start_time currentTime (nextStartTimeRef w))]
        ++ map SourceStop (elements ({[fresh w]} ∪ audioSourcesRef w))) = 1%nat).
  { intros s Hs. rewrite count_app, count_stops by apply NoDup_elements.
    destruct (decide (s ∈ elements ({[fresh w]} ∪ audioSourcesRef w))) as [_|Hn].
    - reflexivity.
    - exfalso. apply Hn, elem_of_elements, Hs. }
  split; [apply Hc; set_solver | intros s Hs; apply Hc; set_solver].
Qed.

Lemma interrupted_chunk_witness :
  reachable demo_world
  /\ exists w',
       onmessage 1 {| inlineData := Some "AEAAgACAAAA="%string; interrupted := true |}
         demo_world = Return tt w'
       /\ audioSourcesRef w' = ∅.
Proof.
  assert (H : outputAudioContextRef demo_world = Some 1%nat)
    by (vm_compute; reflexivity).
  assert (Hd : (let! bytes := decode "AEAAgACAAAA=" in decodeAudioData bytes 1%nat 24000 1)
               = Ok demo_buffer) by reflexivity.
  split; [exact demo_reachable|].
  destruct (interrupted_chunk demo_world 1%nat 1
              {| inlineData := Some "AEAAgACAAAA="%string; interrupted := true |}
              "A"%char "EAAgACAAAA="%string demo_buffer
              demo_reachable H eq_refl Hd eq_refl) as (w' & H1 & H2 & _).
  exists w'. split; assumption.
Defined.

(* ===================================================================== *)
(** ** The effect, the persona menu and the mute button                   *)
(* ===================================================================== *)




(** What an [audioprocess] event sends is fixed by the handler installed
    when the session opened: the frame is sent, encoded, unless the render
    that started the session was muted.  The mute state at the time of the
    event plays no part, and the mute button leaves the handler as it is. *)
Theorem forwarding_fixed_at_open (processor : nat) (env : SessionEnv)
    (inputData : list float) (r : Render) (w : World) :
  onaudioprocess_handlers w !! processor = Some env ->
  new_events w (run (audioprocess processor inputData) w)
  = (if r_isMuted (env_render env) then []
     else [SendRealtimeInput (env_sessionPromise env) (createBlob inputData)])
  /\ onaudioprocess_handlers (run (toggleMute r) w) !! processor = Some env
  /\ new_events (run (toggleMute r) w)
       (run (audioprocess processor inputData) (run (toggleMute r) w))
     = new_events w (run (audioprocess processor inputData) w).
Proof.
  intros H.
  assert (E : forall x, onaudioprocess_handlers x !! processor = Some env ->
     new_events x (run (audioprocess processor inputData) x)
     = (if r_isMuted (env_render env) then []
        else [SendRealtimeInput (env_sessionPromise env) (createBlob inputData)])).
  { intros x Hx. unfold run, audioprocess, bind, get. rewrite Hx.
    unfold onaudioprocess. destruct (r_isMuted (env_render env)).
    - apply new_events_refl.
    - apply new_events_app. reflexivity. }
  split; [apply E, H|]. split; [exact H|].
  rewrite (E w H). apply E. exact H.
Qed.

Lemma forwarding_fixed_at_open_witness :
  onaudioprocess_handlers demo_world !! 5%nat = Some demo_env
  /\ new_events demo_world (run (audioprocess 5 [Finite (1 # 2)]) demo_world)
     = [SendRealtimeInput 3 (createBlob [Finite (1 # 2)])].
Proof.
  assert (H : onaudioprocess_handlers demo_world !! 5%nat = Some demo_env)
    by (vm_compute; reflexivity).
  split; [exact H|].
  exact (proj1 (forwarding_fixed_at_open 5 demo_env [Finite (1 # 2)] demo_render
                  demo_world H)).
Defined.

Section Races.
Local Open Scope nat_scope.

(** Closing the overlay while the microphone prompt is pending does not
    cancel the start.  When the microphone is granted afterwards, the rest
    of [startSession] stores the stream and connects, with the input
    context it reads from the ref, by then [null]; the stream is not
    stopped.  When that connection opens, [onopen] marks the overlay
    connected and then fails on the missing context, before it has made a
    node or installed a handler. *)
Theorem closed_while_awaiting_microphone (r : Render) (c : ascii) (key : string)
    (w : World) :
  r_isConnecting r || r_isConnected r = false ->
  let f := fresh w in
  let env := {| env_render := r; env_stream := f + 2;
                env_inputCtx := None; env_sessionPromise := f + 3 |} in
  let w0 := exec_all [CallStartSession r (Some (String c key)); CallStopSession] w in
  let w1 := exec (CallStartSessionResume r None) w0 in
  new_events w0 w1 = [LiveConnect env]
  /\ streamRef w1 = Some (f + 2)
  /\ sessionRef w1 = Some (f + 3)
  /\ inputAudioContextRef w1 = None /\ outputAudioContextRef w1 = None
  /\ isConnecting w1 = false /\ isConnected w1 = false
  /\ exists w2,
       onopen env w1 = Raise TypeError w2
       /\ isConnected w2 = true
       /\ new_events w1 w2 = []
       /\ streamRef w2 = Some (f + 2)
       /\ processorRef w2 = None /\ sourceRef w2 = None
       /\ onaudioprocess_handlers w2 = onaudioprocess_handlers w.
Proof.
  intros Hg f env w0 w1.
  set (wA := set_outputAudioContextRef (Some (f + 1))
               (set_inputAudioContextRef (Some f)
                  (set_fresh (f + 2)
                     (set_trace
                        (trace w ++
                         [NewAudioContext f 16000; NewAudioContext (f + 1) 24000;
                          GetUserMedia])
                        (set_isConnecting true w))))).
  assert (E0 : w0 = stopped wA).
  { subst w0 wA f. unfold exec_all. cbn [fold_left]. unfold exec at 1.
    rewrite <- (run_Return _ _ _ tt (stopSession_eq _)). f_equal.
    unfold exec, startSession. rewrite Hg.
    destruct_world w.
    cbv [run new_AudioContext new_object emit modify get bind ret throw try_catch
         setIsConnecting setIsConnected
         set_isConnecting set_isConnected set_isMuted set_inputAudioContextRef
         set_outputAudioContextRef set_streamRef set_processorRef set_sourceRef
         set_nextStartTimeRef set_audioSourcesRef set_sessionRef
         set_activeSessionRef set_onaudioprocess_handlers set_fresh set_trace
         isConnecting isConnected isMuted selectedPersona inputAudioContextRef
         outputAudioContextRef streamRef processorRef sourceRef nextStartTimeRef
         audioSourcesRef sessionRef activeSessionRef onaudioprocess_handlers
         fresh trace].
    replace (S w_fresh) with (w_fresh + 1) by lia.
    replace (S (w_fresh + 1)) with (w_fresh + 2) by lia.
    repeat rewrite <- app_assoc. reflexivity. }
  assert (E1 : w1 = set_sessionRef (Some (f + 3))
                      (set_trace (trace w0 ++ [LiveConnect env])
                         (set_fresh (f + 4) (set_streamRef (Some (f + 2)) w0)))).
  { subst w1. rewrite E0. subst env wA f. unfold stopped.
    cbv [run exec startSession_resume
         new_object emit modify get bind ret throw try_catch
         setIsConnecting setIsConnected].
    cbn [set_isConnecting set_isConnected set_isMuted set_inputAudioContextRef
         set_outputAudioContextRef set_streamRef set_processorRef set_sourceRef
         set_nextStartTimeRef set_audioSourcesRef set_sessionRef
         set_activeSessionRef set_onaudioprocess_handlers set_fresh set_trace
         isConnecting isConnected isMuted selectedPersona inputAudioContextRef
         outputAudioContextRef streamRef processorRef sourceRef nextStartTimeRef
         audioSourcesRef sessionRef activeSessionRef onaudioprocess_handlers
         fresh trace].
    replace (S (fresh w + 2)) with (fresh w + 3) by lia.
    replace (S (fresh w + 3)) with (fresh w + 4) by lia.
    reflexivity. }
  rewrite E1.
  split; [apply new_events_app; reflexivity|].
  split; [reflexivity|]. split; [reflexivity|].
  rewrite E0.
  do 4 (split; [reflexivity|]).
  eexists. split; [reflexivity|].
  split; [reflexivity|]. split; [apply new_events_app; symmetry; apply app_nil_r|].
  repeat split; reflexivity.
Qed.

Lemma closed_while_awaiting_microphone_witness :
  r_isConnecting demo_render || r_isConnected demo_render = false
  /\ streamRef
       (exec (CallStartSessionResume demo_render None)
          (exec_all [CallStartSession demo_render (Some "key"%string); CallStopSession]
             (initial_world demo_persona)))
     = Some 2.
Proof.
  split; [reflexivity|].
  exact (proj1 (proj2 (closed_while_awaiting_microphone demo_render "k"%char
                         "ey"%string (initial_world demo_persona) eq_refl))).
Defined.

End Races.

(* ===================================================================== *)
(** ** The chat: what is sent and what is shown                           *)
(* ===================================================================== *)

Lemma trimStart_blank (ws s : jsstring) : blank ws -> trimStart (ws ++ s) = trimStart s.
Proof.
  induction 1 as [|c ws Hc _ IH]; [reflexivity|].
  cbn [app trimStart]. rewrite Hc. exact IH.
Qed.

Lemma trimStart_head (s : jsstring) (c : N) :
  head (trimStart s) = Some c -> is_white_space c = false.
Proof.
  induction s as [|x s IH]; [discriminate|].
  cbn [trimStart]. destruct (is_white_space x) eqn:Hx; [exact IH|].
  cbn [head]. intros [= <-]. exact Hx.
Qed.

Lemma trimStart_fixed (s : jsstring) :
  (forall c, head s = Some c -> is_white_space c = false) -> trimStart s = s.
Proof.
  destruct s as [|x s]; [reflexivity|]. intros H. cbn [trimStart].
  rewrite (H x eq_refl). reflexivity.
Qed.

Lemma trimStart_suffix (s : jsstring) : exists ws, s = ws ++ trimStart s.
Proof.
  induction s as [|x s [ws IH]]; [exists []; reflexivity|].
  cbn [trimStart]. destruct (is_white_space x).
  - exists (x :: ws). cbn [app]. f_equal. exact IH.
  - exists []. reflexivity.
Qed.

Lemma head_rev (s : jsstring) : head (rev s) = last s.
Proof.
  induction s as [|x s IH] using rev_ind; [reflexivity|].
  rewrite rev_app_distr, last_snoc. reflexivity.
Qed.

Lemma last_rev (s : jsstring) : last (rev s) = head s.
Proof. rewrite <- head_rev, rev_involutive. reflexivity. Qed.

Lemma trim_trimmed (s : jsstring) : trimmed (trim s).
Proof.
  unfold trimmed, trim, trimEnd. split; intros c Hc.
  - rewrite <- last_rev, rev_involutive in Hc.
    destruct (trimStart_suffix (rev (trimStart s))) as [ws Hws].
    destruct (trimStart (rev (trimStart s))) as [|y u] eqn:Hu; [discriminate|].
    assert (Hl : last (rev (trimStart s)) = Some c).
    { rewrite Hws. rewrite last_app, Hc. reflexivity. }
    rewrite last_rev in Hl. apply (trimStart_head s), Hl.
  - rewrite <- head_rev, rev_involutive in Hc.
    apply (trimStart_head _ _ Hc).
Qed.

Lemma trimmed_trim (s : jsstring) : trimmed s -> trim s = s.
Proof.
  intros [Hh Hl]. unfold trim, trimEnd.
  rewrite (trimStart_fixed s Hh), trimStart_fixed, rev_involutive; [reflexivity|].
  intros c Hc. rewrite head_rev in Hc. apply Hl, Hc.
Qed.

Lemma blank_rev (ws : jsstring) : blank ws -> blank (rev ws).
Proof. unfold blank. rewrite !List.Forall_forall. intros H c Hc. apply H, in_rev, Hc. Qed.

Lemma trimStart_all_blank (ws : jsstring) : blank ws -> trimStart ws = [].
Proof.
  intros H. rewrite <- (app_nil_r ws), trimStart_blank by exact H. reflexivity.
Qed.

Lemma trim_padded (p1 s p2 : jsstring) :
  trimmed s -> blank p1 -> blank p2 -> trim (p1 ++ s ++ p2) = s.
Proof.
  intros [Hh Hl] H1 H2. unfold trim, trimEnd.
  rewrite (trimStart_blank p1) by exact H1.
  destruct s as [|c s].
  - cbn [app]. rewrite (trimStart_all_blank p2 H2). reflexivity.
  - cbn [app trimStart]. rewrite (Hh c eq_refl).
    change (c :: s ++ p2) with ((c :: s) ++ p2).
    rewrite rev_app_distr, trimStart_blank by (apply blank_rev, H2).
    rewrite trimStart_fixed, rev_involutive; [reflexivity|].
    intros x Hx. rewrite head_rev in Hx. apply Hl, Hx.
Qed.

Lemma truthy_nonempty (s : jsstring) : truthy s = true <-> s <> [].
Proof. destruct s; cbn; split; congruence. Qed.

Lemma same_spec (a b : jsstring) : same a b = true <-> a = b.
Proof. unfold same. apply bool_decide_eq_true. Qed.

Lemma same_false (a b : jsstring) : same a b = false <-> a <> b.
Proof. unfold same. apply bool_decide_eq_false. Qed.

Lemma same_refl (a : jsstring) : same a a = true.
Proof. apply same_spec. reflexivity. Qed.

(** What the input area sends is the input without the white space at its
    ends, and it is never empty; a blank input sends nothing and stays in
    the box. *)
Theorem handleSend_sends_trimmed (input : jsstring) (disabled streaming : bool) :
  (forall sent input',
      handleSend input disabled streaming = (Some sent, input') ->
      sent = trim input /\ sent <> [] /\ trimmed sent /\ trim sent = sent
      /\ input' = [] /\ disabled = false /\ streaming = false)
  /\ (blank input -> handleSend input disabled streaming = (None, input)).
Proof.
  unfold handleSend. split.
  - intros sent input'.
    destruct (truthy (trim input)) eqn:Ht, disabled, streaming; cbn [andb negb];
      try discriminate.
    intros [= <- <-]. apply truthy_nonempty in Ht.
    repeat split; try assumption; try apply trim_trimmed.
    apply trimmed_trim, trim_trimmed.
  - intros Hb. unfold trim. rewrite (trimStart_all_blank input Hb). reflexivity.
Qed.

(** Saving an edit compares the trimmed text with the message but passes
    the text as typed: an edit that only adds white space around a
    trimmed message is not submitted, and any other edit is submitted
    with its white space, a blank one included. *)
Theorem handleSaveEdit_compares_trimmed (message : Message.t) (onEdit : bool) :
  (forall p1 p2,
      trimmed (Message.content message) -> blank p1 -> blank p2 ->
      handleSaveEdit message onEdit (p1 ++ Message.content message ++ p2) = None)
  /\ (forall editContent,
        trim editContent <> Message.content message ->
        handleSaveEdit message true editContent
        = Some (Message.id message, editContent))
  /\ (forall editContent,
        blank editContent -> Message.content message <> [] ->
        handleSaveEdit message true editContent
        = Some (Message.id message, editContent)).
Proof.
  unfold handleSaveEdit. split; [|split].
  - intros p1 p2 Ht H1 H2. rewrite (trim_padded _ _ _ Ht H1 H2), same_refl. reflexivity.
  - intros e He. apply same_false in He. rewrite He. reflexivity.
  - intros e Hb Hc.
    assert (He : same (trim e) (Message.content message) = false).
    { apply same_false. unfold trim. rewrite (trimStart_all_blank e Hb).
      cbn. congruence. }
    rewrite He. reflexivity.
Qed.

(** The title of a chat is never empty and has no white space at its
    ends, whatever the title request answers. *)
Theorem generateChatTitle_nonempty (response : TitleResponse) :
  generateChatTitle response <> [] /\ trimmed (generateChatTitle response).
Proof.
  assert (Hd : str "New Chat" <> [] /\ trimmed (str "New Chat")).
  { split; [discriminate|]. split; intros c; vm_compute; intros [= <-]; reflexivity. }
  destruct response as [|[t|]]; cbn [generateChatTitle]; try exact Hd.
  destruct (truthy (trim t)) eqn:Ht; [|exact Hd].
  split; [apply truthy_nonempty, Ht | apply trim_trimmed].
Qed.

(** The message shown for an error is never empty. *)
Theorem getUserFriendlyErrorMessage_nonempty (msg : jsstring) :
  getUserFriendlyErrorMessage msg <> [].
Proof.
  unfold getUserFriendlyErrorMessage.
  repeat match goal with
         | |- (if ?b then _ else _) <> _ => destruct b eqn:?
         end; try discriminate.
  apply truthy_nonempty. assumption.
Qed.

Lemma handleSend_sends_trimmed_witness :
  handleSend (str "  hi ") false false = (Some (str "hi"), [])
  /\ trimmed (str "hi").
Proof.
  assert (H : handleSend (str "  hi ") false false = (Some (str "hi"), []))
    by (vm_compute; reflexivity).
  split; [exact H|].
  exact (proj1 (proj2 (proj2 (proj1 (handleSend_sends_trimmed (str "  hi ") false false)
                                 (str "hi") [] H)))).
Defined.

Lemma handleSaveEdit_compares_trimmed_witness :
  handleSaveEdit
    {| Message.id := str "m1"; Message.role := User; Message.content := str "hi";
       Message.timestamp := 0; Message.isStreaming := None; Message.isError := None;
       Message.errorMessage := None; Message.groundingMetadata := None |}
    true (str "  ")
  = Some (str "m1", str "  ").
Proof.
  apply (proj2 (proj2 (handleSaveEdit_compares_trimmed
    {| Message.id := str "m1"; Message.role := User; Message.content := str "hi";
       Message.timestamp := 0; Message.isStreaming := None; Message.isError := None;
       Message.errorMessage := None; Message.groundingMetadata := None |} true))).
  - repeat constructor.
  - discriminate.
Defined.

(* ===================================================================== *)
(** ** The chat: streaming a response                                     *)
(* ===================================================================== *)

Lemma deliver_chunks_app {S : Type} (onChunk : jsstring -> option nat -> S -> S)
    (a b : list Chunk) (s : S) :
  deliver_chunks onChunk (a ++ b) s = deliver_chunks onChunk b (deliver_chunks onChunk a s).
Proof. unfold deliver_chunks. apply fold_left_app. Qed.

Lemma texts_cons (c : Chunk) (cs : list Chunk) : texts (c :: cs) = chunk_text c ++ texts cs.
Proof. reflexivity. Qed.

Lemma texts_app (a b : list Chunk) : texts (a ++ b) = texts a ++ texts b.
Proof. unfold texts. rewrite map_app, concat_app. reflexivity. Qed.

Lemma fullText_step (c : Chunk) (fullText : jsstring) :
  match text c with
  | Some ((_ :: _) as t) => fullText ++ t
  | _ => fullText
  end = fullText ++ chunk_text c.
Proof.
  unfold chunk_text. destruct (text c) as [[|x t]|]; cbn [default];
    rewrite ?app_nil_r; reflexivity.
Qed.

Lemma for_await_unblocked {S : Type} (cs : list Chunk) (failed : option jsstring)
    (fullText : jsstring) (onChunk : jsstring -> option nat -> S -> S) (s : S) :
  Forall (fun c => blocked c = None) cs ->
  for_await cs failed fullText onChunk s
  = (match failed with
     | Some e => Rejected e
     | None => Fulfilled (fullText ++ texts cs)
     end, deliver_chunks onChunk cs s).
Proof.
  intros H. revert fullText s.
  induction H as [|c cs Hc _ IH]; intros fullText s.
  - cbn [for_await]. unfold texts. cbn [map concat]. rewrite app_nil_r.
    destruct failed; reflexivity.
  - cbn [for_await]. rewrite Hc, fullText_step, IH, texts_cons, app_assoc.
    reflexivity.
Qed.

Lemma for_await_blocked {S : Type} (cs : list Chunk) (c : Chunk) (rest : list Chunk)
    (reason : jsstring) (failed : option jsstring) (fullText : jsstring)
    (onChunk : jsstring -> option nat -> S -> S) (s : S) :
  Forall (fun c => blocked c = None) cs -> blocked c = Some reason ->
  for_await (cs ++ c :: rest) failed fullText onChunk s
  = (Rejected (str "Response blocked due to " ++ reason), deliver_chunks onChunk cs s).
Proof.
  intros H Hc. revert fullText s.
  induction H as [|x cs Hx _ IH]; intros fullText s.
  - cbn [app for_await]. rewrite Hc. reflexivity.
  - cbn [app for_await]. rewrite Hx. apply IH.
Qed.

(** The loop of [streamChatResponse] over chunks that are not blocked: the
    callback is called once for each chunk, in order, with the text of the
    chunk or the empty string; the call returns the texts put together, or
    fails as the stream fails. *)
Theorem streamChatResponse_accumulates {S : Type} (history : list Message.t)
    (newMessage : jsstring) (stream : Stream)
    (onChunk : jsstring -> option nat -> S -> S) (s : S) :
  Forall (fun c => blocked c = None) (chunks stream) ->
  streamChatResponse history newMessage stream onChunk s
  = (match failure stream with
     | Some e => Rejected e
     | None => Fulfilled (texts (chunks stream))
     end, deliver_chunks onChunk (chunks stream) s).
Proof.
  intros H. unfold streamChatResponse. rewrite for_await_unblocked by exact H.
  reflexivity.
Qed.

Lemma streamChatResponse_accumulates_witness :
  fst (streamChatResponse (S := list jsstring) [] (str "hi")
         {| chunks := [ {| text := Some (str "Hel"); metadata := None;
                           finishReason := None |};
                        {| text := None; metadata := Some 7%nat; finishReason := None |};
                        {| text := Some (str "lo"); metadata := None;
                           finishReason := Some (str "STOP") |} ];
            failure := None |}
         (fun chunkText _ log => log ++ [chunkText]) [])
  = Fulfilled (str "Hello").
Proof.
  rewrite streamChatResponse_accumulates; [reflexivity|].
  repeat constructor.
Defined.

Lemma blocked_message_needles (reason : jsstring) :
  Forall (fun needle =>
            includes (str "Response blocked due to " ++ reason) needle
            = includes reason needle) earlier_needles.
Proof. repeat constructor; vm_compute; reflexivity. Qed.

(** A chunk without text whose finish reason is not [STOP] ends the
    stream: the chunks after it are not delivered, and the error is shown
    as a safety block whatever the reason was, provided the reason's text
    holds none of the needles looked for earlier. *)
Theorem abnormal_finish_shown_as_safety {S : Type} (history : list Message.t)
    (newMessage : jsstring) (stream : Stream) (before rest : list Chunk) (c : Chunk)
    (reason : jsstring) (onChunk : jsstring -> option nat -> S -> S) (s : S) :
  chunks stream = before ++ c :: rest ->
  Forall (fun c => blocked c = None) before ->
  chunk_text c = [] -> finishReason c = Some reason ->
  reason <> [] -> reason <> str "STOP" ->
  Forall (fun needle => includes reason needle = false) earlier_needles ->
  streamChatResponse history newMessage stream onChunk s
  = (Rejected (str "Response blocked due to " ++ reason),
     deliver_chunks onChunk before s)
  /\ getUserFriendlyErrorMessage (str "Response blocked due to " ++ reason)
     = str "The response was blocked due to safety settings.".
Proof.
  intros Hcs Hbefore Htext Hfinish Hne Hstop Hneedles.
  assert (Hblocked : blocked c = Some reason).
  { unfold blocked. unfold chunk_text in Htext. rewrite Hfinish.
    apply truthy_nonempty in Hne. apply same_false in Hstop. rewrite Hne, Hstop.
    destruct (text c) as [[|x t]|]; [reflexivity | discriminate | reflexivity]. }
  split.
  { unfold streamChatResponse. rewrite Hcs. apply for_await_blocked; assumption. }
  assert (Hb : includes (str "Response blocked due to " ++ reason) (str "blocked")
               = true) by (vm_compute; reflexivity).
  pose proof (blocked_message_needles reason) as Hp.
  unfold earlier_needles in Hp, Hneedles.
  repeat match goal with
         | H : Forall _ (_ :: _) |- _ =>
             apply List.Forall_cons_iff in H; destruct H as [? H]
         end.
  unfold getUserFriendlyErrorMessage.
  repeat match goal with
         | Hp : includes (_ ++ reason) ?n = includes reason ?n,
           Hr : includes reason ?n = false |- _ => rewrite Hp, Hr; clear Hp Hr
         end.
  rewrite Hb, orb_true_r. reflexivity.
Qed.

Lemma abnormal_finish_shown_as_safety_witness :
  getUserFriendlyErrorMessage (str "Response blocked due to " ++ str "MAX_TOKENS")
  = str "The response was blocked due to safety settings.".
Proof.
  refine (proj2 (abnormal_finish_shown_as_safety (S := unit) [] (str "hi")
            {| chunks := [ {| text := None; metadata := None;
                              finishReason := Some (str "MAX_TOKENS") |} ];
               failure := None |}
            [] [] {| text := None; metadata := None;
                     finishReason := Some (str "MAX_TOKENS") |}
            (str "MAX_TOKENS") (fun _ _ u => u) tt eq_refl _ eq_refl eq_refl _ _ _)).
  - constructor.
  - discriminate.
  - discriminate.
  - repeat constructor.
Defined.

Lemma map_session_compose (sessionId : jsstring) (f g : ChatSession.t -> ChatSession.t)
    (l : list ChatSession.t) :
  (forall s, ChatSession.id (g s) = ChatSession.id s) ->
  map_session sessionId f (map_session sessionId g l)
  = map_session sessionId (fun s => f (g s)) l.
Proof.
  intros Hg. unfold map_session. rewrite map_map. apply map_ext. intros s.
  destruct (same (ChatSession.id s) sessionId) eqn:E.
  - rewrite Hg, E. reflexivity.
  - rewrite E. reflexivity.
Qed.

Lemma map_session_ext (sessionId : jsstring) (f g : ChatSession.t -> ChatSession.t)
    (l : list ChatSession.t) :
  Forall (fun s => f s = g s) l -> map_session sessionId f l = map_session sessionId g l.
Proof.
  intros H. unfold map_session. induction H as [|s l Hs _ IH]; [reflexivity|].
  cbn [map]. rewrite IH, Hs. reflexivity.
Qed.

Lemma map_message_fresh (messageId : jsstring) (f : Message.t -> Message.t)
    (l : list Message.t) (b : Message.t) :
  Forall (fun msg => Message.id msg <> messageId) l -> Message.id b = messageId ->
  map_message messageId f (l ++ [b]) = l ++ [f b].
Proof.
  intros H Hb. unfold map_message. rewrite map_app. cbn [map].
  rewrite Hb, same_refl. f_equal.
  induction H as [|m l Hm _ IH]; [reflexivity|].
  cbn [map]. apply same_false in Hm. rewrite Hm, IH. reflexivity.
Qed.

Lemma last_metadata_cons (c : Chunk) (cs : list Chunk) (md : option nat) :
  last_metadata (c :: cs) md
  = last_metadata cs (match metadata c with Some m => Some m | None => md end).
Proof. reflexivity. Qed.

(** The state while the response streams: the sessions of the id hold the
    added message with the text received so far. *)
Lemma deliver_onChunk (sessionId botMessageId : jsstring) (now : Z)
    (l0 : list ChatSession.t) (cs : list Chunk) (a : App) (acc : jsstring)
    (md : option nat) :
  Forall (fun session =>
            Forall (fun msg => Message.id msg <> botMessageId)
                   (ChatSession.messages session)) l0 ->
  deliver_chunks (onChunk sessionId botMessageId) cs
    (setSessions
       (fun _ => map_session sessionId
                   (with_messages
                      (fun l => l ++ [bot_message botMessageId now acc md true None])) l0)
       a, acc)
  = (setSessions
       (fun _ => map_session sessionId
                   (with_messages
                      (fun l => l ++ [bot_message botMessageId now (acc ++ texts cs)
                                        (last_metadata cs md) true None])) l0)
       a, acc ++ texts cs).
Proof.
  intros Hfresh. revert acc md.
  induction cs as [|c cs IH]; intros acc md.
  - unfold texts. cbn [deliver_chunks fold_left map concat last_metadata].
    rewrite app_nil_r. reflexivity.
  - unfold deliver_chunks in *. cbn [fold_left].
    rewrite texts_cons, last_metadata_cons, app_assoc, <- IH. f_equal.
    unfold onChunk. cbn [fst snd]. f_equal.
    unfold setSessions. cbn [sessions currentSessionId isStreaming isSidebarOpen].
    f_equal.
    rewrite map_session_compose by reflexivity.
    apply map_session_ext.
    eapply List.Forall_impl; [|exact Hfresh].
    intros session Hs. unfold with_messages.
    cbn [ChatSession.id ChatSession.title ChatSession.messages ChatSession.updatedAt].
    f_equal. rewrite map_message_fresh by (exact Hs || reflexivity).
    reflexivity.
Qed.

Lemma title_requests_added (sessionId : jsstring) (b : Message.t)
    (l0 : list ChatSession.t) :
  title_requests sessionId
    (map_session sessionId (with_messages (fun l => l ++ [b])) l0)
  = length (List.filter (fun session =>
                           same (ChatSession.id session) sessionId
                           && (length (ChatSession.messages session) =? 1)%nat) l0).
Proof.
  unfold title_requests, map_session.
  induction l0 as [|s l0 IH]; [reflexivity|].
  cbn [map List.filter].
  destruct (same (ChatSession.id s) sessionId) eqn:E.
  - unfold with_messages at 1 2.
    cbn [ChatSession.id ChatSession.messages]. rewrite E, length_app.
    cbn [length andb].
    replace (length (ChatSession.messages s) + 1 =? 2)%nat
      with (length (ChatSession.messages s) =? 1)%nat
      by (destruct (length (ChatSession.messages s)) as [|[|n]];
          [reflexivity | reflexivity |];
          rewrite Nat.add_comm; reflexivity).
    destruct (length (ChatSession.messages s) =? 1)%nat; cbn [length]; rewrite IH;
      reflexivity.
  - rewrite E. cbn [andb]. exact IH.
Qed.

(** How [generateAIResponse] ends, given how the call of
    [streamChatResponse] settles and which chunks it has delivered. *)
Lemma generateAIResponse_settled (sessionId : jsstring) (history : list Message.t)
    (lastUserMessage : Message.t) (botMessageId : jsstring) (now later : Z)
    (stream : Stream) (a : App) (settled : Settled jsstring) (delivered : list Chunk) :
  last history = Some lastUserMessage ->
  fresh_message_id botMessageId a ->
  (forall s, streamChatResponse (removelast history) (Message.content lastUserMessage)
               stream (onChunk sessionId botMessageId) s
             = (settled, deliver_chunks (onChunk sessionId botMessageId) delivered s)) ->
  generateAIResponse sessionId history botMessageId now later stream a
  = ({| sessions :=
          map_session sessionId
            (fun session =>
               match settled with
               | Fulfilled _ =>
                   with_updatedAt later
                     (with_messages
                        (fun l => l ++ [bot_message botMessageId now (texts delivered)
                                          (last_metadata delivered None) false None])
                        session)
               | Rejected message =>
                   with_messages
                     (fun l => l ++ [bot_message botMessageId now (texts delivered)
                                       (last_metadata delivered None) false
                                       (Some (getUserFriendlyErrorMessage message))])
                     session
               end) (sessions a);
        currentSessionId := currentSessionId a;
        isStreaming := false;
        isSidebarOpen := isSidebarOpen a |},
      Some (formatHistory (removelast history), Message.content lastUserMessage),
      match settled with
      | Fulfilled _ =>
          length (List.filter (fun session =>
                                 same (ChatSession.id session) sessionId
                                 && (length (ChatSession.messages session) =? 1)%nat)
                              (sessions a))
      | Rejected _ => 0%nat
      end).
Proof.
  intros Hlast Hfresh Hstream. unfold generateAIResponse. cbv zeta.
  rewrite Hlast, Hstream.
  change (setSessions
            (map_session sessionId
               (with_messages
                  (fun l => l ++ [ {| Message.id := botMessageId; Message.role := Model;
                                       Message.content := []; Message.timestamp := now;
                                       Message.isStreaming := Some true;
                                       Message.isError := None;
                                       Message.errorMessage := None;
                                       Message.groundingMetadata := None |} ])))
            (setIsStreaming true a))
    with (setSessions
            (fun _ => map_session sessionId
                        (with_messages
                           (fun l => l ++ [bot_message botMessageId now [] None true None]))
                        (sessions a))
            (setIsStreaming true a)).
  pose proof (deliver_onChunk sessionId botMessageId now (sessions a) delivered
                (setIsStreaming true a) [] None Hfresh) as Hd.
  unfold jsstring in *. rewrite Hd. clear Hd.
  cbn [app]. cbv beta iota zeta.
  destruct settled as [fullText|message].
  - unfold setSessions, setIsStreaming.
    cbn [sessions currentSessionId isStreaming isSidebarOpen].
    rewrite title_requests_added, map_session_compose by reflexivity.
    f_equal. f_equal. f_equal.
    apply map_session_ext. eapply List.Forall_impl; [|exact Hfresh].
    intros session Hs. unfold with_updatedAt, with_messages.
    cbn [ChatSession.id ChatSession.title ChatSession.messages ChatSession.updatedAt].
    f_equal. rewrite map_message_fresh by (exact Hs || reflexivity). reflexivity.
  - unfold setSessions, setIsStreaming.
    cbn [sessions currentSessionId isStreaming isSidebarOpen].
    rewrite map_session_compose by reflexivity.
    f_equal. f_equal. f_equal.
    apply map_session_ext. eapply List.Forall_impl; [|exact Hfresh].
    intros session Hs. unfold with_messages.
    cbn [ChatSession.id ChatSession.title ChatSession.messages ChatSession.updatedAt].
    f_equal. rewrite map_message_fresh by (exact Hs || reflexivity). reflexivity.
Qed.

(** A response that streams to its end: the session responded in gets one
    message, whose content is the text of all chunks put together and
    whose metadata is that of the last chunk that had any; the message is
    no longer streaming, the request held the history without its last
    message, and a title is asked for each session that had one message. *)
Theorem generateAIResponse_streams (sessionId : jsstring) (history : list Message.t)
    (lastUserMessage : Message.t) (botMessageId : jsstring) (now later : Z)
    (stream : Stream) (a : App) :
  last history = Some lastUserMessage ->
  Forall (fun c => blocked c = None) (chunks stream) ->
  failure stream = None ->
  fresh_message_id botMessageId a ->
  generateAIResponse sessionId history botMessageId now later stream a
  = ({| sessions :=
          map_session sessionId
            (fun session =>
               with_updatedAt later
                 (with_messages
                    (fun l => l ++ [bot_message botMessageId now (texts (chunks stream))
                                      (last_metadata (chunks stream) None) false None])
                    session)) (sessions a);
        currentSessionId := currentSessionId a;
        isStreaming := false;
        isSidebarOpen := isSidebarOpen a |},
      Some (formatHistory (removelast history), Message.content lastUserMessage),
      length (List.filter (fun session =>
                             same (ChatSession.id session) sessionId
                             && (length (ChatSession.messages session) =? 1)%nat)
                          (sessions a))).
Proof.
  intros Hlast Hchunks Hfail Hfresh.
  apply (generateAIResponse_settled sessionId history lastUserMessage botMessageId
           now later stream a (Fulfilled (texts (chunks stream))) (chunks stream)
           Hlast Hfresh).
  intros s. unfold streamChatResponse.
  rewrite for_await_unblocked by exact Hchunks. rewrite Hfail. reflexivity.
Qed.

Lemma demo_fresh : fresh_message_id (str "b1") demo_app.
Proof. repeat constructor; discriminate. Qed.

Lemma generateAIResponse_streams_witness :
  generateAIResponse (str "s1") [demo_user_message] (str "b1") 2 3 demo_stream demo_app
  = ({| sessions :=
          [ {| ChatSession.id := str "s1"; ChatSession.title := str "New Chat";
               ChatSession.messages :=
                 [demo_user_message;
                  bot_message (str "b1") 2 (str "Hello") (Some 7%nat) false None];
               ChatSession.updatedAt := 3 |};
            {| ChatSession.id := str "s2"; ChatSession.title := str "Older";
               ChatSession.messages := [demo_user_message; demo_reply];
               ChatSession.updatedAt := 0 |} ];
        currentSessionId := Some (str "s1");
        isStreaming := false; isSidebarOpen := false |},
      Some ([], str "hi"), 1%nat).
Proof.
  rewrite (generateAIResponse_streams (str "s1") [demo_user_message] demo_user_message
             (str "b1") 2 3 demo_stream demo_app eq_refl
             ltac:(repeat constructor) eq_refl demo_fresh).
  reflexivity.
Defined.

(** A response whose stream fails, at once or after some chunks: the
    message added keeps the text received so far and is marked as an error
    with the friendly message, which is not empty; no title is asked for
    and the session keeps its time. *)
Theorem generateAIResponse_fails (sessionId : jsstring) (history : list Message.t)
    (lastUserMessage : Message.t) (botMessageId : jsstring) (now later : Z)
    (stream : Stream) (e : jsstring) (a : App) :
  last history = Some lastUserMessage ->
  Forall (fun c => blocked c = None) (chunks stream) ->
  failure stream = Some e ->
  fresh_message_id botMessageId a ->
  generateAIResponse sessionId history botMessageId now later stream a
  = ({| sessions :=
          map_session sessionId
            (with_messages
               (fun l => l ++ [bot_message botMessageId now (texts (chunks stream))
                                 (last_metadata (chunks stream) None) false
                                 (Some (getUserFriendlyErrorMessage e))]))
            (sessions a);
        currentSessionId := currentSessionId a;
        isStreaming := false;
        isSidebarOpen := isSidebarOpen a |},
      Some (formatHistory (removelast history), Message.content lastUserMessage),
      0%nat).
Proof.
  intros Hlast Hchunks Hfail Hfresh.
  apply (generateAIResponse_settled sessionId history lastUserMessage botMessageId
           now later stream a (Rejected e) (chunks stream) Hlast Hfresh).
  intros s. unfold streamChatResponse.
  rewrite for_await_unblocked by exact Hchunks. rewrite Hfail. reflexivity.
Qed.

Lemma generateAIResponse_fails_witness :
  snd (generateAIResponse (str "s1") [demo_user_message] (str "b1") 2 3
         {| chunks := chunks demo_stream; failure := Some (str "Failed to fetch") |}
         demo_app)
  = 0%nat.
Proof.
  rewrite (generateAIResponse_fails (str "s1") [demo_user_message] demo_user_message
             (str "b1") 2 3
             {| chunks := chunks demo_stream; failure := Some (str "Failed to fetch") |}
             (str "Failed to fetch") demo_app eq_refl
             ltac:(repeat constructor) eq_refl demo_fresh).
  reflexivity.
Defined.

Lemma session_kept_added (sessionId : jsstring) (b : Message.t) (l : list ChatSession.t) :
  Forall2 (session_kept sessionId) l
    (map_session sessionId (with_messages (fun l => l ++ [b])) l).
Proof.
  unfold map_session. induction l as [|s l IH]; [constructor|].
  cbn [map]. constructor; [|exact IH].
  destruct (same (ChatSession.id s) sessionId) eqn:E.
  - apply same_spec in E. unfold session_kept, with_messages.
    cbn [ChatSession.id ChatSession.title ChatSession.messages].
    rewrite length_app, Nat.add_comm. cbn [length Nat.add].
    repeat split; try reflexivity. congruence.
  - apply same_false in E. unfold session_kept. repeat split; try reflexivity.
    congruence.
Qed.

Lemma session_kept_map (sessionId : jsstring) (f : ChatSession.t -> ChatSession.t)
    (l l' : list ChatSession.t) :
  (forall s, ChatSession.id (f s) = ChatSession.id s
             /\ ChatSession.title (f s) = ChatSession.title s
             /\ length (ChatSession.messages (f s)) = length (ChatSession.messages s)) ->
  Forall2 (session_kept sessionId) l l' ->
  Forall2 (session_kept sessionId) l (map_session sessionId f l').
Proof.
  intros Hf H. unfold map_session.
  induction H as [|s s' l l' (Hid & Htitle & Hother & Hthis) _ IH]; [constructor|].
  cbn [map]. constructor; [|exact IH].
  destruct (Hf s') as (Fid & Ftitle & Flen).
  destruct (same (ChatSession.id s') sessionId) eqn:E.
  - apply same_spec in E. unfold session_kept.
    rewrite Fid, Ftitle, Flen. repeat split; try assumption.
    intros Hne. congruence.
  - unfold session_kept. repeat split; assumption.
Qed.

Lemma map_message_length (messageId : jsstring) (f : Message.t -> Message.t)
    (l : list Message.t) : length (map_message messageId f l) = length l.
Proof. unfold map_message. apply length_map. Qed.

(** What holds of the state all through [generateAIResponse]. *)
Lemma for_await_invariant {S : Type} (Inv : S -> Prop)
    (onChunk : jsstring -> option nat -> S -> S) (cs : list Chunk)
    (failed : option jsstring) (fullText : jsstring) (s : S) :
  (forall t md s, Inv s -> Inv (onChunk t md s)) -> Inv s ->
  Inv (snd (for_await cs failed fullText onChunk s)).
Proof.
  intros Hstep. revert fullText s.
  induction cs as [|c cs IH]; intros fullText s Hs; cbn [for_await].
  - destruct failed; exact Hs.
  - destruct (blocked c); [exact Hs|]. apply IH, Hstep, Hs.
Qed.

(** Whatever the stream does, a blocked chunk and a failure included,
    [generateAIResponse] ends with [isStreaming] false, keeps the current
    session and the list of sessions with their ids and titles, leaves
    every other session as it was, and adds exactly one message to the
    session it responds in. *)
Theorem generateAIResponse_frame (sessionId : jsstring) (history : list Message.t)
    (botMessageId : jsstring) (now later : Z) (stream : Stream) (a : App) :
  let a' := fst (fst (generateAIResponse sessionId history botMessageId now later
                        stream a)) in
  isStreaming a' = false
  /\ currentSessionId a' = currentSessionId a
  /\ isSidebarOpen a' = isSidebarOpen a
  /\ Forall2 (session_kept sessionId) (sessions a) (sessions a').
Proof.
  set (Inv := fun s : App * jsstring =>
                currentSessionId (fst s) = currentSessionId a
                /\ isSidebarOpen (fst s) = isSidebarOpen a
                /\ Forall2 (session_kept sessionId) (sessions a) (sessions (fst s))).
  assert (Hstep : forall t md s, Inv s -> Inv (onChunk sessionId botMessageId t md s)).
  { intros t md [a0 ft] (H1 & H2 & H3). unfold Inv, onChunk.
    cbn [fst snd setSessions sessions currentSessionId isSidebarOpen] in *.
    split; [exact H1|]. split; [exact H2|].
    apply session_kept_map; [|exact H3].
    intros s. unfold with_messages.
    cbn [ChatSession.id ChatSession.title ChatSession.messages].
    rewrite map_message_length. auto. }
  assert (Hend : forall (f : Message.t -> Message.t) (upd : ChatSession.t -> ChatSession.t)
                        (a0 : App),
             (forall s, ChatSession.id (upd s) = ChatSession.id s
                        /\ ChatSession.title (upd s) = ChatSession.title s
                        /\ ChatSession.messages (upd s) = ChatSession.messages s) ->
             Inv (a0, []) ->
             let a' := setIsStreaming false
                         (setSessions
                            (map_session sessionId
                               (fun session =>
                                  upd (with_messages (map_message botMessageId f) session)))
                            a0) in
             isStreaming a' = false
             /\ currentSessionId a' = currentSessionId a
             /\ isSidebarOpen a' = isSidebarOpen a
             /\ Forall2 (session_kept sessionId) (sessions a) (sessions a')).
  { intros f upd a0 Hupd (H1 & H2 & H3).
    cbn [fst snd setIsStreaming setSessions sessions currentSessionId isSidebarOpen
         isStreaming] in *.
    split; [reflexivity|]. split; [exact H1|]. split; [exact H2|].
    apply session_kept_map; [|exact H3].
    intros s. destruct (Hupd (with_messages (map_message botMessageId f) s))
      as (U1 & U2 & U3).
    rewrite U1, U2, U3. unfold with_messages.
    cbn [ChatSession.id ChatSession.title ChatSession.messages].
    rewrite map_message_length. auto. }
  assert (H0 : forall b,
             Inv (setSessions
                    (map_session sessionId (with_messages (fun l => l ++ [b])))
                    (setIsStreaming true a), [])).
  { intros b. unfold Inv.
    cbn [fst setSessions setIsStreaming sessions currentSessionId isSidebarOpen].
    split; [reflexivity|]. split; [reflexivity|]. apply session_kept_added. }
  unfold generateAIResponse. cbv zeta.
  destruct (last history) as [lastUserMessage|].
  - unfold streamChatResponse.
    match goal with
    | |- context [for_await ?cs ?failed ?ft ?k ?s] =>
        pose proof (for_await_invariant Inv k cs failed ft s Hstep (H0 _)) as Hs;
        destruct (for_await cs failed ft k s) as [settled [a0 ft']]
    end.
    cbn [snd] in Hs.
    assert (Hs' : Inv (a0, [])) by exact Hs.
    destruct settled as [fullText|message]; cbv beta iota zeta; cbn [fst].
    + apply (Hend finished (with_updatedAt later) a0); [|exact Hs'].
      intros s. repeat split; reflexivity.
    + apply (Hend (failed_with (getUserFriendlyErrorMessage message)) (fun s => s) a0);
        [|exact Hs'].
      intros s. repeat split; reflexivity.
  - cbv beta iota zeta. cbn [fst].
    apply (Hend (failed_with (getUserFriendlyErrorMessage
                                (str "No user message to respond to.")))
                (fun s => s)); [|apply H0].
    intros s. repeat split; reflexivity.
Qed.

(* ===================================================================== *)
(** ** The chat: editing a message, deleting a chat                       *)
(* ===================================================================== *)

Lemma findIndex_app (messageId : jsstring) (before after : list Message.t)
    (m : Message.t) :
  Forall (fun x => Message.id x <> messageId) before -> Message.id m = messageId ->
  findIndex messageId (before ++ m :: after) = Some (length before).
Proof.
  intros H Hm. induction H as [|x before Hx _ IH].
  - cbn [app findIndex length]. rewrite Hm, same_refl. reflexivity.
  - cbn [app findIndex length]. apply same_false in Hx. rewrite Hx, IH. reflexivity.
Qed.

Lemma removelast_snoc {A : Type} (l : list A) (x : A) : removelast (l ++ [x]) = l.
Proof. rewrite removelast_app by discriminate. cbn. apply app_nil_r. Qed.

(** Editing a message keeps the messages before it, drops it and all the
    messages after it, the replies included, and puts the new text in
    their place as a new message, stamped with the time read for it; the
    session is stamped with the time read inside the update.  The request
    that follows holds the messages before the edited one as its history
    and the new text as its message. *)
Theorem handleEditMessage_truncates (r a : App) (current : jsstring)
    (session : ChatSession.t) (before after : list Message.t) (m : Message.t)
    (messageId newContent newId botMessageId : jsstring) (now updated now' later : Z)
    (stream : Stream) :
  current_session r = Some current ->
  isStreaming r = false ->
  find_session current (sessions r) = Some session ->
  ChatSession.messages session = before ++ m :: after ->
  Message.id m = messageId ->
  Forall (fun x => Message.id x <> messageId) before ->
  let newMsg :=
    {| Message.id := newId; Message.role := User; Message.content := newContent;
       Message.timestamp := now; Message.isStreaming := None; Message.isError := None;
       Message.errorMessage := None; Message.groundingMetadata := None |} in
  let a' := fst (handleEditMessage r messageId newContent newId now updated a) in
  handleEditMessage r messageId newContent newId now updated a
  = (a', Some (current, before ++ [newMsg]))
  /\ sessions a'
     = map_session current
         (fun s => with_updatedAt updated (with_messages (fun _ => before ++ [newMsg]) s))
         (sessions a)
  /\ snd (fst (generateAIResponse current (before ++ [newMsg]) botMessageId now' later
                 stream a'))
     = Some (formatHistory before, newContent).
Proof.
  intros Hcur Hstr Hfind Hmsgs Hm Hbefore newMsg a'.
  assert (E : handleEditMessage r messageId newContent newId now updated a
              = (setSessions
                   (map_session current
                      (fun s => with_updatedAt updated
                                  (with_messages (fun _ => before ++ [newMsg]) s))) a,
                 Some (current, before ++ [newMsg]))).
  { unfold handleEditMessage. rewrite Hcur, Hstr, Hfind, Hmsgs.
    rewrite (findIndex_app messageId before after m Hbefore Hm).
    rewrite take_app_length. reflexivity. }
  subst a'. rewrite E. cbn [fst]. split; [reflexivity|]. split; [reflexivity|].
  unfold generateAIResponse. cbv zeta.
  rewrite last_snoc, removelast_snoc.
  destruct (streamChatResponse _ _ _ _ _) as [[fullText|message] [a0 ft]];
    reflexivity.
Qed.

Lemma handleEditMessage_truncates_witness :
  sessions (fst (handleEditMessage
                   {| sessions := sessions demo_app; currentSessionId := Some (str "s2");
                      isStreaming := false; isSidebarOpen := false |}
                   (str "u1") (str "hello") (str "u2") 121 123 demo_app))
  = [ {| ChatSession.id := str "s1"; ChatSession.title := str "New Chat";
         ChatSession.messages := [demo_user_message];
         ChatSession.updatedAt := 1 |};
      {| ChatSession.id := str "s2"; ChatSession.title := str "Older";
         ChatSession.messages :=
           [ {| Message.id := str "u2"; Message.role := User;
                Message.content := str "hello"; Message.timestamp := 121;
                Message.isStreaming := None; Message.isError := None;
                Message.errorMessage := None; Message.groundingMetadata := None |} ];
         ChatSession.updatedAt := 123 |} ].
Proof.
  rewrite (proj1 (proj2 (handleEditMessage_truncates
             {| sessions := sessions demo_app; currentSessionId := Some (str "s2");
                isStreaming := false; isSidebarOpen := false |}
             demo_app (str "s2")
             {| ChatSession.id := str "s2"; ChatSession.title := str "Older";
                ChatSession.messages := [demo_user_message; demo_reply];
                ChatSession.updatedAt := 0 |}
             [] [demo_reply] demo_user_message
             (str "u1") (str "hello") (str "u2") (str "b1") 121 123 6 7 demo_stream
             eq_refl eq_refl eq_refl eq_refl eq_refl ltac:(constructor)))).
  reflexivity.
Defined.

Lemma session_ids_filter (id x : jsstring) (l : list ChatSession.t) :
  In x (map ChatSession.id
          (List.filter (fun s => negb (same (ChatSession.id s) id)) l))
  <-> In x (map ChatSession.id l) /\ x <> id.
Proof.
  rewrite !List.in_map_iff. split.
  - intros (s & <- & Hs). apply List.filter_In in Hs. destruct Hs as [Hs Hne].
    apply negb_true_iff, same_false in Hne. split; [exists s; auto | exact Hne].
  - intros [(s & <- & Hs) Hne]. exists s. split; [reflexivity|].
    apply List.filter_In. split; [exact Hs|].
    apply negb_true_iff, same_false, Hne.
Qed.

Lemma NoDup_session_ids_filter (p : ChatSession.t -> bool) (l : list ChatSession.t) :
  NoDup (map ChatSession.id l) -> NoDup (map ChatSession.id (List.filter p l)).
Proof.
  induction l as [|s l IH]; [intros; constructor|].
  cbn [map List.filter]. intros H. apply NoDup_cons in H. destruct H as [Hs Hl].
  destruct (p s); [|apply IH, Hl].
  cbn [map]. apply NoDup_cons. split; [|apply IH, Hl].
  intros Hin. apply Hs. apply list_elem_of_In. apply list_elem_of_In in Hin.
  apply List.in_map_iff in Hin. destruct Hin as (s' & Hid & Hs').
  apply List.filter_In in Hs'. apply List.in_map_iff. exists s'. tauto.
Qed.

(** Deleting a chat from the sidebar, when no two sessions share an id and
    the current session exists: afterwards this still holds, and the
    deleted chat is gone.  When the current chat was deleted, another chat
    has become the current one, a new one if there was no other; when
    another chat was deleted, the current one stays. *)
Theorem delete_chat_keeps_current (id newId : jsstring) (now : Z) (a : App) :
  current_exists a -> newId ∉ session_ids a ->
  current_exists (delete_chat id newId now a)
  /\ (id ∉ session_ids (delete_chat id newId now a))
  /\ (currentSessionId a <> Some id ->
      currentSessionId (delete_chat id newId now a) = currentSessionId a).
Proof.
  intros [Hnd (current & Hcur & Hin)] Hnew.
  unfold session_ids in *.
  assert (Hgone : forall l, id ∉ map ChatSession.id
                    (List.filter (fun s => negb (same (ChatSession.id s) id)) l)).
  { intros l H. apply list_elem_of_In, session_ids_filter in H. tauto. }
  unfold delete_chat, handleDeleteChat. rewrite Hcur.
  destruct (same current id) eqn:E.
  - apply same_spec in E. subst current.
    destruct (Nat.leb (length (sessions a)) 1) eqn:Hlen.
    + (* the only chat *)
      apply Nat.leb_le in Hlen.
      destruct (sessions a) as [|s [|s' l]] eqn:Hs; cbn [length] in Hlen; try lia.
      * cbn [map] in Hin. apply elem_of_nil in Hin. contradiction.
      * cbn [map] in Hin. apply list_elem_of_singleton in Hin.
        unfold createNewChat, setIsSidebarOpen, setCurrentSessionId, setSessions,
          current_exists, session_ids.
        cbn [sessions currentSessionId isStreaming isSidebarOpen].
        rewrite Hs. cbn [List.filter]. rewrite <- Hin, same_refl. cbn [negb map].
        cbn [ChatSession.id].
        assert (Hne : newId <> id).
        { intros ->. apply Hnew. rewrite Hin. cbn [map]. left. }
        split; [|split].
        -- split; [apply NoDup_singleton|].
           exists newId. split; [reflexivity | left].
        -- rewrite list_elem_of_singleton. congruence.
        -- congruence.
    + (* there is another chat *)
      apply Nat.leb_gt in Hlen.
      destruct (List.find (fun s => negb (same (ChatSession.id s) id)) (sessions a))
        as [next|] eqn:Hfind.
      * apply List.find_some in Hfind. destruct Hfind as [Hnext Hne].
        unfold setCurrentSessionId, setSessions, current_exists, session_ids.
        cbn [sessions currentSessionId isStreaming isSidebarOpen].
        split; [|split].
        -- split; [apply NoDup_session_ids_filter, Hnd|].
           exists (ChatSession.id next). split; [reflexivity|].
           apply list_elem_of_In, List.in_map_iff. exists next. split; [reflexivity|].
           apply List.filter_In. split; assumption.
        -- apply Hgone.
        -- congruence.
      * exfalso.
        assert (Hall : forall s, In s (sessions a) -> ChatSession.id s = id).
        { intros s Hs. pose proof (List.find_none _ _ Hfind s Hs) as Hx.
          apply negb_false_iff, same_spec in Hx. exact Hx. }
        destruct (sessions a) as [|s [|s' l]]; cbn [length] in Hlen; try lia.
        cbn [map] in Hnd. apply NoDup_cons in Hnd. destruct Hnd as [Hs _].
        apply Hs. rewrite (Hall s) by (left; reflexivity).
        rewrite (Hall s') by (right; left; reflexivity). left.
  - apply same_false in E.
    unfold setSessions, current_exists, session_ids.
    cbn [sessions currentSessionId isStreaming isSidebarOpen].
    split; [|split].
    + split; [apply NoDup_session_ids_filter, Hnd|].
      exists current. split; [exact Hcur|].
      apply list_elem_of_In, session_ids_filter. split; [|exact E].
      apply list_elem_of_In, Hin.
    + apply Hgone.
    + intros _. exact Hcur.
Qed.

Lemma delete_chat_keeps_current_witness :
  current_exists demo_app
  /\ current_exists (delete_chat (str "s1") (str "s3") 9 demo_app).
Proof.
  assert (H : current_exists demo_app).
  { split.
    - unfold session_ids. cbn [demo_app sessions map ChatSession.id].
      apply NoDup_cons. split.
      + rewrite list_elem_of_singleton. discriminate.
      + apply NoDup_singleton.
    - exists (str "s1"). split; [reflexivity|]. left. }
  assert (Hn : str "s3" ∉ session_ids demo_app).
  { unfold session_ids. cbn [demo_app sessions map ChatSession.id].
    rewrite !elem_of_cons, elem_of_nil. intros [Hx|[Hx|[]]]; discriminate. }
  split; [exact H|].
  exact (proj1 (delete_chat_keeps_current (str "s1") (str "s3") 9 demo_app H Hn)).
Defined.
